(** * Bandpass calibration-table parser: a shallow embedding of
      [utils/dataset_utils.py]

    The Python functions are rendered as Rocq functions over lists of
    lines.  A line is a [string]: a sequence of 8-bit characters, which
    stands for the Python [str] restricted to code points below 256.
    Python exceptions are explicit ([result]); functions that also write
    to the console return the sequence of messages they print ([io]). *)

From Stdlib Require Import String Ascii List ZArith NArith Arith Bool Lia.
From Stdlib Require Import Strings.Byte.
From Stdlib Require Import Permutation Sorted ListDec.
Import ListNotations.

Local Open Scope string_scope.
Local Open Scope list_scope.

(** ** Python runtime: exceptions, console output *)

Module Py.

(** The exception classes a run of the module can end in.  The last three
    are the classes the written specification names; no function of
    [dataset_utils.py] raises them. *)
Inductive exn : Type :=
| IndexError
| ValueError
| UnboundLocalError
| RecursionError
| TypeError
| KeyError
| UnicodeEncodeError
| UnicodeDecodeError
| MalformedReportError
| SectionAlignmentError
| RecordShapeError.

Inductive result (A : Type) : Type :=
| Ok (a : A)
| Raise (e : exn).

Arguments Ok {A} a.
Arguments Raise {A} e.

Definition bind {A B : Type} (m : result A) (k : A -> result B) : result B :=
  match m with
  | Ok a => k a
  | Raise e => Raise e
  end.

(** What the module prints, one constructor per [print] call site. *)
Inductive event : Type :=
| SolutionsFound (n : nat)
    (* print(len(solutions), "solutions found. First solution processing...") *)
| WarnExpected (expected got : nat)
    (* print(f"Warning: Expected {expected} values per line, got {len(nums)}.") *)
| WarnMultiple
    (* print("Warning: processing data from multiple timestamps or fields.") *)
| Saved (filename : string).
    (* print("Saved:", filename) *)

(** A computation that prints: the messages written so far, and how it
    ended. *)
Definition io (A : Type) : Type := (list event * result A)%type.

Definition io_ret {A : Type} (a : A) : io A := ([], Ok a).

Definition io_bind {A B : Type} (m : io A) (k : A -> io B) : io B :=
  match m with
  | (w, Ok a) => let (w', r) := k a in (w ++ w', r)
  | (w, Raise e) => (w, Raise e)
  end.

Definition print (e : event) : io unit := ([e], Ok tt).

Definition lift {A : Type} (r : result A) : io A := ([], r).

End Py.

Import Py.

Declare Scope py_scope.
Delimit Scope py_scope with py.
Notation "x <- m ;; k" := (bind m (fun x => k))
  (at level 61, m at next level, right associativity) : py_scope.
Notation "x <~ m ;; k" := (io_bind m (fun x => k))
  (at level 61, m at next level, right associativity) : py_scope.
Local Open Scope py_scope.

(** ** Built-in operations on sequences and strings *)

Section Sequences.
Context {A : Type}.

(** Normalisation of a slice bound [i] for a sequence of length [len]:
    a negative bound counts from the end, and the result is clamped to
    [0 .. len]. *)
Definition slice_bound (len : nat) (i : Z) : nat :=
  if (i <? 0)%Z then Z.to_nat (Z.max 0 (i + Z.of_nat len))
  else Nat.min len (Z.to_nat i).

(** [l[a:]] *)
Definition slice_from (l : list A) (a : Z) : list A :=
  skipn (slice_bound (length l) a) l.

(** [l[:b]] *)
Definition slice_to (l : list A) (b : Z) : list A :=
  firstn (slice_bound (length l) b) l.

(** [l[a:b]] *)
Definition slice (l : list A) (a b : Z) : list A :=
  let na := slice_bound (length l) a in
  let nb := slice_bound (length l) b in
  firstn (nb - na) (skipn na l).

(** [l[i]]: a negative index counts from the end; out of range raises
    [IndexError]. *)
Definition index (l : list A) (i : Z) : result A :=
  let n := Z.of_nat (length l) in
  let j := if (i <? 0)%Z then (i + n)%Z else i in
  if ((0 <=? j) && (j <? n))%Z
  then match nth_error l (Z.to_nat j) with
       | Some x => Ok x
       | None => Raise IndexError
       end
  else Raise IndexError.
End Sequences.

(** [needle in s] for strings: [needle] occurs as a substring of [s]. *)
Fixpoint contains (needle s : string) : bool :=
  prefix needle s ||
  match s with
  | EmptyString => false
  | String _ s' => contains needle s'
  end.

(** [s] without the prefix [p], when it starts with [p]. *)
Fixpoint strip_prefix (p s : string) : option string :=
  match p, s with
  | EmptyString, _ => Some s
  | String a p', String b s' =>
      if Ascii.eqb a b then strip_prefix p' s' else None
  | String _ _, EmptyString => None
  end.

(** The longest prefix of [s] whose characters satisfy [f], and what
    follows it: the behaviour of a greedy [c+] or [c*] on a character
    class when the next pattern item cannot start with a character of
    the class. *)
Fixpoint span (f : ascii -> bool) (s : string) : string * string :=
  match s with
  | EmptyString => (EmptyString, EmptyString)
  | String c s' =>
      if f c then let (h, t) := span f s' in (String c h, t)
      else (EmptyString, s)
  end.

Definition code (c : ascii) : N := N_of_ascii c.

Definition in_range (lo hi : N) (c : ascii) : bool :=
  ((lo <=? code c) && (code c <=? hi))%N.

(** The class [[a-zA-Z0-9]]. *)
Definition is_alnum (c : ascii) : bool :=
  in_range 97 122 c || in_range 65 90 c || in_range 48 57 c.

(** The class [\d] (below code point 256 the decimal digits are 0-9). *)
Definition is_digit (c : ascii) : bool := in_range 48 57 c.

(** The class [\s], which is also the separator set of [str.split()]:
    the characters for which [str.isspace] holds, below code point 256. *)
Definition is_space (c : ascii) : bool :=
  in_range 9 13 c || in_range 28 32 c
  || (code c =? 133)%N || (code c =? 160)%N.

Definition is_nonspace (c : ascii) : bool := negb (is_space c).

Definition newline : ascii := ascii_of_nat 10.

Definition is_empty (s : string) : bool :=
  match s with EmptyString => true | _ => false end.

(** Every character of [s] satisfies [f]. *)
Fixpoint string_forall (f : ascii -> bool) (s : string) : bool :=
  match s with
  | EmptyString => true
  | String c s' => f c && string_forall f s'
  end.

(** [s.rstrip('\n')] *)
Fixpoint rstrip_newline (s : string) : string :=
  match s with
  | EmptyString => EmptyString
  | String c s' =>
      let r := rstrip_newline s' in
      if Ascii.eqb c newline && is_empty r then EmptyString else String c r
  end.

(** [s] without its trailing NUL characters.  numpy keeps strings in
    fixed-width items padded with NUL, so an item read back from an
    array of strings has lost the NULs it ended with. *)
Fixpoint rstrip_nul (s : string) : string :=
  match s with
  | EmptyString => EmptyString
  | String c s' =>
      let r := rstrip_nul s' in
      if Ascii.eqb c Ascii.zero && is_empty r then EmptyString else String c r
  end.

(** [s.replace(c, empty)] for a one-character [c]. *)
Fixpoint remove_char (c : ascii) (s : string) : string :=
  match s with
  | EmptyString => EmptyString
  | String d s' =>
      if Ascii.eqb d c then remove_char c s' else String d (remove_char c s')
  end.

(** [s.split()]: the maximal runs of non-whitespace characters.  [cur] is
    the run being read. *)
Fixpoint split_ws_from (cur s : string) : list string :=
  match s with
  | EmptyString => if is_empty cur then [] else [cur]
  | String c s' =>
      if is_space c
      then (if is_empty cur then split_ws_from EmptyString s'
            else cur :: split_ws_from EmptyString s')
      else split_ws_from (cur ++ String c EmptyString) s'
  end.

Definition split_ws (s : string) : list string := split_ws_from EmptyString s.

(** [s.split(sep, 1)[1]]: what follows the first [sep]; [IndexError] when
    [s] has no [sep]. *)
Fixpoint after_first (sep : ascii) (s : string) : result string :=
  match s with
  | EmptyString => Raise IndexError
  | String c s' => if Ascii.eqb c sep then Ok s' else after_first sep s'
  end.

(** [s[0]]: the one-character string at position 0. *)
Definition first_char (s : string) : result string :=
  match s with
  | EmptyString => Raise IndexError
  | String c _ => Ok (String c EmptyString)
  end.

(** The value of a string of decimal digits. *)
Definition digit_value (c : ascii) : N := (code c - 48)%N.

Fixpoint int_of_digits_from (acc : N) (s : string) : N :=
  match s with
  | EmptyString => acc
  | String c s' => int_of_digits_from (acc * 10 + digit_value c)%N s'
  end.

Definition int_of_digits (s : string) : N := int_of_digits_from 0%N s.

(** [sys.get_int_max_str_digits()], at its default. *)
Definition int_max_str_digits : nat := 4300.

(** [int(s)] for a string of decimal digits: an unbounded integer, and
    [ValueError] when [s] has more digits than the conversion limit
    (leading zeros count). *)
Definition py_int (s : string) : result N :=
  if (int_max_str_digits <? String.length s)%nat then Raise ValueError
  else Ok (int_of_digits s).

Fixpoint list_eqb {A : Type} (eqA : A -> A -> bool) (l1 l2 : list A) : bool :=
  match l1, l2 with
  | [], [] => true
  | x :: t1, y :: t2 => eqA x y && list_eqb eqA t1 t2
  | _, _ => false
  end.

Arguments py_int : simpl never.

(** ** [extract_solutions] *)

(** [[i for i, L in enumerate(lines) if marker in L]], counting from [i]. *)
Fixpoint marker_indices (marker : string) (lines : list string) (i : Z)
  : list Z :=
  match lines with
  | [] => []
  | L :: rest =>
      if contains marker L then i :: marker_indices marker rest (i + 1)
      else marker_indices marker rest (i + 1)
  end.

(** The loop [for i in range(len(split)-1): lines[split[i]:split[i+1]]]. *)
Fixpoint spans_between (lines : list string) (split : list Z)
  : list (list string) :=
  match split with
  | a :: ((b :: _) as tl) => slice lines a b :: spans_between lines tl
  | _ => []
  end.

(** [lines] is the result of [file.readlines()]. *)
Definition extract_solutions (lines : list string)
  : result (list (list string)) :=
  let solutions_split := marker_indices "SpwID" lines 0 in
  if (1 <? length solutions_split)%nat
  then
    last_b <- index solutions_split (-1) ;;
    Ok (spans_between lines solutions_split ++ [slice_from lines last_b])
  else
    first_b <- index solutions_split 0 ;;
    Ok [slice_from lines first_b].

(** ** [get_antenna_names] *)

(** One attempt of the pattern [Ant = ([a-zA-Z0-9]+)] at the start of [s]:
    the captured name and the number of characters matched. *)
Definition match_ant (s : string) : option (string * nat) :=
  match strip_prefix "Ant = " s with
  | Some r =>
      let (name, _) := span is_alnum r in
      if is_empty name then None else Some (name, 6 + String.length name)
  | None => None
  end.

(** [re.findall]: scan left to right; after a match the scan resumes at
    its end ([skip] counts the characters of the last match still to be
    passed over). *)
Fixpoint findall_ant (s : string) (skip : nat) : list string :=
  match s with
  | EmptyString => []
  | String _ s' =>
      match skip with
      | S k => findall_ant s' k
      | O =>
          match match_ant s with
          | Some (name, n) => name :: findall_ant s' (n - 1)
          | None => findall_ant s' 0
          end
      end
  end.

Definition get_antenna_names (section : list string) : result (list string) :=
  header_line <- index section 0 ;;
  Ok (findall_ant header_line 0).

(** ** [remove_newline_chars] *)

Definition remove_newline_chars (solution : list string) : list string :=
  map rstrip_newline solution.

(** ** [remove_duplicate_heders] *)

(** [sol[:i-1] + sol[i+2:]] *)
Definition excise (sol : list string) (i : Z) : list string :=
  slice_to sol (i - 1) ++ slice_from sol (i + 2).

(** [current_header == last_header and len(current_header) > 0], under the
    guard [last_header is not None]. *)
Definition is_duplicate (last_header : option (list string))
  (current_header : list string) : bool :=
  match last_header with
  | Some h =>
      list_eqb String.eqb current_header h && (0 <? length current_header)%nat
  | None => false
  end.

(** One pass of the [for i, L in enumerate(sol)] loop, from line [i] on
    ([rest] is [sol[i:]]).  It ends with [Some i] at the first line where
    the excision fires, and with [None] when the loop runs to its end. *)
Fixpoint scan_headers (sol rest : list string) (i : Z)
  (last_header : option (list string)) : result (option Z) :=
  match rest with
  | [] => Ok None
  | L :: rest' =>
      if contains "Time" L then
        current_header <- get_antenna_names (slice_from sol (i - 1)) ;;
        if is_duplicate last_header current_header then Ok (Some i)
        else scan_headers sol rest' (i + 1) (Some current_header)
      else scan_headers sol rest' (i + 1) last_header
  end.

(** [remove_duplicate_heders(sol, last_header)].  The function calls
    itself once per excision, each call inside the one before.  [depth]
    is the number of such nested calls that the interpreter's recursion
    limit still allows when the function is entered, each with the room
    its own scan needs (the limit is 1000 frames by default, less those
    already on the stack); one call more is Python's [RecursionError]. *)
Fixpoint remove_duplicate_heders (depth : nat) (sol : list string)
  (last_header : option (list string)) : result (list string) :=
  found <- scan_headers sol sol 0 last_header ;;
  match found with
  | None => Ok sol
  | Some i =>
      match depth with
      | O => Raise RecursionError
      | S d => remove_duplicate_heders d (excise sol i) None
      end
  end.

(** ** [split_into_sections] *)

(** [[i-1 for i, L in enumerate(sol) if "Time" in L]], counting from [i]. *)
Fixpoint section_starts (sol : list string) (i : Z) : list Z :=
  match sol with
  | [] => []
  | L :: rest =>
      if contains "Time" L then (i - 1)%Z :: section_starts rest (i + 1)
      else section_starts rest (i + 1)
  end.

Definition split_into_sections (sol : list string)
  : result (list (list string)) :=
  let sections_split := section_starts sol 0 in
  let sections := spans_between sol sections_split in
  last_b <- index sections_split (-1) ;;
  Ok (sections ++ [slice_from sol last_b]).

(** ** [join_sections] *)

Definition sentinel : string := "-nbsdfbkj".

(** The loop [for L, M in zip(sections[0], sections[1])]. *)
Fixpoint merge_rows (s0 s1 : list string) : result (list string) :=
  match s0, s1 with
  | L :: s0', M :: s1' =>
      m0 <- first_char M ;;
      if String.eqb m0 sentinel then merge_rows s0' s1'
      else
        tail <- after_first "|" M ;;
        table <- merge_rows s0' s1' ;;
        Ok ((L ++ tail)%string :: table)
  | _, _ => Ok []
  end.

(** [join_sections(sections)].  The function calls itself once per
    Section after the first, each call inside the one before; [depth] is
    the number of nested calls the recursion limit still allows, as for
    [remove_duplicate_heders]. *)
Fixpoint join_sections (depth : nat) (sections : list (list string))
  {struct depth} : result (list string) :=
  match sections with
  | [] => Raise IndexError          (* sections[0] *)
  | [s0] => Ok (slice_to s0 2 ++ slice_from s0 3)
  | s0 :: s1 :: rest =>
      table <- merge_rows s0 s1 ;;
      match depth with
      | O => Raise RecursionError
      | S d => join_sections d (table :: rest)
      end
  end.

(** ** [parse_bandpass_text] *)

(** [lines] is the content of the report as [readlines] gives it.  The
    local variable [sol] is bound only inside the [if]; reading it
    unbound raises [UnboundLocalError].  [depth] is the number of nested
    calls the recursion limit allows to each of the two recursive
    functions called from here. *)
Definition parse_bandpass_text (depth : nat) (lines : list string)
  : io (list string) :=
  solutions <~ lift (extract_solutions lines) ;;
  sol0 <~ (if (1 <? length solutions)%nat
           then _ <~ print (SolutionsFound (length solutions)) ;;
                s <~ lift (index solutions 0) ;;
                io_ret (Some s)
           else io_ret None) ;;
  match sol0 with
  | None => lift (Raise UnboundLocalError)
  | Some sol =>
      let sol := remove_newline_chars sol in
      sol <~ lift (remove_duplicate_heders depth sol None) ;;
      sol <~ lift (remove_duplicate_heders depth sol None) ;;
      sections <~ lift (split_into_sections sol) ;;
      caltable <~ lift (join_sections depth sections) ;;
      io_ret caltable
  end.

(** ** Array operations of [numpy] used by the record parser *)

Section Arrays.
Context {X : Type}.

(** [n] consecutive rows of width [w], in C order: the reshape of a flat
    array of [n * w] items to shape [(n, w)]. *)
Fixpoint rows (n w : nat) (l : list X) : list (list X) :=
  match n with
  | O => []
  | S n' => firstn w l :: rows n' w (skipn w l)
  end.

(** [a[idx]] for an index array [idx] (row gather); [d] pads an index out
    of range, which [argsort] never produces. *)
Definition gather (d : X) (a : list X) (idx : list nat) : list X :=
  map (fun i => nth i a d) idx.

(** [a.swapaxes(0, 1)] for [a] of shape [(len a, n, ...)]. *)
Definition swapaxes01 (n : nat) (a : list (list (list X)))
  : list (list (list X)) :=
  map (fun i => map (fun blk => nth i blk []) a) (seq 0 n).
End Arrays.

(** Consecutive pairs: the reshape of a flat array to shape [(_, 2)]. *)
Fixpoint unpair {X : Type} (l : list X) : list (X * X) :=
  match l with
  | a :: b :: tl => (a, b) :: unpair tl
  | _ => []
  end.

Section Ordering.
Context {K : Type}.
Variable leb : K -> K -> bool.
Variable eqb : K -> K -> bool.

(** Insertion of index [i] into a list of indices ordered by key. *)
Fixpoint insert_index (keys : list K) (d : K) (i : nat) (l : list nat)
  : list nat :=
  match l with
  | [] => [i]
  | j :: tl =>
      if leb (nth i keys d) (nth j keys d) then i :: l
      else j :: insert_index keys d i tl
  end.

(** [np.argsort(keys)]: the indices of [keys] in ascending key order.
    Equal keys are kept in their order here; numpy's default sort leaves
    that order open, which the parser's result does not depend on: with
    equal channels the blocks gathered are either empty or too many for
    the reshape that follows. *)
Definition argsort (d : K) (keys : list K) : list nat :=
  fold_right (insert_index keys d) [] (seq 0 (length keys)).

Fixpoint insert_sorted (x : K) (l : list K) : list K :=
  match l with
  | [] => [x]
  | y :: tl => if leb x y then x :: l else y :: insert_sorted x tl
  end.

Fixpoint dedup_adjacent (l : list K) : list K :=
  match l with
  | x :: ((y :: _) as tl) =>
      if eqb x y then dedup_adjacent tl else x :: dedup_adjacent tl
  | _ => l
  end.

(** [np.unique(a)]: the distinct values of [a] in ascending order. *)
Definition unique (l : list K) : list K :=
  dedup_adjacent (fold_right insert_sorted [] l).
End Ordering.

(** ** Conversion of Python lists to [numpy] arrays *)

(** The element types [np.array] chooses for a list of Python integers. *)
Inductive np_dtype : Type := Int64 | UInt64 | Float64 | Object.

Definition two_63 : N := 9223372036854775808.
Definition two_64 : N := 18446744073709551616.

(** The dtype of [np.array(l)] for a list of non-negative integers: an
    integer below 2^63 is taken as int64, one below 2^64 as uint64, a
    larger one as a Python object; int64 and uint64 together promote to
    float64, anything with an object to object.  The empty list gives an
    empty float64 array. *)
Definition np_int_dtype (l : list N) : np_dtype :=
  match l with
  | [] => Float64
  | _ =>
      if forallb (fun c => c <? two_63)%N l then Int64
      else if existsb (fun c => two_64 <=? c)%N l then Object
      else if forallb (fun c => two_63 <=? c)%N l then UInt64
      else Float64
  end.

(** The integer equal to the float64 nearest to [n]: [n] rounded to 53
    significant bits, ties to the even neighbour. *)
Definition round_float64 (n : N) : N :=
  let bits := N.size n in
  if (bits <=? 53)%N then n
  else
    let s := (bits - 53)%N in
    let q := N.shiftr n s in
    let r := N.land n (N.ones s) in
    let half := N.shiftl 1 (s - 1) in
    let q' := if (half <? r)%N || ((r =? half)%N && N.odd q)
              then (q + 1)%N else q in
    N.shiftl q' s.

(** An integer as an item of an array of the given dtype; an item of a
    float64 array is given by the integer it equals. *)
Definition np_int_item (dtype : np_dtype) (n : N) : N :=
  match dtype with
  | Float64 => round_float64 n
  | _ => n
  end.

(** The items of [np.array(l)] for a list of non-negative integers. *)
Definition np_array_int (l : list N) : list N :=
  map (np_int_item (np_int_dtype l)) l.

(** The items of [np.array(l)] for a list of strings. *)
Definition np_array_str (l : list string) : list string := map rstrip_nul l.

(** ** [caltable_to_dict] *)

(** One attempt of the pattern [data_re] at the start of [L]
    ([re.match]): a run of [\S], a run of [\s], a run of [\S], a run of
    [\s], a run of [\d], the bar, then any characters (groups 1 to 4 are
    the first and second [\S] runs, the digits and what follows the
    bar).  Each quantified class is followed by an item that no character
    of the class can start ([\S] by [\s], [\s] by [\S] or [\d], [\d] by
    [|]), so the only way to match takes every run in full; [.] stops at
    a newline. *)
Definition data_re_match (L : string)
  : option (string * string * string * string) :=
  let (g1, r1) := span is_nonspace L in
  let (w1, r2) := span is_space r1 in
  let (g2, r3) := span is_nonspace r2 in
  let (w2, r4) := span is_space r3 in
  let (g3, r5) := span is_digit r4 in
  if is_empty g1 || is_empty w1 || is_empty g2 || is_empty w2 || is_empty g3
  then None
  else match r5 with
       | String "|" r6 =>
           Some (g1, g2, g3, fst (span (fun c => negb (Ascii.eqb c newline)) r6))
       | _ => None
       end.

(** The numeric tokens of a data line: [rest.replace("F", empty).split()]. *)
Definition numeric_tokens (rest : string) : list string :=
  split_ws (remove_char "F" rest).

Section RecordParser.

(** The floating-point layer is a parameter: [F] is the type of Python
    floats, [C] of complex numbers; [pyfloat x] is [float(x)], [None] when
    it raises [ValueError]; [polar a p] is [a * exp(1j * deg2rad(p))]. *)
Variables F C : Type.
Variable pyfloat : string -> option F.
Variable polar : F -> F -> C.

(** [[float(x) for x in nums]] *)
Fixpoint floats (nums : list string) : result (list F) :=
  match nums with
  | [] => Ok []
  | x :: rest =>
      match pyfloat x with
      | Some v => vs <- floats rest ;; Ok (v :: vs)
      | None => Raise ValueError
      end
  end.

(** What the loop appends for one data line. *)
Record data_record : Type := {
  rec_time : string;
  rec_field : string;
  rec_channel : N;
  rec_amp : list (list F);       (* arr[:, :, 0], shape (nants, npol) *)
  rec_phs : list (list F)        (* arr[:, :, 1] *)
}.

(** The loop [for L in table]; [None] is the early [return None]. *)
Fixpoint parse_lines (nants npol : nat) (table : list string)
  : io (option (list data_record)) :=
  match table with
  | [] => io_ret (Some [])
  | L :: rest =>
      match data_re_match L with
      | None => parse_lines nants npol rest
      | Some (time, field, digits, tail) =>
          ch <~ lift (py_int digits) ;;
          let nums := numeric_tokens tail in
          let expected := nants * 2 * npol in
          if negb (length nums =? expected)%nat then
            _ <~ print (WarnExpected expected (length nums)) ;;
            io_ret None
          else
            values <~ lift (floats nums) ;;
            let arr := rows nants npol (unpair (firstn expected values)) in
            let r := {| rec_time := time; rec_field := field;
                        rec_channel := ch;
                        rec_amp := map (map fst) arr;
                        rec_phs := map (map snd) arr |} in
            more <~ parse_lines nants npol rest ;;
            io_ret (option_map (cons r) more)
      end
  end.

(** The returned dictionary.  The array under "channels" is given by its
    items and its dtype. *)
Record caldict : Type := {
  gains : list (list (list C));      (* [antenna][channel][polarization] *)
  antennas : list string;
  channels : list N;
  channel_dtype : np_dtype;
  polarizations : list string;
  times : list string;
  fields : list string
}.

(** [gains.reshape(nchans, nants, npol)] *)
Definition reshape3 (nchans nants npol : nat) (g : list (list (list C)))
  : result (list (list (list C))) :=
  let flat := concat (concat g) in
  if (length flat =? nchans * nants * npol)%nat
  then Ok (rows nchans nants (rows (nchans * nants) npol flat))
  else Raise ValueError.

(** [amp * np.exp(1j * np.deg2rad(phs))] on one block of shape
    [(nants, npol)], item by item. *)
Definition gain_block (amp phs : list (list F)) : list (list C) :=
  map (fun rw => map (fun x => polar (fst x) (snd x))
                     (combine (fst rw) (snd rw)))
      (combine amp phs).

(** Steps 3 and 4, after the loop. *)
Definition assemble (nants npol : nat) (antennas : list string)
  (recs : list data_record) : io caldict :=
  let times :=
    unique String.leb String.eqb (np_array_str (map rec_time recs)) in
  let fields :=
    unique String.leb String.eqb (np_array_str (map rec_field recs)) in
  _ <~ (if negb (length times * length fields =? 1)%nat
        then print WarnMultiple else io_ret tt) ;;
  let channel_list := map rec_channel recs in
  let channels := np_array_int channel_list in
  let nchans := length (unique N.leb N.eqb channels) in
  let sort_idx := argsort N.leb 0%N channels in
  let amp := gather [] (map rec_amp recs) sort_idx in
  let phs := gather [] (map rec_phs recs) sort_idx in
  let channels := gather 0%N channels sort_idx in
  let gains :=
    map (fun ap => gain_block (fst ap) (snd ap)) (combine amp phs) in
  gains <~ lift (reshape3 nchans nants npol gains) ;;
  io_ret {| gains := swapaxes01 nants gains;
            antennas := antennas;
            channels := channels;
            channel_dtype := np_int_dtype channel_list;
            polarizations := ["pol0"; "pol1"];
            times := times;
            fields := fields |}.

Definition caltable_to_dict (table : list string) (npol : nat)
  : io (option caldict) :=
  antennas <~ lift (get_antenna_names table) ;;
  let nants := length antennas in
  parsed <~ parse_lines nants npol table ;;
  match parsed with
  | None => io_ret None
  | Some recs =>
      d <~ assemble nants npol antennas recs ;;
      io_ret (Some d)
  end.

End RecordParser.

Arguments rec_time {F} _.
Arguments rec_field {F} _.
Arguments rec_channel {F} _.
Arguments rec_amp {F} _.
Arguments rec_phs {F} _.
Arguments gains {C} _.
Arguments antennas {C} _.
Arguments channels {C} _.
Arguments channel_dtype {C} _.
Arguments polarizations {C} _.
Arguments times {C} _.
Arguments fields {C} _.

(** ** [save_bandpass_hdf5] and the reads of the container *)

Definition is_ascii (c : ascii) : bool := (code c <? 128)%N.

(** The items of [np.array(l, dtype='S')]: each string is encoded with
    the ASCII codec, which refuses a character of code 128 or more with
    [UnicodeEncodeError]; the items are fixed-width byte strings padded
    with NUL, so that a string is read back without the NULs it ended
    with. *)
Definition np_array_bytes (l : list string) : result (list (list byte)) :=
  if forallb (string_forall is_ascii) l
  then Ok (map (fun s => list_byte_of_string (rstrip_nul s)) l)
  else Raise UnicodeEncodeError.

(** [b.decode()], the UTF-8 decoding of a byte string: an ASCII byte is
    the character of its code, and the two-byte sequences with lead
    byte 0xC2 or 0xC3 are the characters 128 to 255.  Every other byte
    raises [UnicodeDecodeError]: it is ill-formed, or it starts a
    character of code 256 or more, which the strings here do not hold. *)
Fixpoint decode (b : list byte) : result string :=
  match b with
  | [] => Ok EmptyString
  | x :: rest =>
      let n := Byte.to_N x in
      if (n <? 128)%N then
        s <- decode rest ;; Ok (String (ascii_of_byte x) s)
      else
        match rest with
        | y :: rest' =>
            let m := Byte.to_N y in
            if ((n =? 194) || (n =? 195))%N && ((128 <=? m) && (m <=? 191))%N
            then s <- decode rest' ;;
                 Ok (String (ascii_of_N ((n - 192) * 64 + (m - 128))) s)
            else Raise UnicodeDecodeError
        | [] => Raise UnicodeDecodeError
        end
  end.

(** [name.split('/')] without its empty items: the steps of a path
    inside a container. *)
Fixpoint split_path_from (cur s : string) : list string :=
  match s with
  | EmptyString => if is_empty cur then [] else [cur]
  | String c s' =>
      if Ascii.eqb c "/"
      then (if is_empty cur then split_path_from EmptyString s'
            else cur :: split_path_from EmptyString s')
      else split_path_from (cur ++ String c EmptyString) s'
  end.

Definition split_path (name : string) : list string :=
  split_path_from EmptyString name.

Section Persistence.
Variable C : Type.

(** Modelled from the spec: the persisted container of sections 4.6 and
    6, which the code reaches through the [h5py] library: a hierarchy of
    named groups holding typed arrays, namely arrays of fixed-width byte
    strings, arrays of numbers and the complex gain array.  A container
    is given by its objects under their absolute paths, in the order of
    their creation. *)
Inductive h5_object : Type :=
| H5Group
| H5Strings (items : list (list byte))
| H5Numbers (dtype : np_dtype) (items : list N)
| H5Complex (items : list (list (list C))).

Definition h5_path : Type := list string.

Definition h5_file : Type := list (h5_path * h5_object).

Definition h5_lookup (f : h5_file) (p : h5_path) : option h5_object :=
  option_map snd (find (fun e => list_eqb String.eqb (fst e) p) f).

(** An operation on an open container: the container it leaves, and how
    it ended. *)
Definition h5 (A : Type) : Type := h5_file -> h5_file * result A.

Definition h5_ret {A : Type} (a : A) : h5 A := fun f => (f, Ok a).

Definition h5_bind {A B : Type} (m : h5 A) (k : A -> h5 B) : h5 B :=
  fun f =>
    match m f with
    | (f', Ok a) => k a f'
    | (f', Raise e) => (f', Raise e)
    end.

Definition h5_lift {A : Type} (r : result A) : h5 A := fun f => (f, r).

(** The groups between [base] and an object to create that the
    container lacks; they are created with the object. *)
Fixpoint missing_groups (f : h5_file) (base : h5_path) (names : list string)
  : h5_file :=
  match names with
  | [] => []
  | n :: rest =>
      let p := base ++ [n] in
      match h5_lookup f p with
      | None => [(p, H5Group)]
      | Some _ => []
      end ++ missing_groups f p rest
  end.

(** Creation of an object named [name] under the group at [base]; a
    name already in use is refused with [ValueError]. *)
Definition h5_create (base : h5_path) (name : string) (o : h5_object)
  : h5 h5_path :=
  fun f =>
    let names := split_path name in
    let p := base ++ names in
    match h5_lookup f p with
    | Some _ => (f, Raise ValueError)
    | None =>
        (f ++ missing_groups f base (removelast names) ++ [(p, o)], Ok p)
    end.

(** [grp.create_group(name)] *)
Definition create_group (base : h5_path) (name : string) : h5 h5_path :=
  h5_create base name H5Group.

(** [grp.create_dataset(name, data=o)]; an array of Python objects has
    no type in the container and is refused with [TypeError]. *)
Definition create_dataset (base : h5_path) (name : string) (o : h5_object)
  : h5 h5_path :=
  match o with
  | H5Numbers Object _ => h5_lift (Raise TypeError)
  | _ => h5_create base name o
  end.

(** [grp[name]] *)
Definition h5_getitem (f : h5_file) (base : h5_path) (name : string)
  : result (h5_path * h5_object) :=
  let p := base ++ split_path name in
  match h5_lookup f p with
  | Some o => Ok (p, o)
  | None => Raise KeyError
  end.

(** [save_bandpass_hdf5(filename, caldict)]: the container left under
    [filename] (opened with mode "w", it starts empty and keeps what was
    written when an exception ends the [with] block), and what the
    function prints and how it ends. *)
Definition save_bandpass_hdf5 (filename : string) (caldict : caldict C)
  : h5_file * io unit :=
  let written :=
    h5_bind (create_group [] "CALIBRATION/BANDPASS") (fun grp =>
    h5_bind (h5_lift (np_array_bytes (antennas caldict))) (fun a =>
    h5_bind (create_dataset grp "ANTENNA" (H5Strings a)) (fun _ =>
    h5_bind (create_dataset grp "CHANNEL"
               (H5Numbers (channel_dtype caldict) (channels caldict)))
      (fun _ =>
    h5_bind (h5_lift (np_array_bytes (polarizations caldict))) (fun p =>
    h5_bind (create_dataset grp "POLARIZATION" (H5Strings p)) (fun _ =>
    h5_bind (h5_lift (np_array_bytes (times caldict))) (fun t =>
    h5_bind (create_dataset grp "TIME" (H5Strings t)) (fun _ =>
    h5_bind (h5_lift (np_array_bytes (fields caldict))) (fun fl =>
    h5_bind (create_dataset grp "FIELD" (H5Strings fl)) (fun _ =>
    h5_bind (create_group grp "GAIN") (fun ggrp =>
    create_dataset ggrp "CPARAM" (H5Complex (gains caldict)))))))))))))
  in
  match written [] with
  | (f, Ok _) => (f, (_ <~ print (Saved filename) ;; io_ret tt))
  | (f, Raise e) => (f, lift (Raise e))
  end.

(** [f['CALIBRATION/BANDPASS'][name]], the way [plot_cal_data] reaches
    the members of the container. *)
Definition bandpass_member (f : h5_file) (name : string) : result h5_object :=
  grp <- h5_getitem f [] "CALIBRATION/BANDPASS" ;;
  o <- h5_getitem f (fst grp) name ;;
  Ok (snd o).

(** [f['CALIBRATION/BANDPASS']['ANTENNA'][i].decode()] *)
Definition stored_antenna (f : h5_file) (i : Z) : result string :=
  o <- bandpass_member f "ANTENNA" ;;
  match o with
  | H5Strings items => b <- index items i ;; decode b
  | _ => Raise TypeError
  end.

End Persistence.

Arguments H5Group {C}.
Arguments H5Strings {C} items.
Arguments H5Numbers {C} dtype items.
Arguments H5Complex {C} items.

(** ** A symbolic floating-point layer, for running the parser

    A float is kept as the literal it was read from, a complex gain as
    the pair (amplitude, phase in degrees) it was built from.  The
    literals accepted are those of Python's [float]: an optional sign,
    then "inf", "infinity" or "nan" in any letter case, or a decimal
    number with an optional fraction and an optional exponent, where
    digits may be separated by single underscores; white space around
    the literal is ignored. *)
Module Symbolic.

Definition F : Type := string.
Definition C : Type := (string * string)%type.

(** After a digit: what follows the digits and underscored digits that
    continue it. *)
Fixpoint digits_tail (s : string) : string :=
  match s with
  | EmptyString => s
  | String c s' =>
      if is_digit c then digits_tail s'
      else if Ascii.eqb c "_" then
        match s' with
        | String d s'' => if is_digit d then digits_tail s'' else s
        | EmptyString => s
        end
      else s
  end.

(** What follows the run of digits at the start of [s], when [s] starts
    with a digit. *)
Definition digitpart (s : string) : option string :=
  match s with
  | String c s' => if is_digit c then Some (digits_tail s') else None
  | EmptyString => None
  end.

Definition skip_sign (s : string) : string :=
  match s with
  | String "+" t => t
  | String "-" t => t
  | _ => s
  end.

(** Digits with an optional point and fraction, or a point and a
    fraction. *)
Definition number (s : string) : option string :=
  match digitpart s with
  | Some r =>
      match r with
      | String "." r' =>
          match digitpart r' with
          | Some r'' => Some r''
          | None => Some r'
          end
      | _ => Some r
      end
  | None =>
      match s with
      | String "." r' => digitpart r'
      | _ => None
      end
  end.

(** An exponent, when [s] starts with the letter e. *)
Definition exponent (s : string) : option string :=
  match s with
  | String c r =>
      if Ascii.eqb c "e" || Ascii.eqb c "E" then digitpart (skip_sign r)
      else Some s
  | EmptyString => Some s
  end.

Definition lower (c : ascii) : ascii :=
  if in_range 65 90 c then ascii_of_N (code c + 32) else c.

Fixpoint lowercase (s : string) : string :=
  match s with
  | EmptyString => EmptyString
  | String c s' => String (lower c) (lowercase s')
  end.

Fixpoint rstrip_space (s : string) : string :=
  match s with
  | EmptyString => EmptyString
  | String c s' =>
      let r := rstrip_space s' in
      if is_space c && is_empty r then EmptyString else String c r
  end.

Definition float_literal (s : string) : bool :=
  let body := skip_sign (rstrip_space (snd (span is_space s))) in
  let word := lowercase body in
  String.eqb word "inf" || String.eqb word "infinity" || String.eqb word "nan"
  || match number body with
     | Some r => match exponent r with
                 | Some EmptyString => true
                 | _ => false
                 end
     | None => false
     end.

Definition pyfloat (s : string) : option F :=
  if float_literal s then Some s else None.

Definition polar (a p : F) : C := (a, p).

Definition caltable_to_dict := caltable_to_dict F C pyfloat polar.

End Symbolic.

(** ** Notions used to state the properties *)

(** The number of lines of a report that hold the block marker. *)
Definition marker_count (lines : list string) : nat :=
  length (filter (contains "SpwID") lines).

(** [l1] is [l2] with some items left out, the others in their order. *)
Inductive Subseq {A : Type} : list A -> list A -> Prop :=
| Subseq_nil : Subseq [] []
| Subseq_skip x l1 l2 : Subseq l1 l2 -> Subseq l1 (x :: l2)
| Subseq_keep x l1 l2 : Subseq l1 l2 -> Subseq (x :: l1) (x :: l2).

(** The table of the specification's sample scenario. *)
Definition sample_table : list string :=
  ["Ant = A0 Ant = A1"; "10:00:00 FieldX 0|1.0 0.0F2.0 90.0"].

(** A one-antenna table whose second data line lacks one value. *)
Definition short_line_table : list string :=
  ["Ant = A0"; "Time Field Chn|"; "10:00:00 FieldX 0| 1.0 0.0 2.0 90.0";
   "10:00:00 FieldX 1| 1.0 0.0 2.0"].

(** Two Sections of 4 and 5 rows. *)
Definition section_4_rows : list string :=
  ["|Ant = A0"; "Time|"; "---|"; "t f 0| 1 2"].

Definition section_5_rows : list string :=
  ["|Ant = A1"; "Time|"; "---|"; "t f 0| 5 6"; "t f 1| 7 8"].

(** A block whose second page repeats the header of the first. *)
Definition repeated_header_block : list string :=
  ["|Ant = A0"; "Time Field Chn|"; "----|----"; "t f 0| 1 2 3 4";
   "|Ant = A0"; "Time Field Chn|"; "----|----"; "t f 1| 5 6 7 8"].

(** The data lines of a table: the groups of each line the pattern
    matches, in the order of the lines. *)
Definition data_lines (table : list string)
  : list (string * string * string * string) :=
  flat_map (fun L => match data_re_match L with
                     | Some g => [g]
                     | None => []
                     end) table.

(** A data line converts: [int] accepts its channel digits and [float]
    every one of its numeric tokens. *)
Definition converts {F : Type} (pyfloat : string -> option F)
  (g : string * string * string * string) : Prop :=
  String.length (snd (fst g)) <= int_max_str_digits /\
  Forall (fun x => pyfloat x <> None) (numeric_tokens (snd g)).

(** The channel of each data line. *)
Definition table_channels (table : list string) : list N :=
  map (fun g => int_of_digits (snd (fst g))) (data_lines table).

(** The position of channel [c] among the channels in ascending order:
    the number of channels below it. *)
Definition rank (c : N) (chans : list N) : nat :=
  length (filter (fun x => (x <? c)%N) chans).

(** A table of two antennas and two channels, the higher channel first. *)
Definition two_channel_table : list string :=
  ["Ant = A0 Ant = A1"; "Time Field Chn|";
   "10:00:00 FieldX 1| 1.0 0.0F 2.0 90.0 3.0 4.0 5.0 6.0";
   "10:00:00 FieldX 0| 1.1 0.1 2.1 90.1 3.1 4.1 5.1 6.1"].

(** A one-antenna table with the channels 1, 2^63 and 2^63 + 1. *)
Definition wide_channel_table : list string :=
  ["Ant = A0"; "10:00:00 FieldX 1| 1.0 0.0 2.0 90.0";
   "10:00:00 FieldX 9223372036854775808| 1.1 0.1 2.1 90.1";
   "10:00:00 FieldX 9223372036854775809| 1.2 0.2 2.2 90.2"].

(** A report of two Solution Blocks; each block lists two antennas on two
    pages, and each page repeats its header before the second channel. *)
Definition two_page_block : list string :=
  map (fun s => (s ++ String newline EmptyString)%string)
    ["SpwID = 0"; "--------";
     "              | Ant = ea01"; "Time     Field Chn| Amp Phs Amp Phs";
     "---------|-----"; "10:00:00 F0 0| 1.0 0.0 1.5 0.5F";
     "              | Ant = ea01"; "Time     Field Chn| Amp Phs Amp Phs";
     "---------|-----"; "10:00:00 F0 1| 2.0 0.0 2.5 0.5";
     "              | Ant = ea02"; "Time     Field Chn| Amp Phs Amp Phs";
     "---------|-----"; "10:00:00 F0 0| 3.0 0.0 3.5 0.5";
     "              | Ant = ea02"; "Time     Field Chn| Amp Phs Amp Phs";
     "---------|-----"; "10:00:00 F0 1| 4.0 0.0 4.5 0.5"].

Definition two_block_report : list string := two_page_block ++ two_page_block.

(** A run of lines opened by a line that satisfies [f] and holding no
    other such line: the shape of a Solution Block for the block marker. *)
Definition opened_by (f : string -> bool) (block : list string) : Prop :=
  exists L rest, block = L :: rest /\ f L = true /\
                 Forall (fun x => f x = false) rest.

(** The number of lines of a block that hold the "Time" column marker. *)
Definition time_line_count (sol : list string) : nat :=
  length (filter (contains "Time") sol).

(** A header line written for a list of antenna names: each name after
    "Ant = " and followed by a blank. *)
Fixpoint antenna_header (names : list string) : string :=
  match names with
  | [] => EmptyString
  | n :: rest => ("Ant = " ++ n ++ " " ++ antenna_header rest)%string
  end.

(** [k] newline characters. *)
Fixpoint newlines (k : nat) : string :=
  match k with
  | O => EmptyString
  | S k' => String newline (newlines k')
  end.

(** The last character of [s] is a newline. *)
Fixpoint ends_with_newline (s : string) : bool :=
  match s with
  | EmptyString => false
  | String c EmptyString => Ascii.eqb c newline
  | String _ s' => ends_with_newline s'
  end.

(** The line read as header for a "Time" line at index [i]: the item 0
    of [sol[i-1:]], which is the line before, and the last line of the
    block when [i] is 0. *)
Definition header_line_for (sol : list string) (i : nat) : string :=
  nth (if (i =? 0)%nat then length sol - 1 else i - 1) sol EmptyString.

(** The antenna names read for each "Time" line of a block, in order. *)
Fixpoint time_headers_from (sol rest : list string) (i : nat)
  : list (list string) :=
  match rest with
  | [] => []
  | L :: rest' =>
      if contains "Time" L
      then findall_ant (header_line_for sol i) 0
           :: time_headers_from sol rest' (S i)
      else time_headers_from sol rest' (S i)
  end.

Definition time_headers (sol : list string) : list (list string) :=
  time_headers_from sol sol 0.

(** [s] holds no bar. *)
Definition bar_free (s : string) : bool :=
  string_forall (fun c => negb (Ascii.eqb c "|")) s.

(** [tail] is what follows the first bar of [M]. *)
Definition after_bar (M tail : string) : Prop :=
  exists pre, M = (pre ++ String "|" tail)%string /\ bar_free pre = true.

(** The strings of a list put end to end. *)
Definition join_strings (l : list string) : string :=
  fold_right String.append EmptyString l.

(** A one-antenna table with two data lines for channel 3. *)
Definition repeated_channel_table : list string :=
  ["Ant = A0"; "10:00:00 FieldX 3| 1.0 0.0 2.0 90.0";
   "10:00:00 FieldX 3| 1.1 0.1 2.1 90.1"].

(** A one-antenna table whose time token starts with the character of
    code 233, a letter outside ASCII. *)
Definition accented_time_table : list string :=
  ["Ant = A0";
   String (ascii_of_nat 233) "10:00 FieldX 0| 1.0 0.0 2.0 90.0"].

(** The container that sections 4.6 and 6 of the specification describe
    for a dataset: under the group /CALIBRATION/BANDPASS the antenna
    names, the polarization labels, the time and the field tokens as
    byte strings, the channels as numbers, and in the sub-group GAIN the
    complex gain array under the name CPARAM. *)
Definition bandpass_container {C : Type} (d : caldict C) : h5_file C :=
  let bandpass := ["CALIBRATION"; "BANDPASS"] in
  let bytes := fun l => map (fun s => list_byte_of_string (rstrip_nul s)) l in
  [ (["CALIBRATION"], H5Group);
    (bandpass, H5Group);
    (bandpass ++ ["ANTENNA"], H5Strings (bytes (antennas d)));
    (bandpass ++ ["CHANNEL"], H5Numbers (channel_dtype d) (channels d));
    (bandpass ++ ["POLARIZATION"], H5Strings (bytes ["pol0"; "pol1"]));
    (bandpass ++ ["TIME"], H5Strings (bytes (times d)));
    (bandpass ++ ["FIELD"], H5Strings (bytes (fields d)));
    (bandpass ++ ["GAIN"], H5Group);
    (bandpass ++ ["GAIN"; "CPARAM"], H5Complex (gains d)) ].

(** * Properties *)

(** ** Section Extractor *)

Lemma marker_indices_length marker lines i :
  length (marker_indices marker lines i)
  = length (filter (contains marker) lines).
Proof.
  revert i. induction lines as [|L rest IH]; intros i; simpl.
  - reflexivity.
  - destruct (contains marker L); simpl; rewrite IH; reflexivity.
Qed.

Lemma index_nil {A : Type} (i : Z) : index (@nil A) i = Raise IndexError.
Proof.
  unfold index. simpl.
  destruct (i <? 0)%Z eqn:Hi.
  - rewrite Z.add_0_r.
    destruct (0 <=? i)%Z eqn:H0; simpl; [|reflexivity].
    apply Z.ltb_lt in Hi. apply Z.leb_le in H0. lia.
  - destruct (0 <=? i)%Z; simpl; [|reflexivity].
    destruct (i <? 0)%Z; [discriminate|reflexivity].
Qed.

(** C3 (as the code has it).  A report without any line holding "SpwID"
    makes [extract_solutions] fail: the list of boundaries is empty and
    reading its item 0 raises [IndexError]; no list of blocks, empty or
    partial, is returned. *)
Theorem extract_solutions_no_marker (lines : list string) :
  marker_count lines = 0 ->
  extract_solutions lines = Raise IndexError.
Proof.
  intros H. unfold extract_solutions.
  assert (E : marker_indices "SpwID" lines 0 = []).
  { apply length_zero_iff_nil. rewrite marker_indices_length. exact H. }
  rewrite E. simpl. reflexivity.
Qed.

Lemma extract_solutions_no_marker_witness :
  marker_count ["Ant = A0"; "Time Field Chn|"] = 0 /\
  extract_solutions ["Ant = A0"; "Time Field Chn|"] = Raise IndexError.
Proof.
  split; [reflexivity | apply extract_solutions_no_marker; reflexivity].
Defined.

(** C3 as written fails: on a report without marker the exception is
    [IndexError], not [MalformedReportError]. *)
Lemma extract_solutions_not_malformed_error :
  marker_count ["Ant = A0"; "Time Field Chn|"] = 0 /\
  extract_solutions ["Ant = A0"; "Time Field Chn|"]
  <> Raise MalformedReportError.
Proof. split; [reflexivity | vm_compute; discriminate]. Qed.

(** ** Pipeline entry point *)

Lemma extract_solutions_one_marker lines :
  marker_count lines = 1 ->
  exists block, extract_solutions lines = Ok [block].
Proof.
  intros H. unfold extract_solutions.
  pose proof (marker_indices_length "SpwID" lines 0) as Hl.
  fold (marker_count lines) in Hl. rewrite H in Hl.
  destruct (marker_indices "SpwID" lines 0) as [|a [|b tl]] eqn:E;
    try discriminate.
  simpl. eexists. reflexivity.
Qed.

Lemma io_bind_lift_raise {A B : Type} (e : exn) (k : A -> io B) :
  io_bind (lift (Raise e)) k = ([], Raise e).
Proof. reflexivity. Qed.

(** C4 (the code at its failing inputs).  On every report with exactly
    one marker line [parse_bandpass_text] prints nothing and ends in
    [UnboundLocalError], whatever the recursion limit: [sol] is assigned
    only under [if len(solutions) > 1]. *)
Theorem parse_bandpass_text_one_marker (depth : nat) (lines : list string) :
  marker_count lines = 1 ->
  parse_bandpass_text depth lines = ([], Raise UnboundLocalError).
Proof.
  intros H. destruct (extract_solutions_one_marker lines H) as [block E].
  unfold parse_bandpass_text. rewrite E. reflexivity.
Qed.

Lemma parse_bandpass_text_one_marker_witness :
  marker_count ["SpwID = 0"; "|Ant = A0"; "Time Field Chn|"; "----|----";
                "10:00:00 F 0| 1.0 0.0 1.0 0.0"] = 1 /\
  parse_bandpass_text 1000 ["SpwID = 0"; "|Ant = A0"; "Time Field Chn|";
                            "----|----"; "10:00:00 F 0| 1.0 0.0 1.0 0.0"]
  = ([], Raise UnboundLocalError).
Proof.
  split; [reflexivity | apply parse_bandpass_text_one_marker; reflexivity].
Defined.

(** ** Section Joiner *)

Lemma first_char_not_sentinel M c :
  first_char M = Ok c -> String.eqb c sentinel = false.
Proof.
  destruct M as [|a M']; simpl; intros H; [discriminate|].
  injection H as <-. unfold sentinel. simpl.
  destruct (Ascii.eqb a "-"); reflexivity.
Qed.

Lemma join_sections_eq depth sections :
  join_sections depth sections
  = match sections with
    | [] => Raise IndexError
    | [s0] => Ok (slice_to s0 2 ++ slice_from s0 3)
    | s0 :: s1 :: rest =>
        table <- merge_rows s0 s1 ;;
        match depth with
        | O => Raise RecursionError
        | S d => join_sections d (table :: rest)
        end
    end.
Proof. destruct depth; reflexivity. Qed.

(** The source's recursion equation:
    [join_sections(sections) = join_sections([table] + sections[2:])],
    one call deeper. *)
Lemma join_sections_step depth s0 s1 rest table :
  merge_rows s0 s1 = Ok table ->
  join_sections (S depth) (s0 :: s1 :: rest)
  = join_sections depth (table :: rest).
Proof. intros H. rewrite join_sections_eq, H. reflexivity. Qed.

Lemma join_sections_single depth s0 :
  join_sections depth [s0] = Ok (slice_to s0 2 ++ slice_from s0 3).
Proof. rewrite join_sections_eq. reflexivity. Qed.

Lemma after_first_bar_ok : forall M tail,
  after_first "|" M = Ok tail <-> after_bar M tail.
Proof.
  unfold after_bar, bar_free.
  induction M as [|c M IH]; intros tail; simpl.
  - split; [discriminate|]. intros (pre & H & _).
    destruct pre; discriminate.
  - destruct (Ascii.eqb_spec c "|") as [->|Hc]; split.
    + intros H. injection H as ->. exists EmptyString.
      split; reflexivity.
    + intros (pre & H & Hp). destruct pre as [|d pre]; simpl in *.
      * injection H as ->. reflexivity.
      * injection H as <- _. simpl in Hp. discriminate.
    + intros H. apply IH in H. destruct H as (pre & -> & Hp).
      exists (String c pre). split; [reflexivity|]. simpl.
      rewrite Hp. apply Ascii.eqb_neq in Hc. rewrite Hc. reflexivity.
    + intros (pre & H & Hp). destruct pre as [|d pre]; simpl in *.
      * injection H as -> _. congruence.
      * injection H as _ ->. apply IH. exists pre. split; [reflexivity|].
        apply andb_true_iff in Hp. apply Hp.
Qed.

Lemma after_first_bar_raise : forall M,
  after_first "|" M = Raise IndexError <-> bar_free M = true.
Proof.
  unfold bar_free. induction M as [|c M IH]; simpl.
  - split; reflexivity.
  - destruct (Ascii.eqb c "|"); simpl; [split; discriminate | exact IH].
Qed.

Lemma merge_rows_spec s0 : forall s1 table,
  merge_rows s0 s1 = Ok table ->
  length table = Nat.min (length s0) (length s1) /\
  forall k L M, nth_error s0 k = Some L -> nth_error s1 k = Some M ->
    exists tail, after_first "|" M = Ok tail /\
                 nth_error table k = Some (L ++ tail)%string.
Proof.
  induction s0 as [|L0 s0 IH]; intros s1 table H.
  - simpl in H. injection H as <-. split; [reflexivity|].
    intros [|k] L M HL; discriminate.
  - destruct s1 as [|M0 s1].
    + simpl in H. injection H as <-. split; [reflexivity|].
      intros [|k] L M _ HM; discriminate.
    + simpl in H.
      destruct (first_char M0) as [c|e] eqn:Hc; simpl in H; [|discriminate].
      rewrite (first_char_not_sentinel _ _ Hc) in H.
      destruct (after_first "|" M0) as [tail|e] eqn:Ht; simpl in H;
        [|discriminate].
      destruct (merge_rows s0 s1) as [t|e] eqn:Hm; simpl in H; [|discriminate].
      injection H as <-.
      destruct (IH s1 t Hm) as [Hlen Hrows]. split.
      * simpl. rewrite Hlen. reflexivity.
      * intros [|k] L M HL HM; simpl in *.
        -- injection HL as <-. injection HM as <-.
           exists tail. split; [exact Ht | reflexivity].
        -- apply Hrows; assumption.
Qed.

Lemma merge_rows_total s0 : forall s1,
  (forall M, In M (firstn (length s0) s1) ->
     M <> EmptyString /\ exists tail, after_first "|" M = Ok tail) ->
  exists table, merge_rows s0 s1 = Ok table.
Proof.
  induction s0 as [|L0 s0 IH]; intros s1 H.
  - exists []. reflexivity.
  - destruct s1 as [|M0 s1].
    + exists []. reflexivity.
    + simpl in H.
      destruct (H M0 (or_introl eq_refl)) as [Hne [tail Ht]].
      destruct (IH s1) as [t Hm].
      { intros M HM. apply H. right. exact HM. }
      simpl. destruct M0 as [|c M0]; [congruence|].
      unfold first_char. cbn [bind].
      rewrite (first_char_not_sentinel (String c M0) _ eq_refl).
      rewrite Ht. cbn [bind]. rewrite Hm. cbn [bind].
      eexists. reflexivity.
Qed.

(** The only exception the joiner raises is [IndexError]. *)
Lemma merge_rows_raises s0 : forall s1 e,
  merge_rows s0 s1 = Raise e -> e = IndexError.
Proof.
  induction s0 as [|L0 s0 IH]; intros s1 e H.
  - discriminate.
  - destruct s1 as [|M0 s1]; [discriminate|]. simpl in H.
    destruct (first_char M0) as [c|e'] eqn:Hc; simpl in H.
    + rewrite (first_char_not_sentinel _ _ Hc) in H.
      destruct (after_first "|" M0) as [tail|e'] eqn:Ht; simpl in H.
      * destruct (merge_rows s0 s1) as [t|e'] eqn:Hm; simpl in H;
          [discriminate|].
        injection H as <-. eapply IH; eassumption.
      * injection H as <-. clear -Ht.
        induction M0 as [|c M0 IHM]; simpl in Ht.
        -- congruence.
        -- destruct (Ascii.eqb c "|"); [discriminate | auto].
    + destruct M0; simpl in Hc; congruence.
Qed.

(** The joiner raises [IndexError] or, out of depth, [RecursionError]. *)
Lemma join_sections_raises : forall depth sections e,
  join_sections depth sections = Raise e ->
  e = IndexError \/ e = RecursionError.
Proof.
  induction depth as [|d IH]; intros sections e H;
    rewrite join_sections_eq in H;
    destruct sections as [|s0 [|s1 rest]]; try discriminate;
    try (injection H as <-; left; reflexivity);
    (destruct (merge_rows s0 s1) as [t|e'] eqn:Hm; cbn [bind] in H;
     [|injection H as <-; left; eapply merge_rows_raises, Hm]).
  - injection H as <-. right. reflexivity.
  - eapply IH, H.
Qed.

(** With one nested call allowed per Section after the first, the
    recursion limit is not reached. *)
Lemma join_sections_enough : forall depth sections e,
  length sections <= S depth ->
  join_sections depth sections = Raise e -> e = IndexError.
Proof.
  induction depth as [|d IH]; intros sections e Hl H;
    rewrite join_sections_eq in H;
    destruct sections as [|s0 [|s1 rest]]; try discriminate;
    try (injection H as <-; reflexivity);
    (destruct (merge_rows s0 s1) as [t|e'] eqn:Hm; cbn [bind] in H;
     [|injection H as <-; eapply merge_rows_raises, Hm]).
  - simpl in Hl. lia.
  - eapply IH; [|exact H]. simpl in *. lia.
Qed.

(** C5 as written fails: the second Section's row 3 has the leading
    token "-nbsdfbkj", yet the joined table keeps that row, merged like
    the others. *)
Lemma join_sections_keeps_sentinel_row :
  hd EmptyString (split_ws "-nbsdfbkj | 5 6") = sentinel /\
  join_sections 1
    [["|Ant = A0"; "Time|"; "---|"; "t f 0| 1 2"; "t f 1| 3 4"];
     ["|Ant = A1"; "Time|"; "---|"; "-nbsdfbkj | 5 6"; "t f 1| 7 8"]]
  = Ok ["|Ant = A0Ant = A1"; "Time|"; "t f 0| 1 2 5 6"; "t f 1| 3 4 7 8"].
Proof. split; reflexivity. Qed.

(** C5 (as the code has it).  No row is ever skipped.  The test made on
    a row of the second Section compares the one character [M[0]] with
    the nine-character sentinel and holds for no line; so whenever two
    Sections are merged, the merged table has one row for every pair of
    corresponding lines, whatever the leading token of the second line,
    and that row is the first line followed by what comes after the
    first bar of the second.  The join goes on with the merged table. *)
Theorem join_sections_never_skips_row (s0 s1 table : list string) :
  merge_rows s0 s1 = Ok table ->
  (forall M c, first_char M = Ok c -> String.eqb c sentinel = false) /\
  length table = Nat.min (length s0) (length s1) /\
  (forall k L M, nth_error s0 k = Some L -> nth_error s1 k = Some M ->
     exists tail, after_bar M tail /\
                  nth_error table k = Some (L ++ tail)%string) /\
  forall depth rest,
    join_sections (S depth) (s0 :: s1 :: rest)
    = join_sections depth (table :: rest).
Proof.
  intros Hm. destruct (merge_rows_spec s0 s1 table Hm) as [Hlen Hrows].
  split; [apply first_char_not_sentinel|]. split; [exact Hlen|]. split.
  - intros k L M HL HM. destruct (Hrows k L M HL HM) as (tail & Ht & Hk).
    exists tail. split; [apply after_first_bar_ok, Ht | exact Hk].
  - intros depth rest. apply join_sections_step, Hm.
Qed.

Lemma join_sections_never_skips_row_witness :
  merge_rows ["t f 0| 1 2"; "t f 1| 3 4"] ["-nbsdfbkj | 5 6"; "t f 1| 7 8"]
  = Ok ["t f 0| 1 2 5 6"; "t f 1| 3 4 7 8"] /\
  length ["t f 0| 1 2 5 6"; "t f 1| 3 4 7 8"]
  = Nat.min (length ["t f 0| 1 2"; "t f 1| 3 4"])
            (length ["-nbsdfbkj | 5 6"; "t f 1| 7 8"]).
Proof.
  split; [reflexivity|].
  exact (proj1 (proj2 (join_sections_never_skips_row
                         ["t f 0| 1 2"; "t f 1| 3 4"]
                         ["-nbsdfbkj | 5 6"; "t f 1| 7 8"] _ eq_refl))).
Defined.

(** C6 as written fails: Sections of 4 and 5 rows are joined without any
    error, the fifth row of the longer one being dropped. *)
Lemma join_sections_row_count_mismatch_accepted :
  length section_4_rows <> length section_5_rows /\
  join_sections 1 [section_4_rows; section_5_rows]
  = Ok ["|Ant = A0Ant = A1"; "Time|"; "t f 0| 1 2 5 6"].
Proof. split; [discriminate | reflexivity]. Qed.

(** C6 (as the code has it).  Two Sections are merged row by row up to
    the length of the shorter one, whatever their row counts: when each
    paired line of the second Section is non-empty and holds a bar, the
    merged table has [min] of the two row counts, row [k] is the first
    Section's row [k] followed by what comes after the first bar of the
    second Section's row [k], and the join goes on with that table, one
    call deeper (with no nested call left it ends in [RecursionError]).
    No input makes the joiner raise [SectionAlignmentError]: whatever the
    Sections and the recursion limit, the exceptions it raises are
    [IndexError] and [RecursionError]. *)
Theorem join_sections_pairs_up_to_shorter (s0 s1 : list string)
  (rest : list (list string)) :
  (forall M, In M (firstn (length s0) s1) ->
     M <> EmptyString /\ exists tail, after_first "|" M = Ok tail) ->
  (exists table,
     merge_rows s0 s1 = Ok table /\
     length table = Nat.min (length s0) (length s1) /\
     (forall k L M, nth_error s0 k = Some L -> nth_error s1 k = Some M ->
        exists tail, after_first "|" M = Ok tail /\
                     nth_error table k = Some (L ++ tail)%string) /\
     (forall depth, join_sections (S depth) (s0 :: s1 :: rest)
                    = join_sections depth (table :: rest)) /\
     join_sections 0 (s0 :: s1 :: rest) = Raise RecursionError) /\
  (forall depth sections e,
     join_sections depth sections = Raise e ->
     e = IndexError \/ e = RecursionError).
Proof.
  intros H. split.
  - destruct (merge_rows_total s0 s1 H) as [table Hm].
    destruct (merge_rows_spec s0 s1 table Hm) as [Hlen Hrows].
    exists table. split; [exact Hm|]. split; [exact Hlen|].
    split; [exact Hrows|]. split.
    + intros depth. apply join_sections_step, Hm.
    + rewrite join_sections_eq, Hm. reflexivity.
  - apply join_sections_raises.
Qed.

Lemma join_sections_pairs_up_to_shorter_witness :
  (exists table,
     merge_rows section_4_rows section_5_rows = Ok table /\
     length table
     = Nat.min (length section_4_rows) (length section_5_rows) /\
     (forall k L M, nth_error section_4_rows k = Some L ->
        nth_error section_5_rows k = Some M ->
        exists tail, after_first "|" M = Ok tail /\
                     nth_error table k = Some (L ++ tail)%string) /\
     (forall depth, join_sections (S depth) [section_4_rows; section_5_rows]
                    = join_sections depth [table]) /\
     join_sections 0 [section_4_rows; section_5_rows]
     = Raise RecursionError) /\
  (forall depth sections e,
     join_sections depth sections = Raise e ->
     e = IndexError \/ e = RecursionError).
Proof.
  apply (join_sections_pairs_up_to_shorter section_4_rows section_5_rows []).
  intros M HM. simpl in HM.
  destruct HM as [<-|[<-|[<-|[<-|[]]]]];
    (split; [discriminate | eexists; reflexivity]).
Defined.

(** ** Record Parser: the sample scenario and the value-count check *)

Lemma py_int_cases digits :
  (String.length digits <= int_max_str_digits /\
   py_int digits = Ok (int_of_digits digits)) \/
  (int_max_str_digits < String.length digits /\
   py_int digits = Raise ValueError).
Proof.
  unfold py_int.
  destruct (Nat.ltb_spec int_max_str_digits (String.length digits));
    [right | left]; (split; [assumption | reflexivity]).
Qed.

Lemma data_lines_cons L rest :
  data_lines (L :: rest)
  = match data_re_match L with
    | Some g => g :: data_lines rest
    | None => data_lines rest
    end.
Proof. unfold data_lines. simpl. destruct (data_re_match L); reflexivity. Qed.

(** The first data line of a table with the wrong number of values. *)
Lemma first_mismatch expected : forall table L g,
  In L table -> data_re_match L = Some g ->
  length (numeric_tokens (snd g)) <> expected ->
  exists pre L1 post g1,
    table = pre ++ L1 :: post /\
    Forall (fun g => length (numeric_tokens (snd g)) = expected)
           (data_lines pre) /\
    data_re_match L1 = Some g1 /\
    length (numeric_tokens (snd g1)) <> expected.
Proof.
  induction table as [|P rest IH]; intros L g HIn Hm Hne; [contradiction|].
  destruct (data_re_match P) as [gP|] eqn:HP.
  - destruct (Nat.eq_dec (length (numeric_tokens (snd gP))) expected)
      as [He|He].
    + assert (HIn' : In L rest).
      { destruct HIn as [->|HIn]; [|exact HIn]. exfalso.
        rewrite HP in Hm. injection Hm as <-. contradiction. }
      destruct (IH L g HIn' Hm Hne) as (pre & L1 & post & g1 & -> & H1 & H2).
      exists (P :: pre), L1, post, g1. split; [reflexivity|].
      split; [|exact H2]. rewrite data_lines_cons, HP.
      constructor; assumption.
    + exists [], P, rest, gP. split; [reflexivity|].
      split; [constructor|]. split; assumption.
  - assert (HIn' : In L rest).
    { destruct HIn as [->|HIn]; [congruence | exact HIn]. }
    destruct (IH L g HIn' Hm Hne) as (pre & L1 & post & g1 & -> & H1 & H2).
    exists (P :: pre), L1, post, g1. split; [reflexivity|].
    split; [|exact H2]. rewrite data_lines_cons, HP. exact H1.
Qed.

Section RecordParserFacts.
Variables F C : Type.
Variable pyfloat : string -> option F.
Variable polar : F -> F -> C.

Local Abbreviation parse := (parse_lines F pyfloat).
Local Abbreviation to_dict := (caltable_to_dict F C pyfloat polar).

Lemma parse_lines_skip nants npol L rest :
  data_re_match L = None ->
  parse nants npol (L :: rest) = parse nants npol rest.
Proof. intros H. simpl. rewrite H. reflexivity. Qed.

(** One turn of the loop on a data line. *)
Lemma parse_lines_data_line nants npol L rest time field digits tail :
  data_re_match L = Some (time, field, digits, tail) ->
  parse nants npol (L :: rest)
  = match py_int digits with
    | Raise e => ([], Raise e)
    | Ok ch =>
        if (length (numeric_tokens tail) =? nants * 2 * npol)%nat then
          match floats F pyfloat (numeric_tokens tail) with
          | Raise e => ([], Raise e)
          | Ok values =>
              let arr := rows nants npol
                           (unpair (firstn (nants * 2 * npol) values)) in
              let r := {| rec_time := time; rec_field := field;
                          rec_channel := ch;
                          rec_amp := map (map fst) arr;
                          rec_phs := map (map snd) arr |} in
              match parse nants npol rest with
              | (w, Ok more) => (w, Ok (option_map (cons r) more))
              | (w, Raise e) => (w, Raise e)
              end
          end
        else ([WarnExpected (nants * 2 * npol)
                 (length (numeric_tokens tail))], Ok None)
    end.
Proof.
  intros H. cbn [parse_lines]. rewrite H.
  destruct (py_int digits) as [ch|e]; [|reflexivity].
  cbn [lift io_bind].
  destruct (length (numeric_tokens tail) =? nants * 2 * npol)%nat;
    [|reflexivity].
  cbn [negb]. destruct (floats F pyfloat (numeric_tokens tail)) as [vs|e];
    [|reflexivity].
  cbn [lift io_bind].
  destruct (parse nants npol rest) as [w [more|e]]; cbn [io_bind io_ret];
    rewrite ?app_nil_r; reflexivity.
Qed.

Lemma caltable_to_dict_eq table npol names :
  get_antenna_names table = Ok names ->
  to_dict table npol
  = match parse (length names) npol table with
    | (w, Ok (Some recs)) =>
        match assemble F C polar (length names) npol names recs with
        | (w', Ok d) => (w ++ w', Ok (Some d))
        | (w', Raise e) => (w ++ w', Raise e)
        end
    | (w, Ok None) => (w, Ok None)
    | (w, Raise e) => (w, Raise e)
    end.
Proof.
  intros Hn. unfold caltable_to_dict. rewrite Hn. cbn [lift io_bind].
  destruct (parse (length names) npol table) as [w [[recs|]|e]];
    cbn [io_bind io_ret]; rewrite ?app_nil_r; try reflexivity.
  destruct (assemble F C polar (length names) npol names recs)
    as [w' [d|e]]; cbn [io_bind io_ret]; rewrite ?app_nil_r; reflexivity.
Qed.

Lemma floats_accepted nums :
  (forall x, In x nums -> pyfloat x <> None) ->
  exists vs, floats F pyfloat nums = Ok vs.
Proof.
  induction nums as [|x xs IH]; intros H; simpl.
  - eexists. reflexivity.
  - destruct (pyfloat x) eqn:Hx.
    + destruct IH as [vs ->]; [intros y Hy; apply H; right; exact Hy|].
      eexists. reflexivity.
    + exfalso. apply (H x); [left; reflexivity | exact Hx].
Qed.

Lemma floats_raises : forall nums e,
  floats F pyfloat nums = Raise e -> e = ValueError.
Proof.
  induction nums as [|x xs IH]; intros e H; simpl in H; [discriminate|].
  destruct (pyfloat x); [|congruence].
  destruct (floats F pyfloat xs) as [vs|e'] eqn:E; simpl in H;
    [discriminate|].
  injection H as <-. apply IH. reflexivity.
Qed.

Lemma floats_ok_forall : forall nums vs,
  floats F pyfloat nums = Ok vs -> Forall (fun x => pyfloat x <> None) nums.
Proof.
  induction nums as [|x xs IH]; intros vs H; simpl in H; constructor.
  - destruct (pyfloat x); [discriminate | discriminate].
  - destruct (pyfloat x); [|discriminate].
    destruct (floats F pyfloat xs) as [vs'|e] eqn:E; simpl in H;
      [|discriminate].
    eapply IH. reflexivity.
Qed.

(** How the loop ends when some data line has the wrong number of
    values, [L] being the first such line: with the warning and
    [return None] at [L] when every data line before it converts and
    [int] accepts the channel of [L], and in the [ValueError] of [int]
    or [float] otherwise. *)
Lemma parse_lines_first_mismatch nants npol L post time field ch tail :
  data_re_match L = Some (time, field, ch, tail) ->
  length (numeric_tokens tail) <> nants * 2 * npol ->
  forall pre,
  Forall (fun g => length (numeric_tokens (snd g)) = nants * 2 * npol)
         (data_lines pre) ->
  (Forall (converts pyfloat) (data_lines pre) /\
   String.length ch <= int_max_str_digits ->
   parse nants npol (pre ++ L :: post)
   = ([WarnExpected (nants * 2 * npol) (length (numeric_tokens tail))],
      Ok None)) /\
  (Exists (fun g => ~ converts pyfloat g) (data_lines pre) \/
   int_max_str_digits < String.length ch ->
   parse nants npol (pre ++ L :: post) = ([], Raise ValueError)).
Proof.
  intros Hm Hne. induction pre as [|P pre IH]; intros Hcount.
  - cbn [app]. rewrite (parse_lines_data_line _ _ _ _ _ _ _ _ Hm).
    apply Nat.eqb_neq in Hne. rewrite Hne.
    destruct (py_int_cases ch) as [[Hl ->]|[Hl ->]]; split.
    + intros _. reflexivity.
    + intros [Hex|Hlt]; [inversion Hex | lia].
    + intros [_ Hle]. lia.
    + intros _. reflexivity.
  - cbn [app]. rewrite data_lines_cons in *.
    destruct (data_re_match P) as [[[[t f] c] tl]|] eqn:HP.
    + inversion Hcount as [|? ? Hc Hrest]; subst. cbn [snd] in Hc.
      destruct (IH Hrest) as [IH1 IH2].
      rewrite (parse_lines_data_line _ _ _ _ _ _ _ _ HP).
      rewrite (proj2 (Nat.eqb_eq _ _) Hc).
      destruct (py_int_cases c) as [[Hl ->]|[Hl ->]].
      * destruct (floats F pyfloat (numeric_tokens tl)) as [vs|e] eqn:Hf.
        -- split.
           ++ intros [Hall Hle]. inversion Hall; subst.
              rewrite IH1 by (split; assumption). reflexivity.
           ++ intros Hex. rewrite IH2; [reflexivity|].
              destruct Hex as [Hex|Hlt]; [|right; exact Hlt].
              inversion Hex as [? ? Hg|? ? Hl']; subst;
                [|left; exact Hl'].
              exfalso. apply Hg. split; [exact Hl|].
              eapply floats_ok_forall, Hf.
        -- rewrite (floats_raises _ _ Hf). split; [|reflexivity].
           intros [Hall _]. inversion Hall as [|? ? [_ Hg] _]; subst.
           cbn [snd] in Hg. rewrite Forall_forall in Hg.
           destruct (floats_accepted _ Hg) as [vs Hvs]. congruence.
      * split; [|reflexivity].
        intros [Hall _]. inversion Hall as [|? ? [Hg _] _]; subst.
        cbn [fst snd] in Hg. lia.
    + rewrite parse_lines_skip by exact HP. apply IH, Hcount.
Qed.

(** The loop never runs to its end on such a table. *)
Lemma parse_lines_mismatch_no_records nants npol L post time field ch tail :
  data_re_match L = Some (time, field, ch, tail) ->
  length (numeric_tokens tail) <> nants * 2 * npol ->
  forall pre w recs,
    parse nants npol (pre ++ L :: post) <> (w, Ok (Some recs)).
Proof.
  intros Hm Hne. apply Nat.eqb_neq in Hne.
  induction pre as [|P pre IH]; intros w recs; cbn [app].
  - rewrite (parse_lines_data_line _ _ _ _ _ _ _ _ Hm), Hne.
    destruct (py_int ch); discriminate.
  - destruct (data_re_match P) as [[[[t f] c] tl]|] eqn:HP.
    + rewrite (parse_lines_data_line _ _ _ _ _ _ _ _ HP).
      destruct (py_int c); [|discriminate].
      destruct (length (numeric_tokens tl) =? nants * 2 * npol)%nat;
        [|discriminate].
      destruct (floats F pyfloat (numeric_tokens tl)); [|discriminate].
      destruct (parse nants npol (pre ++ L :: post)) as [w' [[r'|]|e]] eqn:E;
        try discriminate.
      exfalso. apply (IH w' r'). reflexivity.
    + rewrite parse_lines_skip by exact HP. apply IH.
Qed.

(** C1 (as the code has it).  On the sample table the antenna names are
    A0 and A1 and the data line matches with channel 0, but deleting the
    flag character fuses "0.0F2.0" into the single token "0.02.0": three
    tokens are left where 2 antennas * 2 * 2 polarizations = 8 are
    expected, so the parser prints its warning and returns [None],
    whatever the floating-point layer. *)
Theorem sample_scenario_returns_none :
  get_antenna_names sample_table = Ok ["A0"; "A1"] /\
  data_re_match "10:00:00 FieldX 0|1.0 0.0F2.0 90.0"
  = Some ("10:00:00", "FieldX", "0", "1.0 0.0F2.0 90.0") /\
  numeric_tokens "1.0 0.0F2.0 90.0" = ["1.0"; "0.02.0"; "90.0"] /\
  to_dict sample_table 2 = ([WarnExpected 8 3], Ok None).
Proof. repeat split. Qed.

(** C2 (as the code has it).  When a data line of the table has a
    number of values other than [nants * 2 * npol], the parser never
    returns a dataset and never skips the line.  It stops at the first
    such line [L1]: when every data line before [L1] converts and [int]
    accepts the channel digits of [L1], it prints the warning with the
    number of values of [L1] and returns [None]; when a data line before
    [L1] does not convert, or [int] refuses the channel digits of [L1]
    (read before the values are counted), it ends in [ValueError] and
    prints nothing. *)
Theorem value_count_mismatch_returns_none
  (table : list string) (npol : nat) (names : list string)
  (L time field ch tail : string) :
  get_antenna_names table = Ok names ->
  In L table ->
  data_re_match L = Some (time, field, ch, tail) ->
  length (numeric_tokens tail) <> length names * 2 * npol ->
  exists pre L1 post g1,
    table = pre ++ L1 :: post /\
    Forall (fun g => length (numeric_tokens (snd g)) = length names * 2 * npol)
           (data_lines pre) /\
    data_re_match L1 = Some g1 /\
    length (numeric_tokens (snd g1)) <> length names * 2 * npol /\
    (Forall (converts pyfloat) (data_lines pre) /\
     String.length (snd (fst g1)) <= int_max_str_digits ->
     to_dict table npol
     = ([WarnExpected (length names * 2 * npol)
           (length (numeric_tokens (snd g1)))], Ok None)) /\
    (Exists (fun g => ~ converts pyfloat g) (data_lines pre) \/
     int_max_str_digits < String.length (snd (fst g1)) ->
     to_dict table npol = ([], Raise ValueError)) /\
    (forall w d, to_dict table npol <> (w, Ok (Some d))).
Proof.
  intros Hn HIn Hm Hne.
  destruct (first_mismatch (length names * 2 * npol) table L _ HIn Hm Hne)
    as (pre & L1 & post & [[[t1 f1] c1] tl1] & -> & Hpre & Hm1 & Hne1).
  exists pre, L1, post, (t1, f1, c1, tl1).
  split; [reflexivity|]. split; [exact Hpre|]. split; [exact Hm1|].
  split; [exact Hne1|]. cbn [fst snd] in *.
  destruct (parse_lines_first_mismatch (length names) npol L1 post
              t1 f1 c1 tl1 Hm1 Hne1 pre Hpre) as [P1 P2].
  rewrite (caltable_to_dict_eq _ npol names Hn).
  split; [intros H; rewrite (P1 H); reflexivity|].
  split; [intros H; rewrite (P2 H); reflexivity|].
  intros w d.
  pose proof (parse_lines_mismatch_no_records (length names) npol L1 post
                t1 f1 c1 tl1 Hm1 Hne1 pre) as Hno.
  destruct (parse (length names) npol (pre ++ L1 :: post))
    as [w1 [[recs|]|e]]; try discriminate.
  exfalso. apply (Hno w1 recs). reflexivity.
Qed.

End RecordParserFacts.

(** C1 as written fails: no floating-point layer makes the parse of the
    sample table succeed. *)
Lemma sample_scenario_not_parsed :
  ~ (exists (F C : Type) (pyfloat : string -> option F)
            (polar : F -> F -> C) (d : caldict C),
       snd (caltable_to_dict F C pyfloat polar sample_table 2) = Ok (Some d)).
Proof.
  intros (F & C & pyfloat & polar & d & H). vm_compute in H. discriminate.
Qed.

(** C2 as written fails: the table whose last data line lacks one value
    makes the parser return [None], a value; nothing is raised, whatever
    the floating-point layer. *)
Lemma value_count_mismatch_not_raised :
  length (numeric_tokens " 1.0 0.0 2.0") <> 1 * 2 * 2 /\
  ~ (exists (e : exn),
       snd (Symbolic.caltable_to_dict short_line_table 2) = Raise e).
Proof.
  split; [vm_compute; discriminate|].
  intros (e & H). vm_compute in H. discriminate.
Qed.

Lemma value_count_mismatch_returns_none_witness :
  get_antenna_names short_line_table = Ok ["A0"] /\
  In "10:00:00 FieldX 1| 1.0 0.0 2.0" short_line_table /\
  length (numeric_tokens " 1.0 0.0 2.0") <> 1 * 2 * 2 /\
  forall w d, Symbolic.caltable_to_dict short_line_table 2
              <> (w, Ok (Some d)).
Proof.
  assert (Hn : get_antenna_names short_line_table = Ok ["A0"])
    by reflexivity.
  assert (HIn : In "10:00:00 FieldX 1| 1.0 0.0 2.0" short_line_table)
    by (simpl; tauto).
  assert (Hne : length (numeric_tokens " 1.0 0.0 2.0") <> 1 * 2 * 2)
    by (vm_compute; discriminate).
  split; [exact Hn|]. split; [exact HIn|]. split; [exact Hne|].
  destruct (value_count_mismatch_returns_none
              Symbolic.F Symbolic.C Symbolic.pyfloat Symbolic.polar
              short_line_table 2 ["A0"] _ "10:00:00" "FieldX" "1"
              " 1.0 0.0 2.0" Hn HIn eq_refl Hne)
    as (pre & L1 & post & g1 & _ & _ & _ & _ & _ & _ & H).
  exact H.
Defined.

(** ** Header Deduplicator *)

Lemma index_0_cons {A : Type} (x : A) (l : list A) : index (x :: l) 0 = Ok x.
Proof. reflexivity. Qed.

Lemma slice_bound_nonneg len (i : nat) :
  slice_bound len (Z.of_nat i) = Nat.min len i.
Proof.
  unfold slice_bound.
  destruct (Z.of_nat i <? 0)%Z eqn:H.
  - apply Z.ltb_lt in H. lia.
  - rewrite Nat2Z.id. reflexivity.
Qed.

Lemma slice_bound_pred len (i : nat) :
  i < len -> slice_bound len (Z.of_nat i - 1) = Nat.pred (if (i =? 0)%nat then len else i).
Proof.
  intros Hi. unfold slice_bound.
  destruct (Z.of_nat i - 1 <? 0)%Z eqn:H.
  - apply Z.ltb_lt in H. destruct (Nat.eqb_spec i 0); lia.
  - apply Z.ltb_ge in H. destruct (Nat.eqb_spec i 0); lia.
Qed.

(** The header line read at a "Time" line always exists:
    [sol[i-1:]] is not empty for [i] within the block. *)
Lemma header_names_defined sol (i : nat) :
  i < length sol ->
  exists h, get_antenna_names (slice_from sol (Z.of_nat i - 1)) = Ok h.
Proof.
  intros Hi. unfold get_antenna_names, slice_from.
  rewrite (slice_bound_pred _ _ Hi).
  remember (Nat.pred (if (i =? 0)%nat then length sol else i)) as k eqn:Hk.
  assert (Hlt : k < length sol) by (destruct (Nat.eqb_spec i 0); lia).
  destruct (skipn k sol) as [|x tl] eqn:E.
  - exfalso. apply (f_equal (@length _)) in E. rewrite length_skipn in E.
    simpl in E. lia.
  - rewrite index_0_cons. simpl. eexists. reflexivity.
Qed.

Lemma scan_headers_defined sol : forall rest (i : nat) last,
  skipn i sol = rest ->
  exists found, scan_headers sol rest (Z.of_nat i) last = Ok found.
Proof.
  induction rest as [|L rest IH]; intros i last Hs; simpl.
  - eexists. reflexivity.
  - assert (Hi : i < length sol).
    { apply (f_equal (@length _)) in Hs. rewrite length_skipn in Hs.
      simpl in Hs. lia. }
    assert (Hs' : skipn (S i) sol = rest).
    { replace (S i) with (1 + i) by lia. rewrite <- skipn_skipn, Hs.
      reflexivity. }
    replace (Z.of_nat i + 1)%Z with (Z.of_nat (S i)) by lia.
    destruct (contains "Time" L).
    + destruct (header_names_defined sol i Hi) as [h ->]. cbn [bind].
      destruct (is_duplicate last h); [eexists; reflexivity | apply IH, Hs'].
    + apply IH, Hs'.
Qed.

(** Where the excision can fire: within the lines scanned, and not at the
    first "Time" line when no header has been seen yet. *)
Lemma scan_headers_bounds sol : forall rest i0 last i,
  scan_headers sol rest i0 last = Ok (Some i) ->
  (i0 <= i < i0 + Z.of_nat (length rest))%Z /\ (last = None -> (i0 < i)%Z).
Proof.
  induction rest as [|L rest IH]; intros i0 last i H; simpl in H.
  - discriminate.
  - simpl length. destruct (contains "Time" L).
    + destruct (get_antenna_names (slice_from sol (i0 - 1))) as [h|e];
        simpl in H; [|discriminate].
      destruct (is_duplicate last h) eqn:Hd.
      * injection H as <-. split; [lia|].
        intros ->. discriminate.
      * destruct (IH _ _ _ H) as [Hb _]. split; [lia|]. intros _. lia.
    + destruct (IH _ _ _ H) as [Hb Hn]. split; [lia|].
      intros Hl. specialize (Hn Hl). lia.
Qed.

(** A scan that meets no duplicate when started with a header meets none
    when started without. *)
Lemma scan_headers_none_weaken sol : forall rest i0 last,
  scan_headers sol rest i0 last = Ok None ->
  scan_headers sol rest i0 None = Ok None.
Proof.
  induction rest as [|L rest IH]; intros i0 last H; simpl in *.
  - reflexivity.
  - destruct (contains "Time" L).
    + destruct (get_antenna_names (slice_from sol (i0 - 1))) as [h|e];
        simpl in *; [|discriminate].
      destruct (is_duplicate last h); [discriminate|exact H].
    + eapply IH, H.
Qed.

Lemma remove_duplicate_heders_depth_eq depth sol last :
  remove_duplicate_heders depth sol last
  = (found <- scan_headers sol sol 0 last ;;
     match found with
     | None => Ok sol
     | Some i =>
         match depth with
         | O => Raise RecursionError
         | S d => remove_duplicate_heders d (excise sol i) None
         end
     end).
Proof. destruct depth; reflexivity. Qed.

Lemma excise_inner sol (i : nat) :
  1 <= i < length sol ->
  excise sol (Z.of_nat i) = firstn (i - 1) sol ++ skipn (i + 2) sol.
Proof.
  intros Hi. unfold excise, slice_to, slice_from.
  rewrite slice_bound_pred by lia.
  replace (Z.of_nat i + 2)%Z with (Z.of_nat (i + 2)) by lia.
  rewrite slice_bound_nonneg.
  destruct (Nat.eqb_spec i 0); [lia|].
  replace (Nat.pred i) with (i - 1) by lia.
  f_equal.
  destruct (Nat.le_gt_cases (length sol) (i + 2)) as [Hl|Hl].
  - rewrite Nat.min_l by exact Hl.
    rewrite !skipn_all2 by lia. reflexivity.
  - rewrite Nat.min_r by lia. reflexivity.
Qed.

Lemma excise_inner_length sol (i : nat) :
  1 <= i < length sol ->
  length (excise sol (Z.of_nat i))
  = length sol - Nat.min 3 (length sol - (i - 1)).
Proof.
  intros Hi. rewrite excise_inner by exact Hi.
  rewrite length_app, length_firstn, length_skipn. lia.
Qed.

Lemma excise_length_le sol (i : nat) :
  i < length sol -> length (excise sol (Z.of_nat i)) <= 2 * length sol.
Proof.
  intros Hi. unfold excise, slice_to, slice_from.
  rewrite length_app, length_firstn, length_skipn. lia.
Qed.

(** Depth [length sol] is enough for a call without [last_header]: each
    excision then removes at least two lines. *)
Lemma remove_duplicate_heders_depth_enough : forall depth sol,
  length sol <= depth ->
  exists r, remove_duplicate_heders depth sol None = Ok r.
Proof.
  induction depth as [|d IH]; intros sol Hl;
    rewrite remove_duplicate_heders_depth_eq;
    destruct (scan_headers_defined sol sol 0 None eq_refl) as [found Hf];
    simpl in Hf; rewrite Hf; simpl;
    (destruct found as [i|]; [|eexists; reflexivity]);
    destruct (scan_headers_bounds _ _ _ _ _ Hf) as [Hb Hn];
    specialize (Hn eq_refl).
  - lia.
  - apply IH. replace i with (Z.of_nat (Z.to_nat i)) by lia.
    rewrite excise_inner_length by lia. lia.
Qed.

Lemma remove_duplicate_heders_depth_mono : forall d sol last r,
  remove_duplicate_heders d sol last = Ok r ->
  forall d', d <= d' -> remove_duplicate_heders d' sol last = Ok r.
Proof.
  induction d as [|d IH]; intros sol last r H d' Hd;
    rewrite remove_duplicate_heders_depth_eq in H;
    rewrite remove_duplicate_heders_depth_eq;
    destruct (scan_headers sol sol 0 last) as [[i|]|e]; simpl in *;
    try discriminate; try exact H.
  destruct d' as [|d']; [lia|]. apply IH; [exact H | lia].
Qed.

(** The scan never reads outside the block, and a call returns when the
    recursion limit allows twice as many nested calls as the block has
    lines: a first excision, made for the header handed in, can leave a
    block of up to twice the length, and every later one removes at
    least two lines. *)
Lemma remove_duplicate_heders_total depth sol last :
  2 * length sol < depth ->
  exists r, remove_duplicate_heders depth sol last = Ok r.
Proof.
  intros Hd. rewrite remove_duplicate_heders_depth_eq.
  destruct (scan_headers_defined sol sol 0 last eq_refl) as [found Hf].
  simpl in Hf. rewrite Hf. simpl.
  destruct found as [i|]; [|eexists; reflexivity].
  destruct (scan_headers_bounds _ _ _ _ _ Hf) as [Hb _].
  destruct depth as [|d]; [lia|].
  apply remove_duplicate_heders_depth_enough.
  replace i with (Z.of_nat (Z.to_nat i)) by lia.
  pose proof (excise_length_le sol (Z.to_nat i)). lia.
Qed.

(** The only exception of the deduplicator is [RecursionError]. *)
Lemma remove_duplicate_heders_raises : forall depth sol last e,
  remove_duplicate_heders depth sol last = Raise e -> e = RecursionError.
Proof.
  induction depth as [|d IH]; intros sol last e H;
    rewrite remove_duplicate_heders_depth_eq in H;
    destruct (scan_headers_defined sol sol 0 last eq_refl) as [found Hf];
    simpl in Hf; rewrite Hf in H; cbn [bind] in H;
    (destruct found as [i|]; [|discriminate]).
  - congruence.
  - eapply IH, H.
Qed.

(** What the deduplicator returns is a block in which the scan meets no
    duplicate. *)
Lemma remove_duplicate_heders_depth_clean : forall d sol last r,
  remove_duplicate_heders d sol last = Ok r ->
  scan_headers r r 0 None = Ok None.
Proof.
  induction d as [|d IH]; intros sol last r H;
    rewrite remove_duplicate_heders_depth_eq in H;
    destruct (scan_headers sol sol 0 last) as [[i|]|e] eqn:Hs; simpl in H;
    try discriminate.
  - injection H as <-. eapply scan_headers_none_weaken, Hs.
  - eapply IH, H.
  - injection H as <-. eapply scan_headers_none_weaken, Hs.
Qed.

Lemma remove_duplicate_heders_clean_noop depth sol :
  scan_headers sol sol 0 None = Ok None ->
  remove_duplicate_heders depth sol None = Ok sol.
Proof.
  intros H. rewrite remove_duplicate_heders_depth_eq, H. reflexivity.
Qed.

Lemma Subseq_refl {A : Type} (l : list A) : Subseq l l.
Proof.
  induction l as [|x l IH]; [apply Subseq_nil | apply Subseq_keep, IH].
Qed.

Lemma Subseq_trans {A : Type} (l3 : list A) : forall l1 l2,
  Subseq l1 l2 -> Subseq l2 l3 -> Subseq l1 l3.
Proof.
  intros l1 l2 H12 H23. revert l1 H12.
  induction H23 as [|x l2 l3 H23 IH|x l2 l3 H23 IH]; intros l1 H12.
  - exact H12.
  - apply Subseq_skip, IH, H12.
  - inversion H12; subst.
    + apply Subseq_skip, IH. assumption.
    + apply Subseq_keep, IH. assumption.
Qed.

Lemma Subseq_skipn {A : Type} (n : nat) : forall l : list A,
  Subseq (skipn n l) l.
Proof.
  induction n as [|n IH]; intros l.
  - apply Subseq_refl.
  - destruct l as [|x l]; simpl; [apply Subseq_nil|].
    apply Subseq_skip, IH.
Qed.

Lemma Subseq_app_head {A : Type} (h l1 l2 : list A) :
  Subseq l1 l2 -> Subseq (h ++ l1) (h ++ l2).
Proof.
  intros H. induction h as [|x h IH]; simpl;
    [exact H | apply Subseq_keep, IH].
Qed.

Lemma Subseq_cut {A : Type} (a b : nat) (l : list A) :
  a <= b -> Subseq (firstn a l ++ skipn b l) l.
Proof.
  intros Hab. rewrite <- (firstn_skipn a l) at 3.
  apply Subseq_app_head.
  replace b with ((b - a) + a) by lia. rewrite <- skipn_skipn.
  apply Subseq_skipn.
Qed.

Lemma remove_duplicate_heders_depth_subseq : forall d sol r,
  remove_duplicate_heders d sol None = Ok r -> Subseq r sol.
Proof.
  induction d as [|d IH]; intros sol r H;
    rewrite remove_duplicate_heders_depth_eq in H;
    destruct (scan_headers sol sol 0 None) as [[i|]|e] eqn:Hs; simpl in H;
    try discriminate;
    try (injection H as <-; apply Subseq_refl).
  destruct (scan_headers_bounds _ _ _ _ _ Hs) as [Hb Hn].
  specialize (Hn eq_refl).
  apply (Subseq_trans _ _ _ (IH _ _ H)).
  replace i with (Z.of_nat (Z.to_nat i)) by lia.
  rewrite excise_inner by lia. apply Subseq_cut. lia.
Qed.

(** The line at which the excision fires holds "Time", and the header
    read for it names at least one antenna. *)
Lemma scan_headers_fires sol : forall rest (i0 : nat) last i,
  skipn i0 sol = rest ->
  scan_headers sol rest (Z.of_nat i0) last = Ok (Some i) ->
  exists L h,
    nth_error sol (Z.to_nat i) = Some L /\ contains "Time" L = true /\
    get_antenna_names (slice_from sol (i - 1)) = Ok h /\ h <> [].
Proof.
  induction rest as [|L rest IH]; intros i0 last i Hs H.
  - discriminate.
  - assert (Hs' : skipn (S i0) sol = rest).
    { replace (S i0) with (1 + i0) by lia. rewrite <- skipn_skipn, Hs.
      reflexivity. }
    cbn [scan_headers] in H.
    replace (Z.of_nat i0 + 1)%Z with (Z.of_nat (S i0)) in H by lia.
    destruct (contains "Time" L) eqn:HT.
    + destruct (get_antenna_names (slice_from sol (Z.of_nat i0 - 1)))
        as [h|e] eqn:Hh; cbn [bind] in H; [|discriminate].
      destruct (is_duplicate last h) eqn:Hd.
      * injection H as <-. exists L, h. rewrite Nat2Z.id.
        repeat split; try assumption.
        -- rewrite <- (firstn_skipn i0 sol), Hs.
           rewrite nth_error_app2; rewrite length_firstn.
           ++ assert (Hl : i0 < length sol).
              { apply (f_equal (@length _)) in Hs.
                rewrite length_skipn in Hs. simpl in Hs. lia. }
              replace (i0 - Nat.min i0 (length sol)) with 0 by lia.
              reflexivity.
           ++ lia.
        -- intros ->. destruct last as [hl|]; simpl in Hd; [|discriminate].
           rewrite andb_false_r in Hd. discriminate.
      * eapply IH; eassumption.
    + eapply IH; eassumption.
Qed.

(** C7 as written fails: the duplicate header at lines 4 and 5 of the
    block takes with it line 6, the rule under the "Time" line; three
    lines go, and the block is not the original minus two lines. *)
Lemma duplicate_header_excision_not_two_lines :
  scan_headers repeated_header_block repeated_header_block 0 None
  = Ok (Some 5%Z) /\
  remove_duplicate_heders 1 repeated_header_block None
  = Ok ["|Ant = A0"; "Time Field Chn|"; "----|----"; "t f 0| 1 2 3 4";
        "t f 1| 5 6 7 8"] /\
  remove_duplicate_heders 1 repeated_header_block None
  <> Ok ["|Ant = A0"; "Time Field Chn|"; "----|----"; "t f 0| 1 2 3 4";
         "----|----"; "t f 1| 5 6 7 8"].
Proof. repeat split. vm_compute. discriminate. Qed.

(** C7 (as the code has it).  When the scan of a block (started without
    a previous header, as the pipeline does) meets a duplicate at the
    "Time" line [i], the lines [i-1], [i] and [i+1] are excised: the
    header line, the "Time" line and the line after it, three lines (two
    when the "Time" line is the last one).  The deduplicator goes on with
    the shortened block in a nested call; with no nested call left it
    ends in [RecursionError].  Whatever it returns is the shortened
    block, hence the block, with some lines left out, the others in their
    order; and it does return when the recursion limit allows as many
    nested calls as the block has lines. *)
Theorem duplicate_header_excision (sol : list string) (i : Z) :
  scan_headers sol sol 0 None = Ok (Some i) ->
  (1 <= i < Z.of_nat (length sol))%Z /\
  (exists L h, nth_error sol (Z.to_nat i) = Some L /\
     contains "Time" L = true /\
     get_antenna_names (slice_from sol (i - 1)) = Ok h /\ h <> []) /\
  excise sol i = firstn (Z.to_nat i - 1) sol ++ skipn (Z.to_nat i + 2) sol /\
  length (excise sol i)
  = length sol - Nat.min 3 (length sol - (Z.to_nat i - 1)) /\
  remove_duplicate_heders 0 sol None = Raise RecursionError /\
  (forall depth, remove_duplicate_heders (S depth) sol None
                 = remove_duplicate_heders depth (excise sol i) None) /\
  (forall depth r, remove_duplicate_heders depth sol None = Ok r ->
     Subseq r (excise sol i) /\ Subseq r sol) /\
  (forall depth, length sol <= depth ->
     exists r, remove_duplicate_heders depth sol None = Ok r).
Proof.
  intros Hs.
  destruct (scan_headers_bounds _ _ _ _ _ Hs) as [Hb Hn].
  specialize (Hn eq_refl). simpl in Hb.
  assert (Hi : 1 <= Z.to_nat i < length sol) by lia.
  assert (Ez : i = Z.of_nat (Z.to_nat i)) by lia.
  split; [lia|]. split.
  { apply (scan_headers_fires sol sol 0 None i eq_refl Hs). }
  split; [rewrite Ez at 1; apply excise_inner, Hi|].
  split; [rewrite Ez at 1; apply excise_inner_length, Hi|].
  assert (Hstep : forall depth,
            remove_duplicate_heders (S depth) sol None
            = remove_duplicate_heders depth (excise sol i) None).
  { intros depth. rewrite (remove_duplicate_heders_depth_eq (S depth)), Hs.
    reflexivity. }
  split; [rewrite remove_duplicate_heders_depth_eq, Hs; reflexivity|].
  split; [exact Hstep|]. split.
  - intros depth r Hr.
    pose proof (remove_duplicate_heders_depth_subseq _ _ _ Hr) as Hsub.
    split; [|exact Hsub].
    destruct depth as [|d].
    + rewrite remove_duplicate_heders_depth_eq, Hs in Hr. discriminate.
    + rewrite Hstep in Hr.
      eapply remove_duplicate_heders_depth_subseq, Hr.
  - intros depth Hd. apply remove_duplicate_heders_depth_enough, Hd.
Qed.

Lemma duplicate_header_excision_witness :
  scan_headers repeated_header_block repeated_header_block 0 None
  = Ok (Some 5%Z) /\
  length (excise repeated_header_block 5)
  = length repeated_header_block
    - Nat.min 3 (length repeated_header_block - (Z.to_nat 5 - 1)).
Proof.
  split; [reflexivity|].
  exact (proj1 (proj2 (proj2 (proj2
           (duplicate_header_excision repeated_header_block 5 eq_refl))))).
Defined.

Lemma list_eqb_string_eq : forall a b : list string,
  list_eqb String.eqb a b = true <-> a = b.
Proof.
  induction a as [|x a IH]; intros [|y b]; simpl; split; intros H;
    try reflexivity; try discriminate.
  - apply andb_true_iff in H. destruct H as [Hx Hab].
    apply String.eqb_eq in Hx. apply IH in Hab. congruence.
  - injection H as -> ->. rewrite String.eqb_refl. simpl. apply IH.
    reflexivity.
Qed.

Lemma header_names_at sol (i : nat) :
  i < length sol ->
  get_antenna_names (slice_from sol (Z.of_nat i - 1))
  = Ok (findall_ant (header_line_for sol i) 0).
Proof.
  intros Hi. unfold get_antenna_names, slice_from, header_line_for.
  rewrite (slice_bound_pred _ _ Hi).
  set (k := Nat.pred (if (i =? 0)%nat then length sol else i)).
  assert (Hk : k < length sol)
    by (subst k; destruct (Nat.eqb_spec i 0); lia).
  replace (if (i =? 0)%nat then length sol - 1 else i - 1) with k
    by (subst k; destruct (Nat.eqb_spec i 0); lia).
  destruct (skipn k sol) as [|x tl] eqn:E.
  - exfalso. apply (f_equal (@length _)) in E. rewrite length_skipn in E.
    simpl in E. lia.
  - rewrite index_0_cons. cbn [bind]. do 2 f_equal.
    symmetry. apply nth_error_nth.
    rewrite <- (Nat.add_0_r k), <- nth_error_skipn, E. reflexivity.
Qed.

(** A scan that runs to its end has met no "Time" line whose antenna
    list is non-empty and equal to the one read just before. *)
Lemma scan_headers_none_headers sol : forall rest (i : nat) last,
  skipn i sol = rest ->
  scan_headers sol rest (Z.of_nat i) last = Ok None ->
  (forall h0 h, last = Some h0 ->
     nth_error (time_headers_from sol rest i) 0 = Some h ->
     h = h0 -> h = []) /\
  (forall k h1 h2,
     nth_error (time_headers_from sol rest i) k = Some h1 ->
     nth_error (time_headers_from sol rest i) (S k) = Some h2 ->
     h2 = h1 -> h2 = []).
Proof.
  induction rest as [|L rest IH]; intros i last Hs H.
  - split; [intros h0 h _ Hh | intros k h1 h2 Hh]; destruct k || idtac;
      discriminate.
  - assert (Hi : i < length sol).
    { apply (f_equal (@length _)) in Hs. rewrite length_skipn in Hs.
      simpl in Hs. lia. }
    assert (Hs' : skipn (S i) sol = rest).
    { replace (S i) with (1 + i) by lia. rewrite <- skipn_skipn, Hs.
      reflexivity. }
    cbn [scan_headers] in H.
    replace (Z.of_nat i + 1)%Z with (Z.of_nat (S i)) in H by lia.
    cbn [time_headers_from].
    destruct (contains "Time" L).
    + rewrite (header_names_at sol i Hi) in H. cbn [bind] in H.
      set (cur := findall_ant (header_line_for sol i) 0) in *.
      destruct (is_duplicate last cur) eqn:Hd; [discriminate|].
      destruct (IH (S i) (Some cur) Hs' H) as [HA HB]. split.
      * intros h0 h -> Hh ->. cbn [nth_error] in Hh. injection Hh as Hh.
        unfold is_duplicate in Hd. rewrite Hh in Hd.
        rewrite (proj2 (list_eqb_string_eq h0 h0) eq_refl) in Hd.
        cbn [andb] in Hd. apply Nat.ltb_ge in Hd.
        destruct h0; [reflexivity | simpl in Hd; lia].
      * intros [|k] h1 h2 H1 H2 Heq; cbn [nth_error] in H1, H2.
        -- injection H1 as <-. eapply HA; [reflexivity | exact H2 | exact Heq].
        -- eapply HB; eassumption.
    + apply IH; assumption.
Qed.

(** Conversely, the scan runs to its end on a block in which no "Time"
    line has a non-empty antenna list equal to the one read just
    before. *)
Lemma scan_headers_no_repeat sol : forall rest (i : nat) last,
  skipn i sol = rest ->
  (forall h0 h, last = Some h0 ->
     nth_error (time_headers_from sol rest i) 0 = Some h ->
     h = h0 -> h = []) ->
  (forall k h1 h2,
     nth_error (time_headers_from sol rest i) k = Some h1 ->
     nth_error (time_headers_from sol rest i) (S k) = Some h2 ->
     h2 = h1 -> h2 = []) ->
  scan_headers sol rest (Z.of_nat i) last = Ok None.
Proof.
  induction rest as [|L rest IH]; intros i last Hs HA HB; [reflexivity|].
  assert (Hi : i < length sol).
  { apply (f_equal (@length _)) in Hs. rewrite length_skipn in Hs.
    simpl in Hs. lia. }
  assert (Hs' : skipn (S i) sol = rest).
  { replace (S i) with (1 + i) by lia. rewrite <- skipn_skipn, Hs.
    reflexivity. }
  cbn [scan_headers].
  replace (Z.of_nat i + 1)%Z with (Z.of_nat (S i)) by lia.
  cbn [time_headers_from] in HA, HB.
  destruct (contains "Time" L).
  - rewrite (header_names_at sol i Hi). cbn [bind].
    set (cur := findall_ant (header_line_for sol i) 0) in *.
    assert (Hd : is_duplicate last cur = false).
    { destruct last as [h0|]; [|reflexivity]. unfold is_duplicate.
      destruct (list_eqb String.eqb cur h0) eqn:E; [|reflexivity].
      apply list_eqb_string_eq in E.
      rewrite (HA h0 cur eq_refl eq_refl E). reflexivity. }
    rewrite Hd. apply IH; [exact Hs'| |].
    + intros h0 h Hh0 Hh Heq. injection Hh0 as <-.
      apply (HB 0 cur h); [reflexivity | exact Hh | exact Heq].
    + intros k h1 h2 H1 H2. apply (HB (S k) h1 h2); assumption.
  - apply IH; assumption.
Qed.

(** C9.  The deduplicator leaves unchanged every block without duplicate
    consecutive antenna headers, that is, in which no "Time" line has a
    non-empty antenna list equal to that of the "Time" line before it;
    and whatever the deduplicator returns, for any block, any header it
    is started with and any recursion limit, is returned unchanged when
    the deduplicator is applied to it again. *)
Theorem remove_duplicate_heders_idempotent (sol : list string) :
  ((forall k h1 h2,
      nth_error (time_headers sol) k = Some h1 ->
      nth_error (time_headers sol) (S k) = Some h2 ->
      h2 = h1 -> h2 = []) ->
   forall depth, remove_duplicate_heders depth sol None = Ok sol) /\
  (forall depth last_header r,
     remove_duplicate_heders depth sol last_header = Ok r ->
     forall depth', remove_duplicate_heders depth' r None = Ok r).
Proof.
  split.
  - intros Hno depth. apply remove_duplicate_heders_clean_noop.
    apply (scan_headers_no_repeat sol sol 0 None eq_refl);
      [discriminate | exact Hno].
  - intros depth last_header r Hr depth'.
    apply remove_duplicate_heders_clean_noop.
    eapply remove_duplicate_heders_depth_clean, Hr.
Qed.

Lemma remove_duplicate_heders_idempotent_witness :
  remove_duplicate_heders 1 repeated_header_block None
  = Ok ["|Ant = A0"; "Time Field Chn|"; "----|----"; "t f 0| 1 2 3 4";
        "t f 1| 5 6 7 8"] /\
  remove_duplicate_heders 0
    ["|Ant = A0"; "Time Field Chn|"; "----|----"; "t f 0| 1 2 3 4";
     "t f 1| 5 6 7 8"] None
  = Ok ["|Ant = A0"; "Time Field Chn|"; "----|----"; "t f 0| 1 2 3 4";
        "t f 1| 5 6 7 8"].
Proof.
  split; [reflexivity|].
  apply (proj2 (remove_duplicate_heders_idempotent repeated_header_block)
           1 None _ eq_refl 0).
Defined.

(** ** Record Parser: reshaping *)

Section ArrayFacts.
Context {X : Type}.

Lemma rows_length (n w : nat) : forall l : list X, length (rows n w l) = n.
Proof.
  induction n as [|n IH]; intros l; simpl; [reflexivity|].
  rewrite IH. reflexivity.
Qed.

Lemma rows_nth_error (n w : nat) : forall (l : list X) a,
  a < n -> nth_error (rows n w l) a = Some (firstn w (skipn (a * w) l)).
Proof.
  induction n as [|n IH]; intros l a Ha; [lia|].
  destruct a as [|a]; simpl.
  - reflexivity.
  - rewrite IH by lia. rewrite skipn_skipn.
    replace (a * w + w) with (w + a * w) by lia. reflexivity.
Qed.

Lemma firstn_skipn_nth_error (w k p : nat) (l : list X) :
  p < w -> nth_error (firstn w (skipn k l)) p = nth_error l (k + p).
Proof.
  intros Hp. rewrite nth_error_firstn.
  destruct (Nat.ltb_spec p w); [|lia].
  rewrite nth_error_skipn. reflexivity.
Qed.

Lemma firstn_skipn_length_app (r t : list X) :
  firstn (length r) (r ++ t) = r /\ skipn (length r) (r ++ t) = t.
Proof.
  induction r as [|x r [IH1 IH2]]; simpl; [split; reflexivity|].
  split; [rewrite IH1; reflexivity | exact IH2].
Qed.

Lemma rows_concat (w : nat) : forall l : list (list X),
  Forall (fun r => length r = w) l -> rows (length l) w (concat l) = l.
Proof.
  induction l as [|r l IH]; intros H; simpl; [reflexivity|].
  inversion H as [|? ? Hr Hl]; subst.
  destruct (firstn_skipn_length_app r (concat l)) as [-> ->].
  rewrite IH by exact Hl. reflexivity.
Qed.

Lemma concat_length_uniform (w : nat) : forall l : list (list X),
  Forall (fun r => length r = w) l -> length (concat l) = length l * w.
Proof.
  induction l as [|r l IH]; intros H; simpl; [reflexivity|].
  inversion H; subst. rewrite length_app, IH by assumption. reflexivity.
Qed.

Lemma unpair_nth_error : forall k (l : list X),
  nth_error (unpair l) k
  = match nth_error l (2 * k), nth_error l (2 * k + 1) with
    | Some x, Some y => Some (x, y)
    | _, _ => None
    end.
Proof.
  induction k as [|k IH]; intros [|a [|b tl]]; try reflexivity.
  - replace (2 * S k) with (S (S (2 * k))) by lia. simpl.
    destruct (2 * k); reflexivity.
  - replace (2 * S k) with (S (S (2 * k))) by lia.
    cbn [unpair nth_error Nat.add]. apply IH.
Qed.

Lemma swapaxes01_nth_error (n a : nat) (g : list (list (list X))) :
  a < n ->
  nth_error (swapaxes01 n g) a = Some (map (fun blk => nth a blk []) g).
Proof.
  intros Ha. unfold swapaxes01. rewrite nth_error_map.
  rewrite (nth_error_nth' (seq 0 n) 0) by (rewrite length_seq; exact Ha).
  rewrite seq_nth by exact Ha. reflexivity.
Qed.

End ArrayFacts.

Lemma filter_none {A : Type} (f : A -> bool) : forall l : list A,
  (forall y, In y l -> f y = false) -> filter f l = [].
Proof.
  induction l as [|x l IH]; intros H; simpl; [reflexivity|].
  rewrite (H x (or_introl eq_refl)). apply IH.
  intros y Hy. apply H. right. exact Hy.
Qed.

(** [np.argsort] on channel numbers. *)
Section ArgsortFacts.
Variable keys : list N.

Local Abbreviation key := (fun i : nat => nth i keys 0%N).
Local Abbreviation by_key := (fun i j : nat => (key i <= key j)%N).

Lemma insert_index_perm i : forall l,
  Permutation (insert_index N.leb keys 0%N i l) (i :: l).
Proof.
  induction l as [|j tl IH]; simpl.
  - apply Permutation_refl.
  - destruct (key i <=? key j)%N.
    + apply Permutation_refl.
    + apply perm_trans with (j :: i :: tl).
      * apply perm_skip, IH.
      * apply perm_swap.
Qed.

Lemma insertion_perm : forall l,
  Permutation (fold_right (insert_index N.leb keys 0%N) [] l) l.
Proof.
  induction l as [|i l IH]; simpl.
  - apply perm_nil.
  - apply perm_trans with (i :: fold_right (insert_index N.leb keys 0%N) [] l).
    + apply insert_index_perm.
    + apply perm_skip, IH.
Qed.

Lemma argsort_perm :
  Permutation (argsort N.leb 0%N keys) (seq 0 (length keys)).
Proof. apply insertion_perm. Qed.

Lemma insert_index_sorted i : forall l,
  StronglySorted by_key l ->
  StronglySorted by_key (insert_index N.leb keys 0%N i l).
Proof.
  induction l as [|j tl IH]; intros Hs; simpl.
  - constructor; constructor.
  - inversion Hs as [|? ? Htl Hj]; subst.
    destruct (N.leb_spec (key i) (key j)) as [Hle|Hgt].
    + constructor; [exact Hs|].
      constructor; [exact Hle|].
      eapply Forall_impl; [|exact Hj]. cbv beta. intros x Hx. lia.
    + constructor; [apply IH, Htl|].
      eapply Permutation_Forall.
      * apply Permutation_sym, insert_index_perm.
      * constructor; [lia | exact Hj].
Qed.

Lemma argsort_sorted : StronglySorted by_key (argsort N.leb 0%N keys).
Proof.
  unfold argsort. induction (seq 0 (length keys)) as [|i l IH]; simpl.
  - constructor.
  - apply insert_index_sorted, IH.
Qed.

Lemma map_nth_seq : forall (l : list N),
  map (fun i => nth i l 0%N) (seq 0 (length l)) = l.
Proof.
  induction l as [|x l IH]; simpl; [reflexivity|].
  f_equal. rewrite <- seq_shift, map_map. exact IH.
Qed.

Lemma argsort_keys_perm :
  Permutation (map key (argsort N.leb 0%N keys)) keys.
Proof.
  pose proof (Permutation_map key argsort_perm) as H.
  rewrite map_nth_seq in H. exact H.
Qed.

Lemma rank_perm c (l l' : list N) :
  Permutation l l' -> rank c l = rank c l'.
Proof.
  unfold rank. induction 1 as [|x l l' _ IH|x y l|l l' l'' _ IH1 _ IH2];
    simpl.
  - reflexivity.
  - destruct (x <? c)%N; simpl; rewrite IH; reflexivity.
  - destruct (x <? c)%N, (y <? c)%N; reflexivity.
  - rewrite IH1. exact IH2.
Qed.

Lemma rank_strictly_sorted : forall (l : list N) k c,
  StronglySorted N.lt l -> nth_error l k = Some c -> rank c l = k.
Proof.
  unfold rank. induction l as [|x l IH]; intros k c Hs Hk.
  - destruct k; discriminate.
  - inversion Hs as [|? ? Hl Hx]; subst. destruct k as [|k]; simpl in *.
    + injection Hk as ->. rewrite N.ltb_irrefl.
      rewrite filter_none; [reflexivity|].
      rewrite Forall_forall in Hx. intros y Hy.
      apply N.ltb_ge. specialize (Hx y Hy). lia.
    + assert (Hlt : (x < c)%N).
      { rewrite Forall_forall in Hx. apply Hx.
        eapply nth_error_In, Hk. }
      apply N.ltb_lt in Hlt. rewrite Hlt. simpl. f_equal.
      apply IH; assumption.
Qed.

Lemma sorted_nodup_strict : forall l : list N,
  StronglySorted N.le l -> NoDup l -> StronglySorted N.lt l.
Proof.
  induction l as [|x l IH]; intros Hs Hn; [constructor|].
  inversion Hs as [|? ? Hl Hx]; subst. inversion Hn as [|? ? Hnx Hnl]; subst.
  constructor; [apply IH; assumption|].
  rewrite Forall_forall in *. intros y Hy. specialize (Hx y Hy).
  assert (x <> y) by (intros ->; contradiction). lia.
Qed.

Lemma sorted_by_key_map : forall idx,
  StronglySorted by_key idx -> StronglySorted N.le (map key idx).
Proof.
  induction idx as [|i idx IH]; intros Hs; simpl; [constructor|].
  inversion Hs as [|? ? Hl Hi]; subst. constructor; [apply IH, Hl|].
  rewrite Forall_forall in *. intros y Hy.
  apply in_map_iff in Hy. destruct Hy as [j [<- Hj]]. apply Hi, Hj.
Qed.

(** With distinct keys, the index found at position [k] of the sorted
    order is that of the key of rank [k]. *)
Lemma argsort_rank k j :
  NoDup keys ->
  nth_error (argsort N.leb 0%N keys) k = Some j ->
  rank (key j) keys = k.
Proof.
  intros Hn Hk.
  rewrite <- (rank_perm _ _ _ argsort_keys_perm).
  apply rank_strictly_sorted.
  - apply sorted_nodup_strict.
    + apply sorted_by_key_map, argsort_sorted.
    + eapply Permutation_NoDup; [apply Permutation_sym, argsort_keys_perm|].
      exact Hn.
  - rewrite nth_error_map, Hk. reflexivity.
Qed.

Lemma argsort_covers j :
  j < length keys -> exists k, nth_error (argsort N.leb 0%N keys) k = Some j.
Proof.
  intros Hj. apply In_nth_error.
  eapply Permutation_in; [apply Permutation_sym, argsort_perm|].
  apply in_seq. lia.
Qed.

Lemma argsort_length : length (argsort N.leb 0%N keys) = length keys.
Proof.
  rewrite (Permutation_length argsort_perm). apply length_seq.
Qed.

Lemma argsort_in_range j :
  In j (argsort N.leb 0%N keys) -> j < length keys.
Proof.
  intros H. apply (Permutation_in _ argsort_perm) in H.
  apply in_seq in H. lia.
Qed.

End ArgsortFacts.

Lemma dedup_adjacent_nodup : forall l : list N,
  NoDup l -> dedup_adjacent N.eqb l = l.
Proof.
  induction l as [|x [|y tl] IH]; intros Hn; try reflexivity.
  inversion Hn as [|? ? Hx Htl]; subst.
  cbn [dedup_adjacent].
  destruct (N.eqb_spec x y) as [->|_].
  - exfalso. apply Hx. left. reflexivity.
  - f_equal. apply IH, Htl.
Qed.

Lemma insert_sorted_perm (x : N) : forall l,
  Permutation (insert_sorted N.leb x l) (x :: l).
Proof.
  induction l as [|y tl IH]; simpl.
  - apply Permutation_refl.
  - destruct (x <=? y)%N.
    + apply Permutation_refl.
    + apply perm_trans with (y :: x :: tl);
        [apply perm_skip, IH | apply perm_swap].
Qed.

(** [len(np.unique(channels))] counts every channel once. *)
Lemma unique_length_nodup (l : list N) :
  NoDup l -> length (unique N.leb N.eqb l) = length l.
Proof.
  intros Hn. unfold unique.
  assert (Hp : Permutation (fold_right (insert_sorted N.leb) [] l) l).
  { clear Hn. induction l as [|x l IH]; simpl; [apply perm_nil|].
    eapply perm_trans; [apply insert_sorted_perm | apply perm_skip, IH]. }
  rewrite dedup_adjacent_nodup.
  - apply Permutation_length, Hp.
  - eapply Permutation_NoDup; [apply Permutation_sym, Hp | exact Hn].
Qed.

Lemma unpair_length {X : Type} : forall m (l : list X),
  length l = 2 * m -> length (unpair l) = m.
Proof.
  induction m as [|m IH]; intros l Hl.
  - destruct l; [reflexivity | discriminate].
  - destruct l as [|a [|b tl]]; simpl in Hl; try lia.
    simpl. f_equal. apply IH. lia.
Qed.

Lemma rows_uniform {X : Type} (w : nat) : forall n (l : list X),
  n * w <= length l -> Forall (fun r => length r = w) (rows n w l).
Proof.
  induction n as [|n IH]; intros l Hl; simpl; constructor.
  - rewrite length_firstn. simpl in Hl. lia.
  - apply IH. rewrite length_skipn. simpl in Hl. lia.
Qed.

Lemma combine_fst_snd {X Y : Type} : forall l : list (X * Y),
  combine (map fst l) (map snd l) = l.
Proof.
  induction l as [|[x y] l IH]; simpl; [reflexivity|].
  rewrite IH. reflexivity.
Qed.

Lemma combine_map_same {I X Y : Type} (f : I -> X) (g : I -> Y) :
  forall l, combine (map f l) (map g l) = map (fun i => (f i, g i)) l.
Proof.
  induction l as [|i l IH]; simpl; [reflexivity|].
  rewrite IH. reflexivity.
Qed.

Lemma Forall2_nth_error {X Y : Type} (R : X -> Y -> Prop) :
  forall l1 l2 j x, Forall2 R l1 l2 -> nth_error l1 j = Some x ->
  exists y, nth_error l2 j = Some y /\ R x y.
Proof.
  intros l1 l2 j x H. revert j x.
  induction H as [|a b l1 l2 Hab _ IH]; intros j x Hj.
  - destruct j; discriminate.
  - destruct j as [|j]; simpl in *.
    + injection Hj as <-. exists b. split; [reflexivity | exact Hab].
    + apply IH, Hj.
Qed.

(** Channels below 2^63 are stored as they are. *)
Lemma np_array_int_small (l : list N) :
  Forall (fun c => (c < two_63)%N) l ->
  np_array_int l = l /\ (l <> [] -> np_int_dtype l = Int64).
Proof.
  intros H. unfold np_array_int, np_int_dtype.
  destruct l as [|c l]; [split; [reflexivity | congruence]|].
  assert (E : forallb (fun c => (c <? two_63)%N) (c :: l) = true).
  { apply forallb_forall. rewrite Forall_forall in H.
    intros x Hx. apply N.ltb_lt, H, Hx. }
  rewrite E. split; [apply map_id | reflexivity].
Qed.

Lemma np_array_int_length (l : list N) :
  length (np_array_int l) = length l.
Proof. apply length_map. Qed.

(** Storing never separates equal channels. *)
Lemma np_array_int_NoDup (l : list N) :
  NoDup (np_array_int l) -> NoDup l.
Proof. apply NoDup_map_inv. Qed.

Section ReshapeFacts.
Variables F C : Type.
Variable pyfloat : string -> option F.
Variable polar : F -> F -> C.

Local Abbreviation parse := (parse_lines F pyfloat).
Local Abbreviation to_dict := (caltable_to_dict F C pyfloat polar).
Local Abbreviation polar_pair := (fun x : F * F => polar (fst x) (snd x)).

(** What the loop has recorded for a data line: its channel, and the
    (amplitude, phase) pairs of its values laid out by antenna and
    polarization. *)
Local Abbreviation recorded nants npol :=
  (fun (g : string * string * string * string) (r : data_record F) =>
     rec_channel r = int_of_digits (snd (fst g)) /\
     exists values,
       floats F pyfloat (numeric_tokens (snd g)) = Ok values /\
       length values = nants * 2 * npol /\
       rec_amp r = map (map fst) (rows nants npol (unpair values)) /\
       rec_phs r = map (map snd) (rows nants npol (unpair values))).

Lemma floats_length : forall nums vs,
  floats F pyfloat nums = Ok vs -> length vs = length nums.
Proof.
  induction nums as [|x xs IH]; intros vs H; simpl in H.
  - injection H as <-. reflexivity.
  - destruct (pyfloat x); [|discriminate].
    destruct (floats F pyfloat xs) as [vs'|e]; simpl in H; [|discriminate].
    injection H as <-. simpl. f_equal. apply IH. reflexivity.
Qed.

Lemma floats_nth_error : forall nums vs k v,
  floats F pyfloat nums = Ok vs -> nth_error vs k = Some v ->
  pyfloat (nth k nums EmptyString) = Some v.
Proof.
  induction nums as [|x xs IH]; intros vs k v H Hk; simpl in H.
  - injection H as <-. destruct k; discriminate.
  - destruct (pyfloat x) as [vx|] eqn:Hx; [|discriminate].
    destruct (floats F pyfloat xs) as [vs'|e]; simpl in H; [|discriminate].
    injection H as <-. destruct k as [|k]; simpl in *.
    + injection Hk as <-. exact Hx.
    + eapply IH; [reflexivity | exact Hk].
Qed.

Lemma parse_lines_records nants npol : forall table w recs,
  parse nants npol table = (w, Ok (Some recs)) ->
  Forall2 (recorded nants npol) (data_lines table) recs.
Proof.
  induction table as [|L rest IH]; intros w recs H.
  - simpl in H. injection H as _ <-. constructor.
  - rewrite data_lines_cons.
    destruct (data_re_match L) as [[[[t f] c] tl]|] eqn:Hm.
    + rewrite (parse_lines_data_line F pyfloat _ _ _ _ _ _ _ _ Hm) in H.
      destruct (py_int_cases c) as [[_ Hi]|[_ Hi]]; rewrite Hi in H;
        [|discriminate].
      destruct (length (numeric_tokens tl) =? nants * 2 * npol)%nat eqn:Hc;
        [|discriminate].
      apply Nat.eqb_eq in Hc.
      destruct (floats F pyfloat (numeric_tokens tl)) as [vs|e] eqn:Hf;
        [|discriminate].
      destruct (parse nants npol rest) as [w' [[recs'|]|e]] eqn:Hr;
        cbn [option_map] in H; try discriminate.
      injection H as _ <-.
      pose proof (floats_length _ _ Hf) as Hl. rewrite Hc in Hl.
      rewrite firstn_all2 by lia.
      constructor.
      * split; [reflexivity|]. exists vs. repeat split; assumption.
      * eapply IH. reflexivity.
    + rewrite (parse_lines_skip F pyfloat _ _ _ _ Hm) in H. eapply IH, H.
Qed.

Local Abbreviation block_of r := (gain_block F C polar (rec_amp r) (rec_phs r)).

Lemma gain_block_pairs (arr : list (list (F * F))) :
  gain_block F C polar (map (map fst) arr) (map (map snd) arr)
  = map (map polar_pair) arr.
Proof.
  unfold gain_block. rewrite combine_map_same, map_map.
  apply map_ext. intros row. cbn [fst snd].
  rewrite combine_fst_snd. reflexivity.
Qed.

Lemma nth_error_defined {X : Type} (l : list X) (i : nat) :
  i < length l -> exists x, nth_error l i = Some x.
Proof.
  intros Hi. destruct (nth_error l i) as [x|] eqn:E; [eexists; reflexivity|].
  apply nth_error_None in E. lia.
Qed.

(** One recorded block: its shape, and its item for antenna [a] and
    polarization [p]. *)
Lemma recorded_block nants npol g r :
  recorded nants npol g r ->
  length (block_of r) = nants /\
  Forall (fun row => length row = npol) (block_of r) /\
  forall a p, a < nants -> p < npol ->
    exists amp phs row,
      pyfloat (nth (2 * (a * npol + p)) (numeric_tokens (snd g)) EmptyString)
      = Some amp /\
      pyfloat (nth (2 * (a * npol + p) + 1) (numeric_tokens (snd g))
                 EmptyString) = Some phs /\
      nth_error (block_of r) a = Some row /\
      nth_error row p = Some (polar amp phs).
Proof.
  intros [_ [values [Hf [Hl [Ha Hp]]]]].
  rewrite Ha, Hp, gain_block_pairs.
  assert (Hu : length (unpair values) = nants * npol).
  { apply unpair_length. lia. }
  split; [rewrite length_map; apply rows_length|]. split.
  { apply Forall_map.
    eapply Forall_impl; [|apply rows_uniform; lia].
    cbv beta. intros row Hr. rewrite length_map. exact Hr. }
  intros a p Hlta Hltp.
  assert (Hk : 2 * (a * npol + p) + 1 < length values) by nia.
  destruct (nth_error_defined values (2 * (a * npol + p))) as [amp Hamp];
    [lia|].
  destruct (nth_error_defined values (2 * (a * npol + p) + 1)) as [phs Hphs];
    [lia|].
  exists amp, phs, (map polar_pair (firstn npol (skipn (a * npol)
                                                  (unpair values)))).
  split; [eapply floats_nth_error; eassumption|].
  split; [eapply floats_nth_error; eassumption|].
  split.
  - rewrite nth_error_map, rows_nth_error by exact Hlta. reflexivity.
  - rewrite nth_error_map, firstn_skipn_nth_error by exact Hltp.
    rewrite unpair_nth_error, Hamp, Hphs. reflexivity.
Qed.

Lemma nth_map_some {X Y : Type} (f : X -> Y) (l : list X) i x d :
  nth_error l i = Some x -> nth i (map f l) d = f x.
Proof. intros H. apply nth_error_nth, map_nth_error, H. Qed.

(** Steps 3 and 4 on records of distinct channels and of the right
    shape: the reshape is the identity, and the result holds the blocks
    in ascending channel order, antenna axis first. *)
Lemma assemble_gains nants npol names recs :
  NoDup (np_array_int (map rec_channel recs)) ->
  Forall (fun r => length (block_of r) = nants /\
                   Forall (fun row => length row = npol) (block_of r)) recs ->
  exists w d,
  assemble F C polar nants npol names recs = (w, Ok d) /\
  antennas d = names /\
  channel_dtype d = np_int_dtype (map rec_channel recs) /\
  channels d = map (fun i => nth i (np_array_int (map rec_channel recs)) 0%N)
                   (argsort N.leb 0%N (np_array_int (map rec_channel recs))) /\
  exists sorted,
    gains d = swapaxes01 nants sorted /\
    Forall2 (fun i blk => exists r, nth_error recs i = Some r /\
                                    blk = block_of r)
            (argsort N.leb 0%N (np_array_int (map rec_channel recs))) sorted.
Proof.
  intros Hn Hshape. unfold assemble.
  set (stored := np_array_int (map rec_channel recs)) in *.
  assert (Hstored : length stored = length recs).
  { subst stored. rewrite np_array_int_length. apply length_map. }
  set (idx := argsort N.leb 0%N stored) in *.
  set (sorted := map (fun ap => gain_block F C polar (fst ap) (snd ap))
                     (combine (gather [] (map rec_amp recs) idx)
                              (gather [] (map rec_phs recs) idx))) in *.
  assert (Hidx : forall i, In i idx -> i < length recs).
  { intros i Hi. apply argsort_in_range in Hi.
    rewrite Hstored in Hi. exact Hi. }
  assert (Hs : Forall2 (fun i blk => exists r, nth_error recs i = Some r /\
                                               blk = block_of r) idx sorted).
  { subst sorted. unfold gather. rewrite combine_map_same, map_map.
    cbn [fst snd]. clear -Hidx.
    induction idx as [|i idx IH]; simpl; constructor.
    - destruct (nth_error_defined recs i) as [r Hr];
        [apply Hidx; left; reflexivity|].
      exists r. split; [exact Hr|].
      rewrite (nth_map_some _ _ _ _ _ Hr), (nth_map_some _ _ _ _ _ Hr).
      reflexivity.
    - apply IH. intros j Hj. apply Hidx. right. exact Hj. }
  assert (Hblocks : Forall (fun blk => length blk = nants /\
                       Forall (fun row => length row = npol) blk) sorted).
  { clear -Hs Hshape. rewrite Forall_forall in Hshape.
    induction Hs as [|i blk idx sorted [r [Hr ->]] _ IH]; constructor.
    - apply Hshape. eapply nth_error_In, Hr.
    - exact IH. }
  assert (Hlen : length sorted = length recs).
  { rewrite <- (Forall2_length Hs). subst idx.
    rewrite argsort_length. exact Hstored. }
  assert (Hre : reshape3 C (length (unique N.leb N.eqb stored))
                  nants npol sorted = Ok sorted).
  { rewrite unique_length_nodup by exact Hn. rewrite Hstored.
    unfold reshape3.
    assert (H1 : Forall (fun b => length b = nants) sorted).
    { eapply Forall_impl; [|exact Hblocks]. cbv beta. tauto. }
    assert (H2 : Forall (fun row => length row = npol) (concat sorted)).
    { clear -Hblocks. induction Hblocks as [|b l [_ Hb] _ IH]; simpl.
      - constructor.
      - apply Forall_app. split; assumption. }
    pose proof (concat_length_uniform nants sorted H1) as L1.
    pose proof (concat_length_uniform npol (concat sorted) H2) as L2.
    rewrite L2, L1, Hlen, Nat.eqb_refl.
    rewrite <- Hlen, <- L1.
    rewrite (rows_concat npol _ H2), (rows_concat nants _ H1).
    reflexivity. }
  rewrite Hre.
  match goal with
  | |- context [io_bind (if ?b then _ else _) _] => destruct b
  end; unfold lift, print, io_ret, io_bind; cbn [app];
    eexists; eexists; (split; [reflexivity|]);
    cbn [antennas channel_dtype channels gains];
    (split; [reflexivity|]; split; [reflexivity|]; split; [reflexivity|]);
    exists sorted; (split; [reflexivity | exact Hs]).
Qed.

(** The loop runs to its end on a table whose data lines all have the
    expected number of values and convert. *)
Lemma parse_lines_succeeds nants npol : forall table,
  (forall L time field ch tail, In L table ->
     data_re_match L = Some (time, field, ch, tail) ->
     length (numeric_tokens tail) = nants * 2 * npol /\
     String.length ch <= int_max_str_digits /\
     forall x, In x (numeric_tokens tail) -> pyfloat x <> None) ->
  exists recs, parse nants npol table = ([], Ok (Some recs)).
Proof.
  induction table as [|L rest IH]; intros Hwf.
  - eexists. reflexivity.
  - destruct IH as [recs Hrest].
    { intros L' t f c tl HL. apply Hwf. right. exact HL. }
    destruct (data_re_match L) as [[[[t f] c] tl]|] eqn:Hm.
    + destruct (Hwf L t f c tl (or_introl eq_refl) Hm) as (Hc & Hd & Hfl).
      rewrite (parse_lines_data_line F pyfloat _ _ _ _ _ _ _ _ Hm).
      destruct (py_int_cases c) as [[_ ->]|[Hlt _]]; [|lia].
      apply Nat.eqb_eq in Hc. rewrite Hc.
      destruct (floats_accepted F pyfloat _ Hfl) as [vs ->].
      rewrite Hrest. eexists. reflexivity.
    + exists recs. rewrite (parse_lines_skip F pyfloat _ _ _ _ Hm).
      exact Hrest.
Qed.

(** Without the bound on the channel digits the loop may also end in
    the [ValueError] of [int]. *)
Lemma parse_lines_well_counted nants npol : forall table,
  (forall L time field ch tail, In L table ->
     data_re_match L = Some (time, field, ch, tail) ->
     length (numeric_tokens tail) = nants * 2 * npol /\
     forall x, In x (numeric_tokens tail) -> pyfloat x <> None) ->
  (exists recs, parse nants npol table = ([], Ok (Some recs))) \/
  parse nants npol table = ([], Raise ValueError).
Proof.
  induction table as [|L rest IH]; intros Hwf.
  - left. eexists. reflexivity.
  - assert (Hrest : (exists recs, parse nants npol rest = ([], Ok (Some recs)))
                    \/ parse nants npol rest = ([], Raise ValueError)).
    { apply IH. intros L' t f c tl HL. apply Hwf. right. exact HL. }
    destruct (data_re_match L) as [[[[t f] c] tl]|] eqn:Hm.
    + destruct (Hwf L t f c tl (or_introl eq_refl) Hm) as (Hc & Hfl).
      rewrite (parse_lines_data_line F pyfloat _ _ _ _ _ _ _ _ Hm).
      destruct (py_int_cases c) as [[_ ->]|[_ ->]]; [|right; reflexivity].
      apply Nat.eqb_eq in Hc. rewrite Hc.
      destruct (floats_accepted F pyfloat _ Hfl) as [vs ->].
      destruct Hrest as [[recs ->]| ->]; [left|right];
        [eexists|]; reflexivity.
    + rewrite (parse_lines_skip F pyfloat _ _ _ _ Hm). exact Hrest.
Qed.

Lemma recorded_channels nants npol : forall gs recs,
  Forall2 (recorded nants npol) gs recs ->
  map rec_channel recs = map (fun g => int_of_digits (snd (fst g))) gs.
Proof.
  induction 1 as [|g r gs recs [Hc _] _ IH]; simpl; [reflexivity|].
  rewrite Hc, IH. reflexivity.
Qed.

Lemma recorded_shapes nants npol : forall gs recs,
  Forall2 (recorded nants npol) gs recs ->
  Forall (fun r => length (block_of r) = nants /\
                   Forall (fun row => length row = npol) (block_of r)) recs.
Proof.
  induction 1 as [|g r gs recs Hr _ IH]; constructor; [|exact IH].
  destruct (recorded_block nants npol g r Hr) as [H1 [H2 _]].
  split; assumption.
Qed.

Lemma data_lines_In table L g :
  In L table -> data_re_match L = Some g -> In g (data_lines table).
Proof.
  intros HL Hm. unfold data_lines. apply in_flat_map.
  exists L. split; [exact HL|]. rewrite Hm. left. reflexivity.
Qed.

(** C8 (as the code has it).  On a table whose data lines have the
    expected number of values and convert, with one record per channel
    also as numpy stores the channels (which is so whenever the channels
    are pairwise distinct and below 2^63: they are then stored
    unchanged), the parser returns a dataset: its channels are the stored
    channels of the table in ascending order, and the gain array is
    indexed [antenna][channel][polarization]: for the data line of
    channel [ch], antenna [a] and polarization [p], the item at
    [a], (rank of the stored [ch]), [p] is [amp * exp(1j * deg2rad(phs))]
    for the amplitude and phase read from tokens [2*(a*npol+p)] and
    [2*(a*npol+p)+1] of that line. *)
Theorem gains_by_antenna_channel_polarization
  (table : list string) (npol : nat) (names : list string) :
  get_antenna_names table = Ok names ->
  (forall L time field ch tail, In L table ->
     data_re_match L = Some (time, field, ch, tail) ->
     length (numeric_tokens tail) = length names * 2 * npol /\
     String.length ch <= int_max_str_digits /\
     forall x, In x (numeric_tokens tail) -> pyfloat x <> None) ->
  NoDup (np_array_int (table_channels table)) ->
  (Forall (fun c => (c < two_63)%N) (table_channels table) ->
   np_array_int (table_channels table) = table_channels table) /\
  exists w d,
  to_dict table npol = (w, Ok (Some d)) /\
  antennas d = names /\
  channel_dtype d = np_int_dtype (table_channels table) /\
  Permutation (channels d) (np_array_int (table_channels table)) /\
  StronglySorted N.lt (channels d) /\
  length (gains d) = length names /\
  forall L time field ch tail a p,
    In L table ->
    data_re_match L = Some (time, field, ch, tail) ->
    a < length names -> p < npol ->
    exists amp phs row chan,
      pyfloat (nth (2 * (a * npol + p)) (numeric_tokens tail) EmptyString)
      = Some amp /\
      pyfloat (nth (2 * (a * npol + p) + 1) (numeric_tokens tail) EmptyString)
      = Some phs /\
      nth_error (gains d) a = Some row /\
      nth_error row (rank (np_int_item (channel_dtype d) (int_of_digits ch))
                          (channels d))
      = Some chan /\
      nth_error chan p = Some (polar amp phs).
Proof.
  intros Hn Hwf Hnd.
  split; [intros Hsmall; apply np_array_int_small, Hsmall|].
  destruct (parse_lines_succeeds (length names) npol table Hwf) as [recs Hp].
  pose proof (parse_lines_records _ _ _ _ _ Hp) as HF.
  pose proof (recorded_channels _ _ _ _ HF) as Hch.
  fold (table_channels table) in Hch.
  rewrite <- Hch in *.
  destruct (assemble_gains (length names) npol names recs Hnd
              (recorded_shapes _ _ _ _ HF))
    as [w [d [Ha [Hant [Hdt [Hchan [sorted [Hg Hs]]]]]]]].
  exists w, d. split.
  { rewrite (caltable_to_dict_eq F C pyfloat polar _ npol names Hn), Hp, Ha.
    reflexivity. }
  set (keys := np_array_int (map rec_channel recs)) in *.
  assert (Hperm : Permutation (channels d) keys)
    by (rewrite Hchan; apply argsort_keys_perm).
  split; [exact Hant|]. split; [exact Hdt|]. split; [exact Hperm|].
  split.
  { rewrite Hchan. apply sorted_nodup_strict.
    - apply sorted_by_key_map, argsort_sorted.
    - eapply Permutation_NoDup;
        [apply Permutation_sym, argsort_keys_perm | exact Hnd]. }
  split; [rewrite Hg; unfold swapaxes01; rewrite length_map; apply length_seq|].
  intros L time field ch tail a p HL Hm Hlta Hltp.
  destruct (In_nth_error _ _ (data_lines_In _ _ _ HL Hm)) as [j Hj].
  destruct (Forall2_nth_error _ _ _ _ _ HF Hj) as [r [Hr Hrec]].
  destruct (recorded_block _ _ _ _ Hrec) as [_ [_ Hitem]].
  destruct (Hitem a p Hlta Hltp) as [amp [phs [rowa [Hamp [Hphs [Hra Hrp]]]]]].
  cbn [snd] in Hamp, Hphs.
  assert (Hjlt : j < length keys).
  { subst keys. rewrite np_array_int_length, length_map.
    apply nth_error_Some. congruence. }
  destruct (argsort_covers keys j Hjlt) as [k Hk].
  pose proof (argsort_rank keys k j Hnd Hk) as Hrank.
  assert (Hkey : nth j keys 0%N
                 = np_int_item (channel_dtype d) (int_of_digits ch)).
  { subst keys. unfold np_array_int. rewrite Hdt.
    erewrite nth_map_some; [|erewrite map_nth_error; [reflexivity|exact Hr]].
    destruct Hrec as [-> _]. reflexivity. }
  cbv beta in Hrank. rewrite Hkey in Hrank.
  rewrite (rank_perm _ _ _ Hperm).
  destruct (Forall2_nth_error _ _ _ _ _ Hs Hk) as [blk [Hblk [r' [Hr' ->]]]].
  rewrite Hr in Hr'. injection Hr' as <-.
  exists amp, phs, (map (fun b => nth a b []) sorted), rowa.
  split; [exact Hamp|]. split; [exact Hphs|]. split.
  - rewrite Hg. apply swapaxes01_nth_error, Hlta.
  - split; [|exact Hrp].
    rewrite Hrank, nth_error_map, Hblk. cbn [option_map].
    f_equal. apply nth_error_nth, Hra.
Qed.

End ReshapeFacts.

(** C8 as written fails: the table has one record per channel, the
    channels being 1, 2^63 and 2^63 + 1, yet no gain array is returned.
    numpy stores these channels as float64, where the last two are the
    same number; two distinct channels are counted for three blocks and
    the reshape raises [ValueError]. *)
Lemma gains_not_returned_for_wide_channels :
  NoDup (table_channels wide_channel_table) /\
  np_array_int (table_channels wide_channel_table)
  = [1; 9223372036854775808; 9223372036854775808]%N /\
  Symbolic.caltable_to_dict wide_channel_table 2 = ([], Raise ValueError).
Proof.
  split; [|split; vm_compute; reflexivity].
  vm_compute. repeat constructor; simpl; intuition discriminate.
Qed.

Lemma gains_by_antenna_channel_polarization_witness :
  get_antenna_names two_channel_table = Ok ["A0"; "A1"] /\
  NoDup (np_array_int (table_channels two_channel_table)) /\
  exists w d,
    Symbolic.caltable_to_dict two_channel_table 2 = (w, Ok (Some d)) /\
    antennas d = ["A0"; "A1"] /\
    StronglySorted N.lt (channels d).
Proof.
  assert (Hnd : NoDup (np_array_int (table_channels two_channel_table))).
  { assert (E : np_array_int (table_channels two_channel_table) = [1; 0]%N)
      by (vm_compute; reflexivity).
    rewrite E. repeat constructor; simpl; intuition discriminate. }
  split; [reflexivity|]. split; [exact Hnd|].
  destruct (gains_by_antenna_channel_polarization
              Symbolic.F Symbolic.C Symbolic.pyfloat Symbolic.polar
              two_channel_table 2 ["A0"; "A1"] eq_refl)
    as [_ [w [d [H1 [H2 [_ [_ [H3 _]]]]]]]].
  - intros L time field ch tail HL Hm. simpl in HL.
    destruct HL as [<-|[<-|[<-|[<-|[]]]]]; vm_compute in Hm;
      try discriminate; injection Hm as <- <- <- <-;
      (split; [reflexivity|]);
      (split; [apply Nat.leb_le; vm_compute; reflexivity|]);
      intros x Hx; vm_compute in Hx;
      repeat (destruct Hx as [<-|Hx]; [vm_compute; discriminate|]);
      destruct Hx.
  - exact Hnd.
  - exists w, d. repeat split; assumption.
Defined.

(** ** The pipeline on a report of two blocks *)

Example parse_two_block_report :
  parse_bandpass_text 2 two_block_report
  = ([SolutionsFound 2],
     Ok ["              | Ant = ea01 Ant = ea02";
         "Time     Field Chn| Amp Phs Amp Phs Amp Phs Amp Phs";
         "10:00:00 F0 0| 1.0 0.0 1.5 0.5F 3.0 0.0 3.5 0.5";
         "10:00:00 F0 1| 2.0 0.0 2.5 0.5 4.0 0.0 4.5 0.5"]).
Proof. vm_compute. reflexivity. Qed.

Example dataset_of_two_block_report :
  Symbolic.caltable_to_dict
    ["              | Ant = ea01 Ant = ea02";
     "Time     Field Chn| Amp Phs Amp Phs Amp Phs Amp Phs";
     "10:00:00 F0 0| 1.0 0.0 1.5 0.5F 3.0 0.0 3.5 0.5";
     "10:00:00 F0 1| 2.0 0.0 2.5 0.5 4.0 0.0 4.5 0.5"] 2
  = ([], Ok (Some {|
       gains := [[[("1.0", "0.0"); ("1.5", "0.5")];
                  [("2.0", "0.0"); ("2.5", "0.5")]];
                 [[("3.0", "0.0"); ("3.5", "0.5")];
                  [("4.0", "0.0"); ("4.5", "0.5")]]];
       antennas := ["ea01"; "ea02"];
       channels := [0%N; 1%N];
       channel_dtype := Int64;
       polarizations := ["pol0"; "pol1"];
       times := ["10:00:00"];
       fields := ["F0"] |})).
Proof. vm_compute. reflexivity. Qed.

(** * Further properties of the parser *)

(** ** Cutting a list of lines at marker positions *)

Lemma Forall_nth_error_intro {A : Type} (P : A -> Prop) (l : list A) :
  (forall q x, nth_error l q = Some x -> P x) -> Forall P l.
Proof.
  intros H. apply Forall_forall. intros x Hx.
  destruct (In_nth_error _ _ Hx) as [q Hq]. eapply H, Hq.
Qed.

Lemma slice_bound_Z len (z : Z) :
  (0 <= z)%Z -> slice_bound len z = Nat.min len (Z.to_nat z).
Proof.
  intros Hz. unfold slice_bound.
  destruct (z <? 0)%Z eqn:E; [apply Z.ltb_lt in E; lia | reflexivity].
Qed.

Lemma marker_indices_In marker : forall lines i0 z,
  In z (marker_indices marker lines i0) <->
  exists p L, z = (i0 + Z.of_nat p)%Z /\ nth_error lines p = Some L /\
              contains marker L = true.
Proof.
  induction lines as [|L0 rest IH]; intros i0 z; simpl.
  - split; [contradiction|]. intros (p & L & _ & H & _).
    destruct p; discriminate.
  - split.
    + intros H.
      assert (Hrest : In z (marker_indices marker rest (i0 + 1)) ->
                      exists p L, z = (i0 + Z.of_nat p)%Z /\
                        nth_error (L0 :: rest) p = Some L /\
                        contains marker L = true).
      { intros Hin. apply IH in Hin. destruct Hin as (p & L & -> & Hp & HL).
        exists (S p), L. repeat split; [lia | exact Hp | exact HL]. }
      destruct (contains marker L0) eqn:E; [|auto].
      destruct H as [<-|H]; [|auto].
      exists 0, L0. repeat split; [simpl; lia | exact E].
    + intros (p & L & -> & Hp & HL). destruct p as [|p]; simpl in Hp.
      * injection Hp as ->. rewrite HL. left. simpl. lia.
      * assert (Hin : In (i0 + Z.of_nat (S p))%Z
                         (marker_indices marker rest (i0 + 1))).
        { apply IH. exists p, L. repeat split; [lia | exact Hp | exact HL]. }
        destruct (contains marker L0); [right|]; exact Hin.
Qed.

Lemma marker_indices_sorted marker : forall lines i0,
  StronglySorted Z.lt (marker_indices marker lines i0).
Proof.
  induction lines as [|L0 rest IH]; intros i0; simpl; [constructor|].
  destruct (contains marker L0); [|apply IH].
  constructor; [apply IH|]. apply Forall_forall. intros z Hz.
  apply marker_indices_In in Hz. destruct Hz as (p & _ & -> & _). lia.
Qed.

Lemma index_last {A : Type} (d : A) : forall l : list A,
  l <> [] -> index l (-1) = Ok (last l d).
Proof.
  intros l Hl. unfold index. cbn [Z.ltb Z.compare].
  assert (Hn : 0 < length l) by (destruct l; [congruence | simpl; lia]).
  destruct ((0 <=? -1 + Z.of_nat (length l))
            && (-1 + Z.of_nat (length l) <? Z.of_nat (length l)))%Z eqn:E.
  - replace (Z.to_nat (-1 + Z.of_nat (length l))) with (length l - 1) by lia.
    clear E Hn. induction l as [|x [|y tl] IH]; [congruence|reflexivity|].
    specialize (IH ltac:(discriminate)).
    replace (length (x :: y :: tl) - 1) with (S (length (y :: tl) - 1))
      by (simpl; lia).
    cbn [nth_error]. exact IH.
  - apply andb_false_iff in E. destruct E as [E|E];
      [apply Z.leb_gt in E | apply Z.ltb_ge in E]; lia.
Qed.

Lemma last_cons_default {A : Type} : forall (l : list A) x d d',
  last (x :: l) d = last (x :: l) d'.
Proof.
  induction l as [|y tl IH]; intros x d d'; [reflexivity|].
  change (last (y :: tl) d = last (y :: tl) d'). apply IH.
Qed.

Lemma spans_between_length lines : forall idx,
  length (spans_between lines idx) = length idx - 1.
Proof.
  induction idx as [|a [|b tl] IH]; try reflexivity.
  change (spans_between lines (a :: b :: tl))
    with (slice lines a b :: spans_between lines (b :: tl)).
  cbn [length] in *. rewrite IH. lia.
Qed.

(** Consecutive spans and the final span put together give back the
    lines from the first cut on. *)
Lemma spans_between_concat lines : forall idx a,
  (0 <= a)%Z -> StronglySorted Z.lt (a :: idx) ->
  concat (spans_between lines (a :: idx)) ++ slice_from lines (last (a :: idx) a)
  = slice_from lines a.
Proof.
  induction idx as [|b tl IH]; intros a Ha Hs.
  - reflexivity.
  - inversion Hs as [|? ? Hs' Hall]; subst.
    assert (Hab : (a < b)%Z) by (inversion Hall; assumption).
    change (spans_between lines (a :: b :: tl))
      with (slice lines a b :: spans_between lines (b :: tl)).
    cbn [concat].
    change (last (a :: b :: tl) a) with (last (b :: tl) a).
    rewrite <- app_assoc.
    rewrite (last_cons_default tl b a b).
    rewrite IH by (try lia; exact Hs').
    unfold slice, slice_from. rewrite !slice_bound_Z by lia.
    set (na := Nat.min (length lines) (Z.to_nat a)).
    set (nb := Nat.min (length lines) (Z.to_nat b)).
    assert (Hn : na <= nb) by (subst na nb; lia).
    replace nb with ((nb - na) + na) at 2 by lia.
    rewrite <- skipn_skipn. apply firstn_skipn.
Qed.

(** Every span cut at the positions of the lines satisfying [f] starts
    with such a line and holds no other. *)
Lemma spans_between_opened (f : string -> bool) lines : forall idx a,
  StronglySorted Z.lt (a :: idx) ->
  Forall (fun z => (0 <= z < Z.of_nat (length lines))%Z) (a :: idx) ->
  (forall p L, nth_error lines p = Some L -> (a <= Z.of_nat p)%Z ->
     (f L = true <-> In (Z.of_nat p) (a :: idx))) ->
  Forall (opened_by f)
    (spans_between lines (a :: idx) ++ [slice_from lines (last (a :: idx) a)]).
Proof.
  induction idx as [|b tl IH]; intros a Hs Hr Hm.
  - cbn [spans_between app last]. constructor; [|constructor].
    inversion Hr as [|? ? Ha _]; subst.
    unfold slice_from. rewrite slice_bound_Z by lia.
    rewrite Nat.min_r by lia.
    destruct (skipn (Z.to_nat a) lines) as [|L rest] eqn:E.
    { apply (f_equal (@length _)) in E. rewrite length_skipn in E.
      simpl in E. lia. }
    assert (Hnth : forall q, nth_error (L :: rest) q
                             = nth_error lines (Z.to_nat a + q)).
    { intros q. rewrite <- E, nth_error_skipn. reflexivity. }
    exists L, rest. split; [reflexivity|]. split.
    + apply (Hm (Z.to_nat a) L); [|lia|left; lia].
      rewrite <- (Nat.add_0_r (Z.to_nat a)), <- Hnth. reflexivity.
    + apply Forall_nth_error_intro. intros q x Hq.
      destruct (f x) eqn:Hx; [|reflexivity]. exfalso.
      assert (Hp : nth_error lines (Z.to_nat a + S q) = Some x)
        by (rewrite <- Hnth; exact Hq).
      apply (Hm _ _ Hp) in Hx; [|lia].
      destruct Hx as [Hx|[]]. lia.
  - inversion Hs as [|? ? Hs' Hall]; subst.
    inversion Hr as [|? ? Ha Hr']; subst.
    assert (Hb : (0 <= b < Z.of_nat (length lines))%Z)
      by (inversion Hr'; assumption).
    assert (Hab : (a < b)%Z) by (inversion Hall; assumption).
    change (spans_between lines (a :: b :: tl))
      with (slice lines a b :: spans_between lines (b :: tl)).
    cbn [app].
    change (last (a :: b :: tl) a) with (last (b :: tl) a).
    rewrite (last_cons_default tl b a b).
    constructor.
    + unfold slice. rewrite !slice_bound_Z by lia.
      rewrite !Nat.min_r by lia.
      destruct (skipn (Z.to_nat a) lines) as [|L rest] eqn:E.
      { apply (f_equal (@length _)) in E. rewrite length_skipn in E.
        simpl in E. lia. }
      assert (Hnth : forall q, nth_error (L :: rest) q
                               = nth_error lines (Z.to_nat a + q)).
      { intros q. rewrite <- E, nth_error_skipn. reflexivity. }
      replace (Z.to_nat b - Z.to_nat a) with (S (Z.to_nat b - Z.to_nat a - 1))
        by lia.
      cbn [firstn]. exists L, (firstn (Z.to_nat b - Z.to_nat a - 1) rest).
      split; [reflexivity|]. split.
      * apply (Hm (Z.to_nat a) L); [|lia|left; lia].
        rewrite <- (Nat.add_0_r (Z.to_nat a)), <- Hnth. reflexivity.
      * apply Forall_nth_error_intro. intros q x Hq.
        destruct (f x) eqn:Hx; [|reflexivity]. exfalso.
        rewrite nth_error_firstn in Hq.
        destruct (Nat.ltb_spec q (Z.to_nat b - Z.to_nat a - 1)) as [Hlt|];
          [|discriminate].
        assert (Hp : nth_error lines (Z.to_nat a + S q) = Some x)
          by (rewrite <- Hnth; exact Hq).
        apply (Hm _ _ Hp) in Hx; [|lia].
        destruct Hx as [Hx|[Hx|Hx]]; [lia|lia|].
        inversion Hs' as [|? ? _ Hbt]; subst.
        rewrite Forall_forall in Hbt. specialize (Hbt _ Hx). lia.
    + apply IH; [exact Hs' | exact Hr' |].
      intros p L HL Hp. rewrite (Hm p L HL) by lia.
      split; [intros [H|H]; [lia | exact H] | intros H; right; exact H].
Qed.

Lemma marker_indices_range marker lines z :
  In z (marker_indices marker lines 0) ->
  (0 <= z < Z.of_nat (length lines))%Z.
Proof.
  intros H. apply marker_indices_In in H. destruct H as (p & L & -> & Hp & _).
  assert (p < length lines) by (apply nth_error_Some; congruence). lia.
Qed.

(** ** Section Extractor: the blocks of a report *)

(** X1.  On a report with at least one marker line [extract_solutions]
    returns as many blocks as there are marker lines; the blocks, put end
    to end, are the report from its first marker line on (the lines
    before it, which hold no marker, are dropped and nothing else is),
    and every block starts with a marker line and holds no other. *)
Theorem extract_solutions_blocks (lines : list string) :
  1 <= marker_count lines ->
  exists pre blocks,
    extract_solutions lines = Ok blocks /\
    length blocks = marker_count lines /\
    lines = pre ++ concat blocks /\
    Forall (fun L => contains "SpwID" L = false) pre /\
    Forall (opened_by (contains "SpwID")) blocks.
Proof.
  intros Hc. unfold marker_count in *.
  rewrite <- (marker_indices_length "SpwID" lines 0) in *.
  pose proof (marker_indices_sorted "SpwID" lines 0) as Hs.
  pose proof (marker_indices_range "SpwID" lines) as Hr.
  pose proof (marker_indices_In "SpwID" lines 0) as HIn.
  unfold extract_solutions.
  destruct (marker_indices "SpwID" lines 0) as [|a idx] eqn:E;
    [simpl in Hc; lia|].
  assert (Ha : (0 <= a < Z.of_nat (length lines))%Z)
    by (apply Hr; left; reflexivity).
  assert (Hext : (if (1 <? length (a :: idx))%nat
                  then last_b <- index (a :: idx) (-1) ;;
                       Ok (spans_between lines (a :: idx)
                           ++ [slice_from lines last_b])
                  else first_b <- index (a :: idx) 0 ;;
                       Ok [slice_from lines first_b])
                 = Ok (spans_between lines (a :: idx)
                       ++ [slice_from lines (last (a :: idx) a)])).
  { destruct idx as [|b tl]; [reflexivity|].
    change ((1 <? length (a :: b :: tl))%nat) with true. cbv iota.
    rewrite (index_last a) by discriminate. reflexivity. }
  rewrite Hext.
  exists (firstn (Z.to_nat a) lines),
         (spans_between lines (a :: idx)
          ++ [slice_from lines (last (a :: idx) a)]).
  split; [reflexivity|]. split.
  { rewrite length_app, spans_between_length. simpl. lia. }
  split.
  { rewrite concat_app. cbn [concat]. rewrite app_nil_r.
    rewrite spans_between_concat by (try lia; exact Hs).
    unfold slice_from. rewrite slice_bound_Z, Nat.min_r by lia.
    symmetry. apply firstn_skipn. }
  split.
  { apply Forall_nth_error_intro. intros q x Hq.
    destruct (contains "SpwID" x) eqn:Hx; [|reflexivity]. exfalso.
    rewrite nth_error_firstn in Hq.
    destruct (Nat.ltb_spec q (Z.to_nat a)) as [Hlt|]; [|discriminate].
    assert (Hin : In (Z.of_nat q) (a :: idx)).
    { apply HIn. exists q, x. split; [lia|]. split; [exact Hq | exact Hx]. }
    destruct Hin as [Hin|Hin]; [lia|].
    inversion Hs as [|? ? _ Hall]; subst.
    rewrite Forall_forall in Hall. specialize (Hall _ Hin). lia. }
  apply spans_between_opened; [exact Hs | apply Forall_forall; exact Hr |].
  intros p L HL _. split.
  - intros HfL. apply HIn. exists p, L.
    split; [lia|]. split; [exact HL | exact HfL].
  - intros Hin. apply HIn in Hin. destruct Hin as (p' & L' & Hz & Hp' & HL').
    assert (p' = p) by lia. subst p'. rewrite HL in Hp'.
    injection Hp' as <-. exact HL'.
Qed.

Lemma extract_solutions_blocks_witness :
  1 <= marker_count two_block_report /\
  exists pre blocks,
    extract_solutions two_block_report = Ok blocks /\
    length blocks = marker_count two_block_report /\
    two_block_report = pre ++ concat blocks.
Proof.
  assert (H : 1 <= marker_count two_block_report) by (vm_compute; lia).
  split; [exact H|].
  destruct (extract_solutions_blocks two_block_report H)
    as (pre & blocks & H1 & H2 & H3 & _).
  exists pre, blocks. repeat split; assumption.
Defined.

(** ** Table Segmenter *)

Lemma section_starts_marker : forall sol i0,
  section_starts sol i0
  = map (fun z => (z - 1)%Z) (marker_indices "Time" sol i0).
Proof.
  induction sol as [|L rest IH]; intros i0; simpl; [reflexivity|].
  destruct (contains "Time" L); simpl; rewrite IH; reflexivity.
Qed.

Lemma sorted_map_pred : forall l : list Z,
  StronglySorted Z.lt l -> StronglySorted Z.lt (map (fun z => (z - 1)%Z) l).
Proof.
  induction l as [|x l IH]; intros H; simpl; [constructor|].
  inversion H as [|? ? Hl Hx]; subst. constructor; [apply IH, Hl|].
  apply Forall_map. eapply Forall_impl; [|exact Hx]. cbv beta. intros; lia.
Qed.

Lemma spans_between_nonempty (lines : list string) : forall idx a,
  StronglySorted Z.lt (a :: idx) ->
  Forall (fun z => (0 <= z < Z.of_nat (length lines))%Z) (a :: idx) ->
  Forall (fun s => s <> [])
    (spans_between lines (a :: idx) ++ [slice_from lines (last (a :: idx) a)]).
Proof.
  induction idx as [|b tl IH]; intros a Hs Hr.
  - cbn [spans_between app last]. constructor; [|constructor].
    inversion Hr as [|? ? Ha _]; subst. intros E.
    apply (f_equal (@length _)) in E. unfold slice_from in E.
    rewrite length_skipn, slice_bound_Z in E by lia. simpl in E. lia.
  - inversion Hs as [|? ? Hs' Hall]; subst.
    inversion Hr as [|? ? Ha Hr']; subst.
    assert (Hb : (0 <= b < Z.of_nat (length lines))%Z)
      by (inversion Hr'; assumption).
    assert (Hab : (a < b)%Z) by (inversion Hall; assumption).
    change (spans_between lines (a :: b :: tl))
      with (slice lines a b :: spans_between lines (b :: tl)).
    cbn [app].
    change (last (a :: b :: tl) a) with (last (b :: tl) a).
    rewrite (last_cons_default tl b a b).
    constructor; [|apply IH; assumption].
    intros E. apply (f_equal (@length _)) in E. unfold slice in E.
    rewrite length_firstn, length_skipn, !slice_bound_Z in E by lia.
    simpl in E. lia.
Qed.

(** X2.  [split_into_sections] fails, with [IndexError], exactly on the
    blocks without any "Time" line; on every other block it returns one
    Section per "Time" line. *)
Theorem split_into_sections_count (sol : list string) :
  (time_line_count sol = 0 <-> split_into_sections sol = Raise IndexError) /\
  (1 <= time_line_count sol ->
   exists sections, split_into_sections sol = Ok sections /\
                    length sections = time_line_count sol).
Proof.
  unfold split_into_sections, time_line_count.
  rewrite <- (marker_indices_length "Time" sol 0), section_starts_marker.
  destruct (marker_indices "Time" sol 0) as [|a idx] eqn:E.
  - split; [split; reflexivity | simpl; lia].
  - assert (Hl : index (map (fun z => (z - 1)%Z) (a :: idx)) (-1)
                 = Ok (last (map (fun z => (z - 1)%Z) (a :: idx)) 0%Z))
      by (apply index_last; discriminate).
    rewrite Hl. cbn [bind]. split.
    + split; [simpl; lia | discriminate].
    + intros _. eexists. split; [reflexivity|].
      rewrite length_app, spans_between_length, length_map. simpl. lia.
Qed.

Lemma split_into_sections_count_witness :
  1 <= time_line_count repeated_header_block /\
  exists sections,
    split_into_sections repeated_header_block = Ok sections /\
    length sections = time_line_count repeated_header_block.
Proof.
  assert (H : 1 <= time_line_count repeated_header_block)
    by (vm_compute; lia).
  split; [exact H|].
  exact (proj2 (split_into_sections_count repeated_header_block) H).
Defined.

Lemma skipn_nth_error {A : Type} : forall (k : nat) (l : list A) (x : A),
  nth_error l k = Some x -> skipn k l = x :: skipn (S k) l.
Proof.
  induction k as [|k IH]; intros [|y l] x H; try discriminate.
  - injection H as ->. reflexivity.
  - simpl in H. cbn [skipn]. apply IH, H.
Qed.

(** X3.  When the block has a "Time" line and its first line is not one,
    the Sections returned are non-empty and, put end to end, they are the
    block from the line before its first "Time" line on: they start with
    that line, which holds no "Time", followed by the first "Time" line,
    and the lines dropped in front hold no "Time" either. *)
Theorem split_into_sections_partition (sol : list string) :
  1 <= time_line_count sol ->
  contains "Time" (hd EmptyString sol) = false ->
  exists pre header time_line rest sections,
    split_into_sections sol = Ok sections /\
    sol = pre ++ concat sections /\
    concat sections = header :: time_line :: rest /\
    Forall (fun L => contains "Time" L = false) pre /\
    contains "Time" header = false /\
    contains "Time" time_line = true /\
    Forall (fun s => s <> []) sections.
Proof.
  intros Hc Hhd. unfold split_into_sections, time_line_count in *.
  rewrite <- (marker_indices_length "Time" sol 0) in Hc.
  rewrite section_starts_marker.
  pose proof (marker_indices_sorted "Time" sol 0) as Hs.
  pose proof (marker_indices_range "Time" sol) as Hr.
  pose proof (marker_indices_In "Time" sol 0) as HIn.
  destruct (marker_indices "Time" sol 0) as [|a idx] eqn:E;
    [simpl in Hc; lia|].
  assert (Hfirst : exists T, nth_error sol (Z.to_nat a) = Some T /\
                             contains "Time" T = true).
  { assert (Hin : In a (a :: idx)) by (left; reflexivity).
    apply HIn in Hin. destruct Hin as (p & T & Hz & Hp & HT).
    exists T. replace (Z.to_nat a) with p by lia. split; assumption. }
  destruct Hfirst as (T & HT & HTime).
  assert (Ha : (1 <= a < Z.of_nat (length sol))%Z).
  { assert (Hin : In a (a :: idx)) by (left; reflexivity).
    pose proof (Hr a Hin) as Hra.
    destruct (Z.to_nat a) as [|p] eqn:Ep; [|lia].
    destruct sol as [|L0 rest]; [discriminate|]. simpl in HT, Hhd.
    injection HT as ->. congruence. }
  assert (Hbefore : forall q x, q < Z.to_nat a -> nth_error sol q = Some x ->
                                contains "Time" x = false).
  { intros q x Hq Hx.
    destruct (contains "Time" x) eqn:Ex; [|reflexivity]. exfalso.
    assert (Hin : In (Z.of_nat q) (a :: idx)).
    { apply HIn. exists q, x. split; [lia|]. split; [exact Hx | exact Ex]. }
    destruct Hin as [Hin|Hin]; [lia|].
    inversion Hs as [|? ? _ Hall]; subst.
    rewrite Forall_forall in Hall. specialize (Hall _ Hin). lia. }
  set (n := Z.to_nat (a - 1)).
  assert (Hn : S n = Z.to_nat a) by (subst n; lia).
  destruct (nth_error sol n) as [h|] eqn:Hh;
    [|apply nth_error_None in Hh; lia].
  set (starts := map (fun z => (z - 1)%Z) (a :: idx)).
  assert (Hss : StronglySorted Z.lt starts) by (apply sorted_map_pred, Hs).
  assert (Hrs : Forall (fun z => (0 <= z < Z.of_nat (length sol))%Z) starts).
  { apply Forall_map, Forall_forall. intros z Hz. pose proof (Hr z Hz).
    assert (a <= z)%Z; [|lia].
    destruct Hz as [->|Hz]; [lia|].
    inversion Hs as [|? ? _ Hall]; subst.
    rewrite Forall_forall in Hall. specialize (Hall _ Hz). lia. }
  assert (Hl : index starts (-1) = Ok (last starts (a - 1)%Z))
    by (apply index_last; discriminate).
  rewrite Hl. cbn [bind]. subst starts. cbn [map] in *.
  assert (Hcat : concat (spans_between sol ((a - 1)%Z
                           :: map (fun z => (z - 1)%Z) idx)
                         ++ [slice_from sol
                               (last ((a - 1)%Z
                                      :: map (fun z => (z - 1)%Z) idx)
                                     (a - 1)%Z)])
                 = skipn n sol).
  { rewrite concat_app. cbn [concat]. rewrite app_nil_r.
    rewrite spans_between_concat by (try lia; exact Hss).
    unfold slice_from. rewrite slice_bound_Z, Nat.min_r by lia.
    reflexivity. }
  exists (firstn n sol), h, T, (skipn (S (S n)) sol). eexists.
  split; [reflexivity|]. rewrite Hcat. split.
  { symmetry. apply firstn_skipn. }
  split.
  { rewrite (skipn_nth_error n sol h Hh). f_equal.
    apply skipn_nth_error. rewrite Hn. exact HT. }
  split.
  { apply Forall_nth_error_intro. intros q x Hq.
    rewrite nth_error_firstn in Hq.
    destruct (Nat.ltb_spec q n) as [Hlt|]; [|discriminate].
    apply (Hbefore q x); [lia | exact Hq]. }
  split; [apply (Hbefore n h); [lia | exact Hh]|].
  split; [exact HTime|].
  apply spans_between_nonempty; assumption.
Qed.

Lemma split_into_sections_partition_witness :
  1 <= time_line_count repeated_header_block /\
  contains "Time" (hd EmptyString repeated_header_block) = false /\
  exists pre header time_line rest sections,
    split_into_sections repeated_header_block = Ok sections /\
    repeated_header_block = pre ++ concat sections /\
    concat sections = header :: time_line :: rest.
Proof.
  assert (H : 1 <= time_line_count repeated_header_block)
    by (vm_compute; lia).
  split; [exact H|]. split; [reflexivity|].
  destruct (split_into_sections_partition repeated_header_block H eq_refl)
    as (pre & header & time_line & rest & sections & H1 & H2 & H3 & _).
  exists pre, header, time_line, rest, sections.
  split; [exact H1|]. split; assumption.
Defined.

(** ** Antenna names *)

Lemma strip_prefix_app p : forall s r,
  strip_prefix p s = Some r -> s = (p ++ r)%string.
Proof.
  induction p as [|a p IH]; intros s r H; simpl in H.
  - injection H as ->. reflexivity.
  - destruct s as [|b s]; [discriminate|].
    destruct (Ascii.eqb_spec a b) as [->|]; [|discriminate].
    simpl. f_equal. apply IH, H.
Qed.

Lemma strip_prefix_same p r : strip_prefix p (p ++ r) = Some r.
Proof.
  induction p as [|a p IH]; simpl; [reflexivity|].
  rewrite Ascii.eqb_refl. exact IH.
Qed.

Lemma span_spec f : forall s h t,
  span f s = (h, t) -> s = (h ++ t)%string /\ string_forall f h = true.
Proof.
  induction s as [|c s IH]; intros h t H; simpl in H.
  - injection H as <- <-. split; reflexivity.
  - destruct (f c) eqn:Hc.
    + destruct (span f s) as [h' t'] eqn:E. injection H as <- <-.
      destruct (IH h' t' eq_refl) as [-> Hh]. split; [reflexivity|].
      simpl. rewrite Hc. exact Hh.
    + injection H as <- <-. split; reflexivity.
Qed.

(** A run of characters of the class, followed by nothing or by a
    character outside it, is what [span] takes. *)
Lemma span_app f h : forall t,
  string_forall f h = true ->
  match t with EmptyString => True | String c _ => f c = false end ->
  span f (h ++ t) = (h, t).
Proof.
  induction h as [|c h IH]; intros t Hh Ht; simpl in *.
  - destruct t as [|c t]; [reflexivity|]. simpl. rewrite Ht. reflexivity.
  - apply andb_true_iff in Hh. destruct Hh as [Hc Hh].
    rewrite Hc, (IH t Hh Ht). reflexivity.
Qed.

Lemma prefix_app a : forall b, prefix a (a ++ b) = true.
Proof.
  induction a as [|c a IH]; intros b; simpl; [destruct b; reflexivity|].
  destruct (ascii_dec c c); [apply IH | congruence].
Qed.

Lemma match_ant_spec s name n :
  match_ant s = Some (name, n) ->
  name <> EmptyString /\ string_forall is_alnum name = true /\
  prefix ("Ant = " ++ name) s = true.
Proof.
  unfold match_ant. intros H.
  destruct (strip_prefix "Ant = " s) as [r|] eqn:Hr; [|discriminate].
  destruct (span is_alnum r) as [h t] eqn:Hs.
  destruct h as [|c h]; [discriminate|]. injection H as <- _.
  apply strip_prefix_app in Hr. apply span_spec in Hs.
  destruct Hs as [-> Hh]. subst s. split; [discriminate|].
  split; [exact Hh|].
  replace ("Ant = " ++ (String c h ++ t))%string
    with (("Ant = " ++ String c h) ++ t)%string by reflexivity.
  apply prefix_app.
Qed.

Lemma contains_tail needle c s :
  contains needle s = true -> contains needle (String c s) = true.
Proof. intros H. simpl. rewrite H. apply orb_true_r. Qed.

Lemma contains_prefix needle s :
  prefix needle s = true -> contains needle s = true.
Proof. intros H. destruct s; simpl in *; rewrite H; reflexivity. Qed.

Lemma findall_ant_names : forall s skip n,
  In n (findall_ant s skip) ->
  n <> EmptyString /\ string_forall is_alnum n = true /\
  contains ("Ant = " ++ n) s = true.
Proof.
  induction s as [|c s IH]; intros skip n H; [contradiction|].
  cbn [findall_ant] in H.
  assert (Hrec : forall k, In n (findall_ant s k) ->
            n <> EmptyString /\ string_forall is_alnum n = true /\
            contains ("Ant = " ++ n) (String c s) = true).
  { intros k Hk. destruct (IH k n Hk) as (H1 & H2 & H3).
    repeat split; try assumption. apply contains_tail, H3. }
  destruct skip as [|k]; [|eapply Hrec, H].
  destruct (match_ant (String c s)) as [[name m]|] eqn:Hm; [|eapply Hrec, H].
  destruct H as [<-|H]; [|eapply Hrec, H].
  destruct (match_ant_spec _ _ _ Hm) as (H1 & H2 & H3).
  repeat split; try assumption. apply contains_prefix, H3.
Qed.

(** X4.  [get_antenna_names] reads the first line of the section only
    and fails, with [IndexError], on the empty section alone.  Every name
    it returns is a non-empty run of characters of [a-zA-Z0-9] that stands
    in the header line right after "Ant = ". *)
Theorem get_antenna_names_wellformed :
  get_antenna_names [] = Raise IndexError /\
  forall header rest,
    exists names,
      get_antenna_names (header :: rest) = Ok names /\
      get_antenna_names [header] = Ok names /\
      Forall (fun n => n <> EmptyString /\
                       string_forall is_alnum n = true /\
                       contains ("Ant = " ++ n) header = true) names.
Proof.
  split; [reflexivity|]. intros header rest.
  exists (findall_ant header 0).
  split; [reflexivity|]. split; [reflexivity|].
  apply Forall_forall. intros n Hn. eapply findall_ant_names, Hn.
Qed.

Lemma findall_ant_skip a : forall b,
  findall_ant (a ++ b) (String.length a) = findall_ant b 0.
Proof.
  induction a as [|c a IH]; intros b; simpl.
  - destruct b; reflexivity.
  - apply IH.
Qed.

Lemma findall_ant_header_step n t :
  n <> EmptyString -> string_forall is_alnum n = true ->
  findall_ant ("Ant = " ++ n ++ " " ++ t) 0 = n :: findall_ant t 0.
Proof.
  intros Hne Hal.
  assert (Hm : match_ant ("Ant = " ++ n ++ " " ++ t)
               = Some (n, 6 + String.length n)).
  { unfold match_ant. rewrite strip_prefix_same.
    rewrite (span_app is_alnum n (" " ++ t) Hal) by reflexivity.
    destruct n; [congruence | reflexivity]. }
  change ("Ant = " ++ n ++ " " ++ t)%string
    with (String "A" ("nt = " ++ n ++ " " ++ t)) in *.
  cbn [findall_ant]. rewrite Hm. f_equal.
  replace (6 + String.length n - 1) with (String.length ("nt = " ++ n))
    by (simpl; lia).
  replace ("nt = " ++ n ++ " " ++ t)%string
    with (("nt = " ++ n) ++ (" " ++ t))%string.
  - rewrite findall_ant_skip. reflexivity.
  - reflexivity.
Qed.

(** X5.  Writing a header line for a list of names and reading it back
    gives the names: for non-empty alphanumeric names, each written after
    "Ant = " and followed by a blank, [get_antenna_names] returns the
    list in its order, whatever lines follow the header. *)
Theorem get_antenna_names_of_header (names rest : list string) :
  Forall (fun n => n <> EmptyString /\ string_forall is_alnum n = true)
         names ->
  get_antenna_names (antenna_header names :: rest) = Ok names.
Proof.
  intros H. unfold get_antenna_names. rewrite index_0_cons. cbn [bind].
  f_equal. induction H as [|n tl [Hne Hal] _ IH]; [reflexivity|].
  cbn [antenna_header]. rewrite findall_ant_header_step by assumption.
  f_equal. exact IH.
Qed.

Lemma get_antenna_names_of_header_witness :
  Forall (fun n => n <> EmptyString /\ string_forall is_alnum n = true)
         ["ea01"; "ea02"; "N3"] /\
  get_antenna_names (antenna_header ["ea01"; "ea02"; "N3"] :: ["Time"])
  = Ok ["ea01"; "ea02"; "N3"].
Proof.
  assert (H : Forall (fun n => n <> EmptyString /\
                               string_forall is_alnum n = true)
                     ["ea01"; "ea02"; "N3"]).
  { repeat constructor; discriminate. }
  split; [exact H | apply get_antenna_names_of_header, H].
Defined.

(** ** Newline removal *)

Lemma rstrip_newline_split : forall s,
  exists k, s = (rstrip_newline s ++ newlines k)%string.
Proof.
  induction s as [|c s [k IH]]; [exists 0; reflexivity|].
  cbn [rstrip_newline].
  destruct (Ascii.eqb_spec c newline) as [->|Hc];
    destruct (rstrip_newline s) as [|d r] eqn:E; cbn [andb is_empty].
  - exists (S k). simpl in *. rewrite IH at 1. reflexivity.
  - exists k. simpl in *. rewrite IH at 1. reflexivity.
  - exists k. simpl in *. rewrite IH at 1. reflexivity.
  - exists k. simpl in *. rewrite IH at 1. reflexivity.
Qed.

Lemma rstrip_newline_end : forall s,
  ends_with_newline (rstrip_newline s) = false.
Proof.
  induction s as [|c s IH]; [reflexivity|].
  cbn [rstrip_newline].
  destruct (Ascii.eqb_spec c newline) as [->|Hc];
    destruct (rstrip_newline s) as [|d r] eqn:E; cbn [andb is_empty];
    try reflexivity; try exact IH.
  simpl. apply Ascii.eqb_neq, Hc.
Qed.

Lemma rstrip_newline_fixed : forall r,
  ends_with_newline r = false -> rstrip_newline r = r.
Proof.
  induction r as [|c r IH]; intros H; [reflexivity|].
  cbn [rstrip_newline].
  destruct r as [|d r].
  - simpl in *. rewrite H. reflexivity.
  - rewrite IH by exact H. cbn [is_empty]. rewrite andb_false_r. reflexivity.
Qed.

(** X6.  [remove_newline_chars] keeps the number and order of lines;
    each line loses its trailing newline characters, all of them and
    nothing else, so that no returned line ends in a newline; applying it
    again changes nothing. *)
Theorem remove_newline_chars_spec (solution : list string) :
  Forall2 (fun s r => (exists k, s = (r ++ newlines k)%string) /\
                      ends_with_newline r = false)
          solution (remove_newline_chars solution) /\
  remove_newline_chars (remove_newline_chars solution)
  = remove_newline_chars solution.
Proof.
  unfold remove_newline_chars. split.
  - induction solution as [|s rest IH]; simpl; constructor; [|exact IH].
    split; [apply rstrip_newline_split | apply rstrip_newline_end].
  - rewrite map_map. apply map_ext. intros s.
    apply rstrip_newline_fixed, rstrip_newline_end.
Qed.

(** ** Header Deduplicator: what is returned *)

Lemma Subseq_length {A : Type} (l1 l2 : list A) :
  Subseq l1 l2 -> length l1 <= length l2.
Proof. induction 1; simpl; lia. Qed.

(** X7.  The deduplicator reads no line outside the block: whatever
    header it is started with, the only exception it can end in is
    [RecursionError], and it returns when the recursion limit allows
    twice as many nested calls as the block has lines.  Started without
    a header, as the pipeline does, whatever it returns is the block with
    some lines left out, the others in their order, so the block never
    grows; as many nested calls as the block has lines are then
    enough. *)
Theorem remove_duplicate_heders_returns (depth : nat) (sol : list string) :
  (forall last_header e,
     remove_duplicate_heders depth sol last_header = Raise e ->
     e = RecursionError) /\
  (forall last_header, 2 * length sol < depth ->
     exists r, remove_duplicate_heders depth sol last_header = Ok r) /\
  (forall r, remove_duplicate_heders depth sol None = Ok r ->
     Subseq r sol /\ length r <= length sol) /\
  (length sol <= depth ->
   exists r, remove_duplicate_heders depth sol None = Ok r).
Proof.
  split; [intros last_header e; apply remove_duplicate_heders_raises|].
  split; [intros last_header; apply remove_duplicate_heders_total|].
  split.
  - intros r Hr.
    assert (Hs : Subseq r sol)
      by (eapply remove_duplicate_heders_depth_subseq, Hr).
    split; [exact Hs | apply Subseq_length, Hs].
  - apply remove_duplicate_heders_depth_enough.
Qed.

Lemma remove_duplicate_heders_returns_witness :
  length repeated_header_block <= 8 /\
  exists r, remove_duplicate_heders 8 repeated_header_block None = Ok r.
Proof.
  assert (H : length repeated_header_block <= 8) by (simpl; lia).
  split; [exact H|].
  exact (proj2 (proj2 (proj2
           (remove_duplicate_heders_returns 8 repeated_header_block))) H).
Defined.

(** X8.  In the block the deduplicator returns, whatever the recursion
    limit, no "Time" line has a non-empty antenna list equal to that of
    the "Time" line before it: consecutive headers naming the same
    antennas are gone. *)
Theorem remove_duplicate_heders_no_adjacent_repeat
  (depth : nat) (sol : list string) (last_header : option (list string))
  (r : list string) :
  remove_duplicate_heders depth sol last_header = Ok r ->
  forall k h1 h2,
    nth_error (time_headers r) k = Some h1 ->
    nth_error (time_headers r) (S k) = Some h2 ->
    h2 = h1 -> h2 = [].
Proof.
  intros Hr.
  apply remove_duplicate_heders_depth_clean in Hr.
  exact (proj2 (scan_headers_none_headers r r 0 None eq_refl Hr)).
Qed.

Lemma remove_duplicate_heders_no_adjacent_repeat_witness :
  exists r,
    remove_duplicate_heders 1 repeated_header_block None = Ok r /\
    forall k h1 h2,
      nth_error (time_headers r) k = Some h1 ->
      nth_error (time_headers r) (S k) = Some h2 ->
      h2 = h1 -> h2 = [].
Proof.
  eexists. split; [vm_compute; reflexivity|].
  apply (remove_duplicate_heders_no_adjacent_repeat
           1 repeated_header_block None).
  vm_compute. reflexivity.
Defined.

(** ** Section Joiner: failure and columns *)

Lemma merge_rows_raise_iff s0 : forall s1,
  merge_rows s0 s1 = Raise IndexError <->
  exists k M, k < length s0 /\ nth_error s1 k = Some M /\ bar_free M = true.
Proof.
  induction s0 as [|L0 s0 IH]; intros s1.
  - split; [discriminate|]. intros (k & M & Hk & _). simpl in Hk. lia.
  - destruct s1 as [|M0 s1].
    + split; [discriminate|]. intros (k & M & _ & Hk & _).
      destruct k; discriminate.
    + cbn [merge_rows].
      destruct M0 as [|c M0'] eqn:EM.
      { split; [|reflexivity]. intros _. exists 0, EmptyString.
        split; [simpl; lia|]. split; reflexivity. }
      rewrite <- EM. assert (Hfc : first_char M0 = Ok (String c EmptyString))
        by (subst M0; reflexivity).
      rewrite Hfc. cbn [bind].
      rewrite (first_char_not_sentinel M0 _ Hfc).
      destruct (after_first "|" M0) as [tail|e] eqn:Ht; cbn [bind].
      * assert (Hnb : bar_free M0 = false).
        { destruct (bar_free M0) eqn:Hb; [|reflexivity].
          apply after_first_bar_raise in Hb. congruence. }
        destruct (merge_rows s0 s1) as [t|e] eqn:Hm; cbn [bind].
        -- split; [discriminate|]. intros (k & M & Hk & HM & Hb).
           destruct k as [|k]; simpl in HM.
           ++ injection HM as <-. congruence.
           ++ assert (Hr : merge_rows s0 s1 = Raise IndexError).
              { apply IH. exists k, M. simpl in Hk.
                split; [lia|]. split; assumption. }
              congruence.
        -- assert (e = IndexError) by (eapply merge_rows_raises, Hm).
           subst e. split; [|reflexivity]. intros _.
           destruct (proj1 (IH s1) Hm) as (k & M & Hk & HM & Hb).
           exists (S k), M. simpl. split; [lia|]. split; assumption.
      * assert (e = IndexError).
        { clear -Ht. revert Ht. generalize M0.
          induction M1 as [|d M1 IHM]; simpl; intros Ht; [congruence|].
          destruct (Ascii.eqb d "|"); [discriminate | auto]. }
        subst e. split; [|reflexivity]. intros _. exists 0, M0.
        split; [simpl; lia|]. split; [reflexivity|].
        apply after_first_bar_raise, Ht.
Qed.

(** X9.  Joining two Sections, with at least the one nested call it
    takes allowed, fails, with [IndexError], exactly when one of the
    lines of the second Section that is paired with a line of the first
    holds no bar (an empty line is such a line); in every other case it
    returns a table. *)
Theorem join_sections_pair_error_iff (depth : nat) (s0 s1 : list string) :
  (join_sections (S depth) [s0; s1] = Raise IndexError <->
   exists k M, k < length s0 /\ nth_error s1 k = Some M /\
               bar_free M = true) /\
  ((forall k M, k < length s0 -> nth_error s1 k = Some M ->
                bar_free M = false) ->
   exists table, join_sections (S depth) [s0; s1] = Ok table).
Proof.
  assert (Hj : join_sections (S depth) [s0; s1]
               = (t <- merge_rows s0 s1 ;;
                  Ok (slice_to t 2 ++ slice_from t 3))).
  { rewrite join_sections_eq.
    destruct (merge_rows s0 s1) as [t|e]; cbn [bind]; [|reflexivity].
    apply join_sections_single. }
  rewrite Hj. split.
  - rewrite <- merge_rows_raise_iff.
    destruct (merge_rows s0 s1) as [t|e]; cbn [bind];
      split; intros H; try discriminate; exact H.
  - intros Hall. destruct (merge_rows s0 s1) as [t|e] eqn:Hm; cbn [bind].
    + eexists. reflexivity.
    + exfalso. assert (e = IndexError) by (eapply merge_rows_raises, Hm).
      subst e. apply merge_rows_raise_iff in Hm.
      destruct Hm as (k & M & Hk & HM & Hb).
      rewrite (Hall k M Hk HM) in Hb. discriminate.
Qed.

Lemma join_sections_pair_error_iff_witness :
  (forall k M, k < length section_4_rows ->
     nth_error section_5_rows k = Some M -> bar_free M = false) /\
  exists table, join_sections 1 [section_4_rows; section_5_rows] = Ok table.
Proof.
  assert (H : forall k M, k < length section_4_rows ->
                nth_error section_5_rows k = Some M -> bar_free M = false).
  { intros k M Hk HM. simpl in Hk.
    destruct k as [|[|[|[|k]]]]; try lia; simpl in HM;
      injection HM as <-; reflexivity. }
  split; [exact H|].
  exact (proj2 (join_sections_pair_error_iff 0 section_4_rows section_5_rows)
           H).
Defined.

Lemma string_app_assoc (a b c : string) :
  ((a ++ b) ++ c)%string = (a ++ (b ++ c))%string.
Proof. induction a as [|x a IH]; simpl; [reflexivity | rewrite IH; reflexivity]. Qed.

Lemma string_app_nil_r (a : string) : (a ++ EmptyString)%string = a.
Proof. induction a as [|x a IH]; simpl; [reflexivity | rewrite IH; reflexivity]. Qed.

Lemma fold_min_init (a b : nat) : forall l,
  fold_right Nat.min (Nat.min a b) l = Nat.min b (fold_right Nat.min a l).
Proof. induction l as [|x l IH]; simpl; [lia | rewrite IH; lia]. Qed.

Lemma fold_min_le (a : nat) : forall l, fold_right Nat.min a l <= a.
Proof. induction l as [|x l IH]; simpl; lia. Qed.

Lemma join_sections_columns_from : forall rest depth table result,
  join_sections depth (table :: rest) = Ok result ->
  exists merged,
    result = firstn 2 merged ++ skipn 3 merged /\
    length merged = fold_right Nat.min (length table) (map (@List.length string) rest) /\
    forall k L, k < length merged -> nth_error table k = Some L ->
      exists tails,
        Forall2 (fun s tl => exists M, nth_error s k = Some M /\
                                       after_bar M tl) rest tails /\
        nth_error merged k = Some (L ++ join_strings tails)%string.
Proof.
  induction rest as [|s1 rest IH]; intros depth table result H;
    rewrite join_sections_eq in H.
  - injection H as <-. exists table. split.
    { unfold slice_to, slice_from. rewrite !slice_bound_Z by lia.
      change (Z.to_nat 2) with 2. change (Z.to_nat 3) with 3.
      f_equal.
      - destruct (Nat.le_gt_cases (length table) 2) as [Hl|Hl].
        + rewrite Nat.min_l by exact Hl. rewrite !firstn_all2 by lia.
          reflexivity.
        + rewrite Nat.min_r by lia. reflexivity.
      - destruct (Nat.le_gt_cases (length table) 3) as [Hl|Hl].
        + rewrite Nat.min_l by exact Hl. rewrite !skipn_all2 by lia.
          reflexivity.
        + rewrite Nat.min_r by lia. reflexivity. }
    split; [reflexivity|].
    intros k L _ HL. exists []. split; [constructor|].
    cbn [join_strings fold_right]. rewrite string_app_nil_r. exact HL.
  - destruct (merge_rows table s1) as [t|e] eqn:Hm; cbn [bind] in H;
      [|discriminate].
    destruct depth as [|d]; [discriminate|].
    destruct (merge_rows_spec _ _ _ Hm) as [Hlen Hrows].
    destruct (IH d t result H) as (merged & Hres & Hml & Hcols).
    exists merged. split; [exact Hres|]. split.
    { rewrite Hml, Hlen. cbn [map fold_right]. apply fold_min_init. }
    intros k L Hk HL.
    assert (Hkt : k < length t).
    { rewrite Hml in Hk. pose proof (fold_min_le (length t) (map (@List.length string) rest)).
      lia. }
    destruct (nth_error_defined s1 k) as [M HM]; [lia|].
    destruct (Hrows k L M HL HM) as (tl1 & Htl1 & Ht).
    destruct (Hcols k _ Hk Ht) as (tails & Htails & Hrow).
    exists (tl1 :: tails). split.
    + constructor; [|exact Htails].
      exists M. split; [exact HM | apply after_first_bar_ok, Htl1].
    + rewrite Hrow. cbn [join_strings fold_right].
      rewrite string_app_assoc. reflexivity.
Qed.

(** X10.  When the join of one or more Sections returns a table,
    whatever the recursion limit, that table is a merged table without
    its line of index 2, where the merged table has as many rows as the
    shortest Section and its row [k] is row [k] of the first Section
    followed, Section after Section in their order, by what comes after
    the first bar of row [k] of each other Section. *)
Theorem join_sections_columns (depth : nat) (s0 : list string)
  (rest : list (list string)) (table : list string) :
  join_sections depth (s0 :: rest) = Ok table ->
  exists merged,
    table = firstn 2 merged ++ skipn 3 merged /\
    length merged = fold_right Nat.min (length s0) (map (@List.length string) rest) /\
    forall k L, k < length merged -> nth_error s0 k = Some L ->
      exists tails,
        Forall2 (fun s tl => exists M, nth_error s k = Some M /\
                                       after_bar M tl) rest tails /\
        nth_error merged k = Some (L ++ join_strings tails)%string.
Proof. apply join_sections_columns_from. Qed.

Lemma join_sections_columns_witness :
  exists table merged,
    join_sections 2 [section_4_rows; section_5_rows; section_4_rows]
    = Ok table /\
    table = firstn 2 merged ++ skipn 3 merged /\
    length merged = 4.
Proof.
  eexists.
  destruct (join_sections_columns 2 section_4_rows
              [section_5_rows; section_4_rows] _ eq_refl)
    as (merged & H1 & H2 & _).
  exists merged. split; [reflexivity|]. split; [exact H1 | exact H2].
Defined.

(** ** Pipeline entry point: only the first block counts *)

Lemma marker_indices_app_free marker pre : forall l i0,
  Forall (fun L => contains marker L = false) pre ->
  marker_indices marker (pre ++ l) i0
  = marker_indices marker l (i0 + Z.of_nat (length pre)).
Proof.
  induction pre as [|P pre IH]; intros l i0 H.
  - simpl. rewrite Z.add_0_r. reflexivity.
  - inversion H as [|? ? HP Hpre]; subst. cbn [app marker_indices].
    rewrite HP, IH by exact Hpre. f_equal. cbn [length]. lia.
Qed.

Lemma slice_app_mid (pre block more : list string) (a b : Z) :
  a = Z.of_nat (length pre) ->
  b = (a + Z.of_nat (length block))%Z ->
  slice (pre ++ block ++ more) a b = block.
Proof.
  intros -> ->. unfold slice. rewrite !slice_bound_Z by lia.
  rewrite !length_app.
  replace (Nat.min _ (Z.to_nat (Z.of_nat (length pre)))) with (length pre)
    by lia.
  replace (Nat.min _ (Z.to_nat (Z.of_nat (length pre)
                                + Z.of_nat (length block))))
    with (length pre + length block) by lia.
  rewrite (proj2 (firstn_skipn_length_app pre (block ++ more))).
  replace (length pre + length block - length pre) with (length block) by lia.
  apply (proj1 (firstn_skipn_length_app block more)).
Qed.

Lemma extract_solutions_first_block (pre block more : list string) :
  Forall (fun L => contains "SpwID" L = false) pre ->
  opened_by (contains "SpwID") block ->
  contains "SpwID" (hd EmptyString more) = true ->
  exists others,
    extract_solutions (pre ++ block ++ more) = Ok (block :: others) /\
    (1 <? length (block :: others))%nat = true /\
    length (block :: others) = marker_count (pre ++ block ++ more).
Proof.
  intros Hpre (L & rest & -> & HL & Hrest) Hmore.
  destruct more as [|M more']; [discriminate|]. cbn [hd] in Hmore.
  set (lines := pre ++ (L :: rest) ++ M :: more').
  set (a := Z.of_nat (length pre)).
  set (b := (a + Z.of_nat (length (L :: rest)))%Z).
  assert (Hss : marker_indices "SpwID" lines 0
                = a :: b :: marker_indices "SpwID" more' (b + 1)).
  { subst lines. rewrite marker_indices_app_free by exact Hpre.
    cbn [app marker_indices]. rewrite HL. f_equal.
    rewrite marker_indices_app_free by exact Hrest.
    cbn [marker_indices]. rewrite Hmore.
    subst a b. cbn [length]. f_equal; [lia|]. f_equal. lia. }
  unfold extract_solutions. fold lines.
  pose proof (marker_indices_length "SpwID" lines 0) as Hlen.
  fold (marker_count lines) in Hlen. rewrite Hss in *.
  set (tl := marker_indices "SpwID" more' (b + 1)) in *.
  change ((1 <? length (a :: b :: tl))%nat) with true. cbv iota.
  rewrite (index_last a) by discriminate. cbn [bind].
  change (spans_between lines (a :: b :: tl))
    with (slice lines a b :: spans_between lines (b :: tl)).
  cbn [app].
  assert (Hb : slice lines a b = L :: rest)
    by (subst lines; apply slice_app_mid; reflexivity).
  rewrite Hb. eexists. split; [reflexivity|]. split.
  - cbn [length]. rewrite length_app. cbn [length].
    rewrite Nat.add_1_r. reflexivity.
  - rewrite <- Hlen. cbn [length]. rewrite length_app, spans_between_length.
    simpl. lia.
Qed.

Lemma parse_bandpass_text_of_blocks depth lines block others :
  extract_solutions lines = Ok (block :: others) ->
  (1 <? length (block :: others))%nat = true ->
  parse_bandpass_text depth lines
  = ([SolutionsFound (length (block :: others))],
     sol1 <- remove_duplicate_heders depth (remove_newline_chars block) None ;;
     sol2 <- remove_duplicate_heders depth sol1 None ;;
     sections <- split_into_sections sol2 ;;
     join_sections depth sections).
Proof.
  intros E G. unfold parse_bandpass_text. rewrite E.
  cbn [lift io_bind]. rewrite G.
  cbn [print io_bind io_ret lift]. rewrite index_0_cons.
  cbn [print io_bind io_ret lift app].
  destruct (remove_duplicate_heders depth (remove_newline_chars block) None)
    as [r1|e]; cbn [bind app]; [|reflexivity].
  destruct (remove_duplicate_heders depth r1 None) as [r2|e];
    cbn [bind app]; [|reflexivity].
  destruct (split_into_sections r2) as [secs|e]; cbn [bind app];
    [|reflexivity].
  destruct (join_sections depth secs) as [t|e]; reflexivity.
Qed.

(** X11.  On a report with two or more blocks [parse_bandpass_text]
    prints the number of marker lines once and works on the first block
    alone: how it ends, and the table it returns, are the same whatever
    follows the first block (under one and the same recursion limit). *)
Theorem parse_bandpass_text_first_block_only
  (depth : nat) (pre block more1 more2 : list string) :
  Forall (fun L => contains "SpwID" L = false) pre ->
  opened_by (contains "SpwID") block ->
  contains "SpwID" (hd EmptyString more1) = true ->
  contains "SpwID" (hd EmptyString more2) = true ->
  fst (parse_bandpass_text depth (pre ++ block ++ more1))
  = [SolutionsFound (marker_count (pre ++ block ++ more1))] /\
  snd (parse_bandpass_text depth (pre ++ block ++ more1))
  = snd (parse_bandpass_text depth (pre ++ block ++ more2)).
Proof.
  intros Hpre Hblock H1 H2.
  destruct (extract_solutions_first_block pre block more1 Hpre Hblock H1)
    as (o1 & E1 & G1 & N1).
  destruct (extract_solutions_first_block pre block more2 Hpre Hblock H2)
    as (o2 & E2 & G2 & _).
  rewrite (parse_bandpass_text_of_blocks depth _ _ _ E1 G1).
  rewrite (parse_bandpass_text_of_blocks depth _ _ _ E2 G2).
  cbn [fst snd]. rewrite N1. split; reflexivity.
Qed.

Lemma parse_bandpass_text_first_block_only_witness :
  fst (parse_bandpass_text 2 ([] ++ two_page_block ++ two_page_block))
  = [SolutionsFound
       (marker_count ([] ++ two_page_block ++ two_page_block))] /\
  snd (parse_bandpass_text 2 ([] ++ two_page_block ++ two_page_block))
  = snd (parse_bandpass_text 2 ([] ++ two_page_block ++ ["SpwID = 1"])).
Proof.
  apply parse_bandpass_text_first_block_only.
  - constructor.
  - eexists. eexists. split; [reflexivity|].
    split; [reflexivity|]. repeat constructor.
  - reflexivity.
  - reflexivity.
Defined.

(** ** Record Parser: the data-line pattern and the numeric tokens *)

Lemma span_stop f : forall s h t,
  span f s = (h, t) ->
  match t with EmptyString => True | String c _ => f c = false end.
Proof.
  induction s as [|c s IH]; intros h t H; simpl in H.
  - injection H as <- <-. exact I.
  - destruct (f c) eqn:Hc.
    + destruct (span f s) as [h' t'] eqn:E. injection H as <- <-.
      apply (IH h' t' eq_refl).
    + injection H as <- <-. exact Hc.
Qed.

Lemma is_empty_false s : is_empty s = false -> s <> EmptyString.
Proof. destruct s; [discriminate | discriminate]. Qed.

(** X12.  When the data-line pattern matches a line, the line is, in this
    order: the time token, white space, the field token, white space, the
    channel digits, a bar, the rest, and then nothing or a newline and
    more text.  Both tokens are non-empty and free of white space, both
    gaps are non-empty, the channel is a non-empty run of digits and the
    rest holds no newline. *)
Theorem data_re_match_sound (L time field ch tail : string) :
  data_re_match L = Some (time, field, ch, tail) ->
  exists w1 w2 more,
    L = (time ++ w1 ++ field ++ w2 ++ ch ++ String "|" (tail ++ more))%string /\
    (time <> EmptyString /\ string_forall is_nonspace time = true) /\
    (w1 <> EmptyString /\ string_forall is_space w1 = true) /\
    (field <> EmptyString /\ string_forall is_nonspace field = true) /\
    (w2 <> EmptyString /\ string_forall is_space w2 = true) /\
    (ch <> EmptyString /\ string_forall is_digit ch = true) /\
    string_forall (fun c => negb (Ascii.eqb c newline)) tail = true /\
    match more with
    | EmptyString => True
    | String c _ => c = newline
    end.
Proof.
  unfold data_re_match. intros H.
  destruct (span is_nonspace L) as [g1 r1] eqn:E1.
  destruct (span is_space r1) as [w1 r2] eqn:E2.
  destruct (span is_nonspace r2) as [g2 r3] eqn:E3.
  destruct (span is_space r3) as [w2 r4] eqn:E4.
  destruct (span is_digit r4) as [g3 r5] eqn:E5.
  destruct (is_empty g1) eqn:N1; [discriminate|].
  destruct (is_empty w1) eqn:N2; [discriminate|].
  destruct (is_empty g2) eqn:N3; [discriminate|].
  destruct (is_empty w2) eqn:N4; [discriminate|].
  destruct (is_empty g3) eqn:N5; [discriminate|].
  cbn [orb] in H.
  destruct r5 as [|c r6]; [discriminate|].
  destruct (Ascii.eqb_spec c "|") as [->|Hc];
    [|destruct c as [[] [] [] [] [] [] [] []]; try discriminate; congruence].
  destruct (span (fun c => negb (Ascii.eqb c newline)) r6) as [g4 more] eqn:E6.
  cbn [fst] in H. injection H as <- <- <- <-.
  pose proof (span_stop _ _ _ _ E6) as Hstop.
  apply span_spec in E1, E2, E3, E4, E5, E6.
  destruct E1 as [-> F1], E2 as [-> F2], E3 as [-> F3], E4 as [-> F4],
           E5 as [-> F5], E6 as [-> F6].
  exists w1, w2, more. split; [reflexivity|].
  repeat (split; [split; [apply is_empty_false; assumption | assumption]|]).
  split; [exact F6|].
  destruct more as [|c more]; [exact I|].
  apply negb_false_iff, Ascii.eqb_eq in Hstop. exact Hstop.
Qed.

Lemma data_re_match_sound_witness :
  exists w1 w2 more,
    "10:00:00 FieldX 0|1.0 0.0F2.0 90.0"
    = ("10:00:00" ++ w1 ++ "FieldX" ++ w2 ++ "0"
       ++ String "|" ("1.0 0.0F2.0 90.0" ++ more))%string /\
    w1 <> EmptyString /\ w2 <> EmptyString.
Proof.
  destruct (data_re_match_sound "10:00:00 FieldX 0|1.0 0.0F2.0 90.0"
              "10:00:00" "FieldX" "0" "1.0 0.0F2.0 90.0" eq_refl)
    as (w1 & w2 & more & H & _ & [H1 _] & _ & [H2 _] & _).
  exists w1, w2, more. repeat split; assumption.
Defined.

Lemma span_app_run f g h : forall next t,
  string_forall f h = true ->
  next <> EmptyString -> string_forall g next = true ->
  (forall c, g c = true -> f c = false) ->
  span f (h ++ next ++ t) = (h, (next ++ t)%string).
Proof.
  intros next t Hh Hne Hg Hfg. apply span_app; [exact Hh|].
  destruct next as [|c next]; [congruence|]. simpl in *.
  apply andb_true_iff in Hg. apply Hfg, Hg.
Qed.

Lemma digit_not_space c : is_digit c = true -> is_space c = false.
Proof.
  unfold is_digit, is_space, in_range.
  intros H. apply andb_true_iff in H. destruct H as [H1 H2].
  apply N.leb_le in H1, H2.
  repeat rewrite orb_false_iff. repeat split.
  - apply andb_false_iff. right. apply N.leb_gt. lia.
  - apply andb_false_iff. right. apply N.leb_gt. lia.
  - apply N.eqb_neq. lia.
  - apply N.eqb_neq. lia.
Qed.

(** X13.  A line written as time token, white space, field token, white
    space, channel digits, bar, rest is matched by the data-line pattern,
    and the match gives back exactly those four parts: the tokens must be
    non-empty and free of white space, the gaps non-empty white space,
    the channel a non-empty run of digits, the rest free of newlines. *)
Theorem data_re_match_complete (time w1 field w2 ch tail : string) :
  time <> EmptyString -> string_forall is_nonspace time = true ->
  w1 <> EmptyString -> string_forall is_space w1 = true ->
  field <> EmptyString -> string_forall is_nonspace field = true ->
  w2 <> EmptyString -> string_forall is_space w2 = true ->
  ch <> EmptyString -> string_forall is_digit ch = true ->
  string_forall (fun c => negb (Ascii.eqb c newline)) tail = true ->
  data_re_match (time ++ w1 ++ field ++ w2 ++ ch ++ String "|" tail)
  = Some (time, field, ch, tail).
Proof.
  intros T1 T2 W1 W2 F1 F2 V1 V2 C1 C2 R.
  unfold data_re_match.
  rewrite (span_app_run is_nonspace is_space time w1) by
    (try assumption; intros c Hc; unfold is_nonspace; rewrite Hc; reflexivity).
  rewrite (span_app_run is_space is_nonspace w1 field) by
    (try assumption; intros c Hc; unfold is_nonspace in Hc;
     apply negb_true_iff, Hc).
  rewrite (span_app_run is_nonspace is_space field w2) by
    (try assumption; intros c Hc; unfold is_nonspace; rewrite Hc; reflexivity).
  rewrite (span_app_run is_space is_digit w2 ch) by
    (try assumption; apply digit_not_space).
  rewrite (span_app is_digit ch (String "|" tail) C2) by reflexivity.
  destruct time; [congruence|]. destruct w1; [congruence|].
  destruct field; [congruence|]. destruct w2; [congruence|].
  destruct ch; [congruence|]. cbn [is_empty orb].
  rewrite <- (string_app_nil_r tail) at 1.
  rewrite (span_app _ tail EmptyString R I). reflexivity.
Qed.

Lemma data_re_match_complete_witness :
  data_re_match ("10:00:00.0" ++ "  " ++ "J1331+3030" ++ " " ++ "17"
                 ++ String "|" " 1.0 0.0F")
  = Some ("10:00:00.0", "J1331+3030", "17", " 1.0 0.0F").
Proof.
  apply data_re_match_complete; (discriminate || reflexivity).
Defined.

Lemma string_forall_app f : forall a b,
  string_forall f (a ++ b) = string_forall f a && string_forall f b.
Proof.
  induction a as [|c a IH]; intros b; simpl; [reflexivity|].
  rewrite IH. apply andb_assoc.
Qed.

Lemma remove_char_free c : forall s,
  string_forall (fun d => negb (Ascii.eqb d c)) (remove_char c s) = true.
Proof.
  induction s as [|d s IH]; simpl; [reflexivity|].
  destruct (Ascii.eqb d c) eqn:E; [exact IH|]. simpl. rewrite E. exact IH.
Qed.

Lemma split_ws_from_tokens (P : ascii -> bool) : forall s cur,
  string_forall (fun c => negb (is_space c) && P c) cur = true ->
  string_forall P s = true ->
  Forall (fun t => t <> EmptyString /\
            string_forall (fun c => negb (is_space c) && P c) t = true)
         (split_ws_from cur s).
Proof.
  induction s as [|c s IH]; intros cur Hcur Hs; simpl.
  - destruct cur; [constructor|]. constructor; [|constructor].
    split; [discriminate | exact Hcur].
  - simpl in Hs. apply andb_true_iff in Hs. destruct Hs as [Hc Hs].
    destruct (is_space c) eqn:Esp.
    + destruct cur as [|d cur]; cbn [is_empty].
      * apply IH; [reflexivity | exact Hs].
      * constructor; [split; [discriminate | exact Hcur]|].
        apply IH; [reflexivity | exact Hs].
    + apply IH; [|exact Hs].
      rewrite string_forall_app, Hcur. simpl. rewrite Esp, Hc. reflexivity.
Qed.

(** X14.  The numeric tokens of a data line are never empty and hold
    neither white space nor the flag character: every "F" of the rest is
    deleted before the split, wherever it stands. *)
Theorem numeric_tokens_clean (rest : string) :
  Forall (fun t => t <> EmptyString /\
            string_forall (fun c => negb (is_space c)
                                    && negb (Ascii.eqb c "F")) t = true)
         (numeric_tokens rest).
Proof.
  unfold numeric_tokens, split_ws.
  apply split_ws_from_tokens; [reflexivity | apply remove_char_free].
Qed.

(** ** Record Parser: what the result depends on *)

Section ParserFacts.
Variables F C : Type.
Variable pyfloat : string -> option F.
Variable polar : F -> F -> C.

Local Abbreviation parse := (parse_lines F pyfloat).
Local Abbreviation to_dict := (caltable_to_dict F C pyfloat polar).

(** The loop reads a line through the groups of its match only. *)
Lemma parse_lines_data_lines nants npol : forall t1 t2,
  data_lines t1 = data_lines t2 ->
  parse nants npol t1 = parse nants npol t2.
Proof.
  assert (Hnil : forall t, data_lines t = [] ->
                 parse nants npol t = io_ret (Some [])).
  { induction t as [|L t IH]; intros H; [reflexivity|].
    rewrite data_lines_cons in H.
    destruct (data_re_match L) as [g|] eqn:E; [discriminate|].
    rewrite (parse_lines_skip F pyfloat) by exact E. apply IH, H. }
  induction t1 as [|L1 t1 IH1]; intros t2 H.
  - symmetry. apply Hnil. symmetry. exact H.
  - rewrite data_lines_cons in H.
    destruct (data_re_match L1) as [[[[tm1 f1] c1] tl1]|] eqn:E1.
    + induction t2 as [|L2 t2 IH2].
      * discriminate.
      * rewrite data_lines_cons in H.
        destruct (data_re_match L2) as [g2|] eqn:E2.
        -- injection H as <- H.
           rewrite (parse_lines_data_line F pyfloat _ _ _ _ _ _ _ _ E1).
           rewrite (parse_lines_data_line F pyfloat _ _ _ _ _ _ _ _ E2).
           rewrite (IH1 t2 H). reflexivity.
        -- rewrite (parse_lines_skip F pyfloat _ _ L2 t2 E2). apply IH2, H.
    + rewrite (parse_lines_skip F pyfloat) by exact E1. apply IH1, H.
Qed.

(** X15.  The parser reads a table through the antenna names of its first
    line and the matches of its data lines only: two tables that agree on
    both get the same outcome, messages included.  Lines that the pattern
    does not match have no other effect. *)
Theorem caltable_to_dict_reads_data_lines (t1 t2 : list string) (npol : nat) :
  get_antenna_names t1 = get_antenna_names t2 ->
  data_lines t1 = data_lines t2 ->
  to_dict t1 npol = to_dict t2 npol.
Proof.
  intros Hn Hd. unfold caltable_to_dict. rewrite Hn.
  destruct (get_antenna_names t2) as [names|e]; [|reflexivity].
  cbn [lift io_bind].
  rewrite (parse_lines_data_lines (length names) npol t1 t2 Hd).
  reflexivity.
Qed.

End ParserFacts.

Lemma caltable_to_dict_reads_data_lines_witness :
  Symbolic.caltable_to_dict two_channel_table 2
  = Symbolic.caltable_to_dict
      ["Ant = A0 Ant = A1";
       "10:00:00 FieldX 1| 1.0 0.0F 2.0 90.0 3.0 4.0 5.0 6.0";
       "-----|-----"; "not a data line";
       "10:00:00 FieldX 0| 1.1 0.1 2.1 90.1 3.1 4.1 5.1 6.1"] 2.
Proof.
  apply caltable_to_dict_reads_data_lines; reflexivity.
Defined.

(** ** Record Parser: the returned dataset *)

Lemma map_const_seq {X : Type} (x : X) : forall n s,
  map (fun _ : nat => x) (seq s n) = repeat x n.
Proof.
  induction n as [|n IH]; intros s; simpl; [reflexivity|].
  rewrite IH. reflexivity.
Qed.

Lemma insert_sorted_le (x : N) : forall l,
  StronglySorted N.le l -> StronglySorted N.le (insert_sorted N.leb x l).
Proof.
  induction l as [|y tl IH]; intros Hs; simpl.
  - constructor; constructor.
  - inversion Hs as [|? ? Htl Hy]; subst.
    destruct (N.leb_spec x y) as [Hle|Hgt].
    + constructor; [exact Hs|]. constructor; [exact Hle|].
      eapply Forall_impl; [|exact Hy]. cbv beta. intros; lia.
    + constructor; [apply IH, Htl|].
      eapply Permutation_Forall;
        [apply Permutation_sym, insert_sorted_perm|].
      constructor; [lia | exact Hy].
Qed.

Lemma insertion_sorted_le : forall l : list N,
  StronglySorted N.le (fold_right (insert_sorted N.leb) [] l).
Proof.
  induction l as [|x l IH]; simpl; [constructor|].
  apply insert_sorted_le, IH.
Qed.

Lemma insertion_perm_N : forall l : list N,
  Permutation (fold_right (insert_sorted N.leb) [] l) l.
Proof.
  induction l as [|x l IH]; simpl; [apply perm_nil|].
  eapply perm_trans; [apply insert_sorted_perm | apply perm_skip, IH].
Qed.

Lemma dedup_adjacent_In_N : forall (l : list N) x,
  In x (dedup_adjacent N.eqb l) <-> In x l.
Proof.
  induction l as [|a [|b tl] IH]; intros x; try reflexivity.
  cbn [dedup_adjacent].
  destruct (N.eqb_spec a b) as [->|Hab].
  - rewrite IH. simpl. tauto.
  - simpl. simpl in IH. rewrite IH. tauto.
Qed.

Lemma dedup_adjacent_strict : forall l : list N,
  StronglySorted N.le l -> StronglySorted N.lt (dedup_adjacent N.eqb l).
Proof.
  induction l as [|a [|b tl] IH]; intros Hs.
  - constructor.
  - constructor; constructor.
  - inversion Hs as [|? ? Hs' Ha]; subst.
    change (dedup_adjacent N.eqb (a :: b :: tl))
      with (if N.eqb a b then dedup_adjacent N.eqb (b :: tl)
            else a :: dedup_adjacent N.eqb (b :: tl)).
    destruct (N.eqb_spec a b) as [->|Hab]; [apply IH, Hs'|].
    constructor; [apply IH, Hs'|].
    apply Forall_forall. intros x Hx.
    apply (proj1 (dedup_adjacent_In_N (b :: tl) x)) in Hx.
    rewrite Forall_forall in Ha.
    assert (Hb : (a <= b)%N) by (apply Ha; left; reflexivity).
    cbn [In] in Hx. destruct Hx as [<-|Hx]; [lia|].
    inversion Hs' as [|? ? _ Hbt]; subst.
    rewrite Forall_forall in Hbt. specialize (Hbt x Hx). lia.
Qed.

Lemma strictly_sorted_NoDup : forall l : list N,
  StronglySorted N.lt l -> NoDup l.
Proof.
  induction l as [|a l IH]; intros Hs; [constructor|].
  inversion Hs as [|? ? Hl Ha]; subst. constructor; [|apply IH, Hl].
  intros Hin. rewrite Forall_forall in Ha. specialize (Ha a Hin). lia.
Qed.

Lemma unique_NoDup (l : list N) : NoDup (unique N.leb N.eqb l).
Proof.
  apply strictly_sorted_NoDup, dedup_adjacent_strict, insertion_sorted_le.
Qed.

Lemma unique_In (l : list N) x : In x (unique N.leb N.eqb l) <-> In x l.
Proof.
  unfold unique. rewrite dedup_adjacent_In_N. split; intros H.
  - eapply Permutation_in; [apply insertion_perm_N | exact H].
  - eapply Permutation_in; [apply Permutation_sym, insertion_perm_N | exact H].
Qed.

(** [len(np.unique(channels))] is the number of distinct channels. *)
Lemma unique_length_distinct (l : list N) :
  length (unique N.leb N.eqb l) = length (nodup N.eq_dec l).
Proof.
  apply Nat.le_antisymm; apply NoDup_incl_length.
  - apply unique_NoDup.
  - intros x Hx. apply nodup_In, unique_In, Hx.
  - apply NoDup_nodup.
  - intros x Hx. apply unique_In. eapply nodup_In, Hx.
Qed.

Section DatasetFacts.
Variables F C : Type.
Variable pyfloat : string -> option F.
Variable polar : F -> F -> C.

Local Abbreviation parse := (parse_lines F pyfloat).
Local Abbreviation to_dict := (caltable_to_dict F C pyfloat polar).

(** A loop that runs to its end has printed nothing, and has one record
    per data line, with the time, field and channel of the line. *)
Lemma parse_lines_quiet nants npol : forall table w recs,
  parse nants npol table = (w, Ok (Some recs)) ->
  w = [] /\
  map rec_time recs = map (fun g => fst (fst (fst g))) (data_lines table) /\
  map rec_field recs = map (fun g => snd (fst (fst g))) (data_lines table) /\
  map rec_channel recs = table_channels table.
Proof.
  unfold table_channels.
  induction table as [|L rest IH]; intros w recs H.
  - simpl in H. injection H as <- <-. repeat split.
  - rewrite data_lines_cons.
    destruct (data_re_match L) as [[[[t f] c] tl]|] eqn:Hm.
    + rewrite (parse_lines_data_line F pyfloat _ _ _ _ _ _ _ _ Hm) in H.
      destruct (py_int_cases c) as [[_ Hi]|[_ Hi]]; rewrite Hi in H;
        [|discriminate].
      destruct (length (numeric_tokens tl) =? nants * 2 * npol)%nat;
        [|discriminate].
      destruct (floats F pyfloat (numeric_tokens tl)) as [vs|e];
        [|discriminate].
      destruct (parse nants npol rest) as [w' [[recs'|]|e]] eqn:Hr;
        cbn [option_map] in H; try discriminate.
      destruct (IH w' recs' eq_refl) as (-> & H1 & H2 & H3).
      injection H as <- <-. simpl. rewrite H1, H2, H3. repeat split.
    + rewrite (parse_lines_skip F pyfloat _ _ _ _ Hm) in H. apply IH, H.
Qed.

Lemma caltable_to_dict_inv table npol w d :
  to_dict table npol = (w, Ok (Some d)) ->
  exists names recs,
    get_antenna_names table = Ok names /\
    parse (length names) npol table = ([], Ok (Some recs)) /\
    assemble F C polar (length names) npol names recs = (w, Ok d).
Proof.
  intros H. destruct (get_antenna_names table) as [names|e] eqn:Hn.
  - rewrite (caltable_to_dict_eq F C pyfloat polar _ npol names Hn) in H.
    destruct (parse (length names) npol table) as [w1 [[recs|]|e]] eqn:Hp;
      try discriminate.
    destruct (parse_lines_quiet _ _ _ _ _ Hp) as [-> _].
    destruct (assemble F C polar (length names) npol names recs)
      as [w2 [d'|e]] eqn:Ha; try discriminate.
    injection H as <- <-.
    exists names, recs. repeat split; assumption.
  - unfold caltable_to_dict in H. rewrite Hn in H. discriminate.
Qed.

Lemma assemble_inv nants npol names recs w d :
  assemble F C polar nants npol names recs = (w, Ok d) ->
  (exists x g,
     reshape3 C (length (unique N.leb N.eqb
                           (np_array_int (map rec_channel recs))))
       nants npol x = Ok g /\ gains d = swapaxes01 nants g) /\
  antennas d = names /\
  length (channels d) = length recs /\
  channel_dtype d = np_int_dtype (map rec_channel recs) /\
  polarizations d = ["pol0"; "pol1"] /\
  times d = unique String.leb String.eqb (np_array_str (map rec_time recs)) /\
  fields d
  = unique String.leb String.eqb (np_array_str (map rec_field recs)) /\
  w = (if (length (unique String.leb String.eqb
                     (np_array_str (map rec_time recs)))
           * length (unique String.leb String.eqb
                       (np_array_str (map rec_field recs)))
           =? 1)%nat
       then [] else [WarnMultiple]).
Proof.
  unfold assemble. intros H.
  match type of H with
  | context [reshape3 C ?n nants npol ?x] =>
      destruct (reshape3 C n nants npol x) as [g|e] eqn:Hre
  end.
  - match type of H with
    | context [(?a * ?b =? 1)%nat] => destruct (a * b =? 1)%nat
    end; cbn [negb print io_ret io_bind lift app] in H;
      injection H as <- <-;
      cbn [gains antennas channels channel_dtype polarizations times fields];
      (split; [eexists; eexists; split; [exact Hre | reflexivity]|]);
      (split; [reflexivity|]);
      (split; [unfold gather; rewrite length_map, argsort_length,
                 np_array_int_length, length_map; reflexivity|]);
      repeat (split; [reflexivity|]); reflexivity.
  - match type of H with
    | context [(?a * ?b =? 1)%nat] => destruct (a * b =? 1)%nat
    end; cbn [negb print io_ret io_bind lift app] in H; discriminate.
Qed.

(** X16.  A table without any data line is not refused: the parser
    prints the warning about multiple timestamps or fields and returns a
    dataset with the antennas of the header, no channel (an empty array,
    of dtype float64), no time, no field, and one empty gain row per
    antenna. *)
Theorem caltable_to_dict_no_data_line
  (table : list string) (npol : nat) (names : list string) :
  get_antenna_names table = Ok names ->
  data_lines table = [] ->
  to_dict table npol
  = ([WarnMultiple],
     Ok (Some {| gains := repeat [] (length names);
                 antennas := names;
                 channels := [];
                 channel_dtype := Float64;
                 polarizations := ["pol0"; "pol1"];
                 times := [];
                 fields := [] |})).
Proof.
  intros Hn Hd. unfold caltable_to_dict. rewrite Hn. cbn [lift io_bind].
  rewrite (parse_lines_data_lines F pyfloat (length names) npol table []
             Hd).
  cbn [parse_lines io_ret io_bind]. unfold assemble, reshape3. simpl.
  unfold swapaxes01. cbn [map]. rewrite map_const_seq. reflexivity.
Qed.

End DatasetFacts.

Lemma caltable_to_dict_no_data_line_witness :
  get_antenna_names section_4_rows = Ok ["A0"] /\
  data_lines ["|Ant = A0"; "Time|"; "---|"] = [] /\
  Symbolic.caltable_to_dict ["|Ant = A0"; "Time|"; "---|"] 2
  = ([WarnMultiple],
     Ok (Some {| gains := [[]]; antennas := ["A0"]; channels := [];
                 channel_dtype := Float64;
                 polarizations := ["pol0"; "pol1"];
                 times := []; fields := [] |})).
Proof.
  split; [reflexivity|]. split; [reflexivity|].
  apply (caltable_to_dict_no_data_line
           Symbolic.F Symbolic.C Symbolic.pyfloat Symbolic.polar
           ["|Ant = A0"; "Time|"; "---|"] 2 ["A0"]); reflexivity.
Defined.

Lemma Forall_firstn {X : Type} (P : X -> Prop) : forall n (l : list X),
  Forall P l -> Forall P (firstn n l).
Proof.
  induction n as [|n IH]; intros l H; [constructor|].
  destruct H as [|x l Hx Hl]; constructor; [exact Hx | apply IH, Hl].
Qed.

Lemma Forall_skipn {X : Type} (P : X -> Prop) : forall n (l : list X),
  Forall P l -> Forall P (skipn n l).
Proof.
  induction n as [|n IH]; intros l H; [exact H|].
  destruct H as [|x l Hx Hl]; [constructor | apply IH, Hl].
Qed.

Lemma rows_Forall {X : Type} (P : X -> Prop) (w : nat) : forall n (l : list X),
  Forall P l -> Forall (Forall P) (rows n w l).
Proof.
  induction n as [|n IH]; intros l H; simpl; constructor.
  - apply Forall_firstn, H.
  - apply IH, Forall_skipn, H.
Qed.

(** A reshape that succeeds gives [nchans] blocks of [nants] rows of
    [npol] items. *)
Lemma reshape3_shape (C : Type) nchans nants npol x g :
  reshape3 C nchans nants npol x = Ok g ->
  length g = nchans /\
  Forall (fun blk => length blk = nants /\
                     Forall (fun row => length row = npol) blk) g.
Proof.
  unfold reshape3. intros H.
  destruct (length (concat (concat x)) =? nchans * nants * npol)%nat eqn:E;
    [|discriminate].
  apply Nat.eqb_eq in E. injection H as <-.
  split; [apply rows_length|].
  set (inner := rows (nchans * nants) npol (concat (concat x))).
  assert (Hin : Forall (fun row => length row = npol) inner)
    by (apply rows_uniform; lia).
  assert (Hlen : length inner = nchans * nants) by apply rows_length.
  pose proof (rows_uniform nants nchans inner ltac:(lia)) as H1.
  pose proof (rows_Forall _ nants nchans inner Hin) as H2.
  rewrite Forall_forall in H1, H2. apply Forall_forall.
  intros blk Hblk. split; [apply H1, Hblk | apply H2, Hblk].
Qed.

Lemma swapaxes01_shape {X : Type} (n m w : nat) (g : list (list (list X))) :
  length g = m ->
  Forall (fun blk => length blk = n /\
                     Forall (fun row => length row = w) blk) g ->
  length (swapaxes01 n g) = n /\
  Forall (fun row => length row = m /\
                     Forall (fun item => length item = w) row)
         (swapaxes01 n g).
Proof.
  intros Hm Hg. unfold swapaxes01. split.
  - rewrite length_map. apply length_seq.
  - apply Forall_map, Forall_forall. intros i Hi. apply in_seq in Hi.
    split; [rewrite length_map; exact Hm|].
    apply Forall_map. eapply Forall_impl; [|exact Hg]. cbv beta.
    intros blk [Hl Hrows]. rewrite Forall_forall in Hrows.
    apply Hrows, nth_In. lia.
Qed.




Lemma unique_length_lt (l : list N) :
  ~ NoDup l -> length (unique N.leb N.eqb l) < length l.
Proof.
  intros Hnd. destruct (Nat.lt_ge_cases (length (unique N.leb N.eqb l))
                          (length l)) as [Hlt|Hge]; [exact Hlt|].
  exfalso. apply Hnd.
  apply (NoDup_incl_NoDup (unique_NoDup l) Hge).
  intros x Hx. apply unique_In, Hx.
Qed.

Section RepeatedChannel.
Variables F C : Type.
Variable pyfloat : string -> option F.
Variable polar : F -> F -> C.

Local Abbreviation parse := (parse_lines F pyfloat).
Local Abbreviation to_dict := (caltable_to_dict F C pyfloat polar).
Local Abbreviation block_of r := (gain_block F C polar (rec_amp r) (rec_phs r)).

Lemma gathered_blocks_shape nants npol (recs : list (data_record F)) idx :
  (forall i, In i idx -> i < length recs) ->
  Forall (fun r => length (block_of r) = nants /\
                   Forall (fun row => length row = npol) (block_of r)) recs ->
  Forall (fun blk => length blk = nants /\
                     Forall (fun row => length row = npol) blk)
    (map (fun ap => gain_block F C polar (fst ap) (snd ap))
         (combine (gather [] (map rec_amp recs) idx)
                  (gather [] (map rec_phs recs) idx))).
Proof.
  intros Hidx Hshape. unfold gather.
  rewrite combine_map_same, map_map. cbn [fst snd].
  apply Forall_map, Forall_forall. intros i Hi.
  destruct (nth_error_defined recs i (Hidx i Hi)) as [r Hr].
  rewrite (nth_map_some _ _ _ _ _ Hr), (nth_map_some _ _ _ _ _ Hr).
  rewrite Forall_forall in Hshape. apply Hshape.
  eapply nth_error_In, Hr.
Qed.

Lemma assemble_repeated_channel nants npol names recs :
  Forall (fun r => length (block_of r) = nants /\
                   Forall (fun row => length row = npol) (block_of r)) recs ->
  ~ NoDup (np_array_int (map rec_channel recs)) ->
  0 < nants -> 0 < npol ->
  snd (assemble F C polar nants npol names recs) = Raise ValueError.
Proof.
  intros Hshape Hnd Hn Hp. unfold assemble.
  set (stored := np_array_int (map rec_channel recs)) in *.
  set (idx := argsort N.leb 0%N stored).
  set (sorted := map (fun ap => gain_block F C polar (fst ap) (snd ap))
                     (combine (gather [] (map rec_amp recs) idx)
                              (gather [] (map rec_phs recs) idx))).
  assert (Hstored : length stored = length recs).
  { subst stored. rewrite np_array_int_length. apply length_map. }
  assert (Hblocks : Forall (fun blk => length blk = nants /\
                      Forall (fun row => length row = npol) blk) sorted).
  { apply gathered_blocks_shape; [|exact Hshape].
    intros i Hi. apply argsort_in_range in Hi.
    rewrite Hstored in Hi. exact Hi. }
  assert (Hlen : length sorted = length recs).
  { subst sorted. unfold gather.
    rewrite length_map, length_combine, !length_map. subst idx.
    rewrite argsort_length. lia. }
  assert (H1 : Forall (fun b => length b = nants) sorted).
  { eapply Forall_impl; [|exact Hblocks]. cbv beta. tauto. }
  assert (H2 : Forall (fun row => length row = npol) (concat sorted)).
  { clear -Hblocks. induction Hblocks as [|b l [_ Hb] _ IH]; simpl.
    - constructor.
    - apply Forall_app. split; assumption. }
  pose proof (concat_length_uniform nants sorted H1) as L1.
  pose proof (concat_length_uniform npol (concat sorted) H2) as L2.
  pose proof (unique_length_lt _ Hnd) as Hlt. rewrite Hstored in Hlt.
  assert (Hre : reshape3 C (length (unique N.leb N.eqb stored))
                  nants npol sorted = Raise ValueError).
  { unfold reshape3. rewrite L2, L1, Hlen.
    destruct (Nat.eqb_spec (length recs * nants * npol)
                (length (unique N.leb N.eqb stored)
                 * nants * npol)) as [E|E]; [|reflexivity].
    exfalso. nia. }
  rewrite Hre.
  match goal with
  | |- context [io_bind (if ?b then _ else _) _] => destruct b
  end; reflexivity.
Qed.

(** X17.  Two data lines with the same channel make the parser fail with
    [ValueError]: on a table with at least one antenna and one
    polarization whose data lines all have the expected number of values,
    every one accepted by [float], a repeated channel leaves more blocks
    than distinct channels and the reshape refuses them (unless [int] has
    refused the digits of a channel before, with [ValueError] too). *)
Theorem caltable_to_dict_repeated_channel
  (table : list string) (npol : nat) (names : list string) :
  get_antenna_names table = Ok names ->
  (forall L time field ch tail, In L table ->
     data_re_match L = Some (time, field, ch, tail) ->
     length (numeric_tokens tail) = length names * 2 * npol /\
     forall x, In x (numeric_tokens tail) -> pyfloat x <> None) ->
  ~ NoDup (table_channels table) ->
  0 < length names -> 0 < npol ->
  snd (to_dict table npol) = Raise ValueError.
Proof.
  intros Hn Hwf Hnd Hants Hpol.
  rewrite (caltable_to_dict_eq F C pyfloat polar _ npol names Hn).
  destruct (parse_lines_well_counted F pyfloat (length names) npol table Hwf)
    as [[recs Hp]|Hp]; rewrite Hp; [|reflexivity].
  pose proof (parse_lines_records F pyfloat _ _ _ _ _ Hp) as HF.
  pose proof (recorded_channels F pyfloat _ _ _ _ HF) as Hch.
  fold (table_channels table) in Hch. rewrite <- Hch in Hnd.
  assert (Hnd' : ~ NoDup (np_array_int (map rec_channel recs))).
  { intros H. apply Hnd, np_array_int_NoDup, H. }
  pose proof (assemble_repeated_channel (length names) npol names recs
                (recorded_shapes F C pyfloat polar _ _ _ _ HF)
                Hnd' Hants Hpol) as Ha.
  destruct (assemble F C polar (length names) npol names recs)
    as [w' [d|e]]; cbn [snd] in Ha; [discriminate|].
  injection Ha as ->. reflexivity.
Qed.

End RepeatedChannel.

Lemma caltable_to_dict_repeated_channel_witness :
  ~ NoDup (table_channels repeated_channel_table) /\
  snd (Symbolic.caltable_to_dict repeated_channel_table 2)
  = Raise ValueError.
Proof.
  assert (Hnd : ~ NoDup (table_channels repeated_channel_table)).
  { vm_compute. intros H. inversion H as [|? ? Hin _]; subst.
    apply Hin. left. reflexivity. }
  split; [exact Hnd|].
  apply (caltable_to_dict_repeated_channel
           Symbolic.F Symbolic.C Symbolic.pyfloat Symbolic.polar
           repeated_channel_table 2 ["A0"] eq_refl);
    [|exact Hnd|simpl; lia|lia].
  intros L time field ch tail HL Hm. simpl in HL.
  destruct HL as [<-|[<-|[<-|[]]]]; vm_compute in Hm;
    try discriminate; injection Hm as <- <- <- <-;
    (split; [reflexivity|]); intros x Hx; vm_compute in Hx;
    repeat (destruct Hx as [<-|Hx]; [vm_compute; discriminate|]);
    destruct Hx.
Defined.

Section DatasetShape.
Variables F C : Type.
Variable pyfloat : string -> option F.
Variable polar : F -> F -> C.

Local Abbreviation parse := (parse_lines F pyfloat).
Local Abbreviation to_dict := (caltable_to_dict F C pyfloat polar).
Local Abbreviation block_of r := (gain_block F C polar (rec_amp r) (rec_phs r)).

(** X18.  Every dataset the parser returns has its antennas read from the
    first line, a gain array of shape (antennas, distinct channels as
    numpy stores them, [npol]), one channel entry per data line, and the
    two polarization labels "pol0" and "pol1" whatever [npol] is.  With
    at least one antenna and one polarization, the channels of the data
    lines are pairwise distinct, also as numpy stores them, so that the
    channel axis has one position per data line. *)
Theorem caltable_to_dict_shape
  (table : list string) (npol : nat) (w : list event) (d : caldict C) :
  to_dict table npol = (w, Ok (Some d)) ->
  get_antenna_names table = Ok (antennas d) /\
  length (gains d) = length (antennas d) /\
  Forall (fun row =>
            length row
            = length (nodup N.eq_dec (np_array_int (table_channels table))) /\
            Forall (fun item => length item = npol) row) (gains d) /\
  (0 < length (antennas d) -> 0 < npol ->
   length (nodup N.eq_dec (np_array_int (table_channels table)))
   = length (nodup N.eq_dec (table_channels table)) /\
   length (nodup N.eq_dec (table_channels table))
   = length (data_lines table)) /\
  length (channels d) = length (data_lines table) /\
  polarizations d = ["pol0"; "pol1"].
Proof.
  intros H.
  destruct (caltable_to_dict_inv F C pyfloat polar _ _ _ _ H)
    as (names & recs & Hn & Hp & Ha).
  destruct (parse_lines_quiet F pyfloat _ _ _ _ _ Hp) as (_ & _ & _ & Hch).
  destruct (assemble_inv F C polar _ _ _ _ _ _ Ha)
    as ((x & g & Hre & Hg) & Hant & Hlc & _ & Hpol & _).
  destruct (reshape3_shape C _ _ _ _ _ Hre) as [Hgl Hgs].
  destruct (swapaxes01_shape (length names) _ npol g Hgl Hgs) as [S1 S2].
  assert (Hdl : length (table_channels table) = length (data_lines table))
    by (unfold table_channels; apply length_map).
  rewrite Hant, Hg. split; [exact Hn|]. split; [exact S1|]. split.
  { rewrite <- unique_length_distinct, <- Hch. exact S2. }
  split.
  { intros Hants Hnpol. rewrite <- Hch in *.
    destruct (ListDec.NoDup_dec N.eq_dec (np_array_int (map rec_channel recs)))
      as [Hnd|Hnd].
    - pose proof (np_array_int_NoDup _ Hnd) as Hnd'.
      rewrite (nodup_fixed_point N.eq_dec Hnd).
      rewrite (nodup_fixed_point N.eq_dec Hnd').
      rewrite np_array_int_length. split; [reflexivity | exact Hdl].
    - exfalso.
      pose proof (parse_lines_records F pyfloat _ _ _ _ _ Hp) as HF.
      pose proof (assemble_repeated_channel F C polar (length names) npol
                    names recs
                    (recorded_shapes F C pyfloat polar _ _ _ _ HF)
                    Hnd Hants Hnpol) as Hr.
      rewrite Ha in Hr. discriminate. }
  split; [|exact Hpol]. rewrite Hlc.
  rewrite <- (length_map rec_channel recs), Hch. exact Hdl.
Qed.


End DatasetShape.

Lemma caltable_to_dict_shape_witness :
  exists w d,
    Symbolic.caltable_to_dict two_channel_table 2 = (w, Ok (Some d)) /\
    length (gains d) = length (antennas d) /\
    polarizations d = ["pol0"; "pol1"].
Proof.
  eexists. eexists. split; [vm_compute; reflexivity|].
  refine ((fun H => conj (proj1 (proj2 H))
                      (proj2 (proj2 (proj2 (proj2 (proj2 H))))))
            (caltable_to_dict_shape
               Symbolic.F Symbolic.C Symbolic.pyfloat Symbolic.polar
               two_channel_table 2 _ _ _)).
  vm_compute. reflexivity.
Defined.


(** ** How the functions fail *)

Section ParserFailures.
Variables F C : Type.
Variable pyfloat : string -> option F.
Variable polar : F -> F -> C.

Local Abbreviation parse := (parse_lines F pyfloat).
Local Abbreviation to_dict := (caltable_to_dict F C pyfloat polar).

Lemma parse_lines_raises nants npol : forall table w e,
  parse nants npol table = (w, Raise e) -> e = ValueError.
Proof.
  induction table as [|L rest IH]; intros w e H.
  - discriminate.
  - destruct (data_re_match L) as [[[[t f] c] tl]|] eqn:Hm.
    + rewrite (parse_lines_data_line F pyfloat _ _ _ _ _ _ _ _ Hm) in H.
      destruct (py_int_cases c) as [[_ Hi]|[_ Hi]]; rewrite Hi in H;
        [|congruence].
      destruct (length (numeric_tokens tl) =? nants * 2 * npol)%nat;
        [|discriminate].
      destruct (floats F pyfloat (numeric_tokens tl)) as [vs|e'] eqn:Hf.
      * destruct (parse nants npol rest) as [w' [[recs'|]|e']] eqn:Hr;
          cbn [option_map] in H; try discriminate.
        injection H as _ <-. eapply IH. reflexivity.
      * injection H as _ <-. eapply floats_raises, Hf.
    + rewrite (parse_lines_skip F pyfloat _ _ _ _ Hm) in H. eapply IH, H.
Qed.

Lemma assemble_raises nants npol names recs w e :
  assemble F C polar nants npol names recs = (w, Raise e) -> e = ValueError.
Proof.
  unfold assemble. intros H.
  match type of H with
  | context [reshape3 C ?n nants npol ?x] =>
      destruct (reshape3 C n nants npol x) as [g|e'] eqn:Hre
  end.
  - match type of H with
    | context [(?a * ?b =? 1)%nat] => destruct (a * b =? 1)%nat
    end; cbn [negb print io_ret io_bind lift app] in H; discriminate.
  - assert (e' = ValueError).
    { unfold reshape3 in Hre.
      destruct (_ =? _)%nat in Hre; [discriminate|]. congruence. }
    subst e'.
    match type of H with
    | context [(?a * ?b =? 1)%nat] => destruct (a * b =? 1)%nat
    end; cbn [negb print io_ret io_bind lift app] in H; congruence.
Qed.

(** X20.  The record parser raises [IndexError] on the empty table and on
    no other table; every other failure is a [ValueError], from [int] on
    the digits of a channel, from [float] on a token or from the reshape
    of the gains. *)
Theorem caltable_to_dict_failures (table : list string) (npol : nat) :
  (table = [] ->
   caltable_to_dict F C pyfloat polar table npol = ([], Raise IndexError)) /\
  forall w e, caltable_to_dict F C pyfloat polar table npol = (w, Raise e) ->
    (e = IndexError /\ table = []) \/ (e = ValueError /\ table <> []).
Proof.
  split; [intros ->; reflexivity|].
  intros w e H. destruct table as [|L0 rest].
  - left. split; [|reflexivity]. cbv in H. congruence.
  - right. split; [|discriminate].
    rewrite (caltable_to_dict_eq F C pyfloat polar (L0 :: rest) npol
               (findall_ant L0 0) eq_refl) in H.
    destruct (parse (length (findall_ant L0 0)) npol (L0 :: rest))
      as [w1 [[recs|]|e1]] eqn:Hp.
    + destruct (assemble F C polar _ npol _ recs) as [w2 [d|e2]] eqn:Ha;
        [discriminate|].
      injection H as _ <-. eapply assemble_raises, Ha.
    + discriminate.
    + injection H as _ <-. eapply parse_lines_raises, Hp.
Qed.

End ParserFailures.

Lemma caltable_to_dict_failures_witness :
  Symbolic.caltable_to_dict [] 2 = ([], Raise IndexError).
Proof.
  apply (proj1 (caltable_to_dict_failures
                  Symbolic.F Symbolic.C Symbolic.pyfloat Symbolic.polar
                  [] 2)).
  reflexivity.
Defined.

Lemma split_into_sections_raises sol e :
  split_into_sections sol = Raise e -> e = IndexError.
Proof.
  unfold split_into_sections. intros H.
  destruct (section_starts sol 0) as [|a idx] eqn:E.
  - rewrite index_nil in H. cbn [bind] in H. congruence.
  - rewrite (index_last 0%Z) in H by discriminate. discriminate.
Qed.

Lemma filter_length_le {A : Type} (f : A -> bool) (l : list A) :
  length (filter f l) <= length l.
Proof. induction l as [|x l IH]; simpl; [lia|]. destruct (f x); simpl; lia. Qed.

(** X21.  How [parse_bandpass_text] can fail: with [UnboundLocalError]
    exactly on the reports with one marker line, with [IndexError] (no
    marker line, no "Time" line in the first block, or a Section line
    without a bar), and, on a report with two or more marker lines, with
    [RecursionError] when the recursion limit is reached, which does not
    happen when it allows as many nested calls as the report has lines.
    A report without marker line always fails. *)
Theorem parse_bandpass_text_failures (depth : nat) (lines : list string) :
  (marker_count lines = 0 ->
   parse_bandpass_text depth lines = ([], Raise IndexError)) /\
  (forall e, snd (parse_bandpass_text depth lines) = Raise e ->
     (e = UnboundLocalError /\ marker_count lines = 1) \/
     (e = IndexError /\ marker_count lines <> 1) \/
     (e = RecursionError /\ 2 <= marker_count lines)) /\
  (length lines <= depth ->
   snd (parse_bandpass_text depth lines) <> Raise RecursionError).
Proof.
  assert (H0 : marker_count lines = 0 ->
               parse_bandpass_text depth lines = ([], Raise IndexError)).
  { intros Hc. unfold parse_bandpass_text, extract_solutions.
    assert (E : marker_indices "SpwID" lines 0 = []).
    { apply length_zero_iff_nil. rewrite marker_indices_length. exact Hc. }
    rewrite E. reflexivity. }
  split; [exact H0|].
  destruct (marker_count lines) as [|[|n]] eqn:Hc.
  - rewrite (H0 eq_refl). split; [|discriminate].
    intros e H. injection H as <-.
    right. left. split; [reflexivity | discriminate].
  - destruct (extract_solutions_one_marker lines Hc) as [block E].
    assert (Hu : parse_bandpass_text depth lines
                 = ([], Raise UnboundLocalError)).
    { unfold parse_bandpass_text. rewrite E. reflexivity. }
    rewrite Hu. split; [|discriminate].
    intros e H. injection H as <-. left. split; reflexivity.
  - pose proof (marker_indices_length "SpwID" lines 0) as Hl.
    fold (marker_count lines) in Hl. rewrite Hc in Hl.
    assert (Hex : exists block others,
              extract_solutions lines = Ok (block :: others) /\
              (1 <? length (block :: others))%nat = true /\
              length block <= length lines).
    { unfold extract_solutions.
      destruct (marker_indices "SpwID" lines 0) as [|a [|b tl]];
        try discriminate.
      change ((1 <? length (a :: b :: tl))%nat) with true. cbv iota.
      rewrite (index_last a) by discriminate. cbn [bind].
      change (spans_between lines (a :: b :: tl))
        with (slice lines a b :: spans_between lines (b :: tl)).
      cbn [app]. eexists. eexists. split; [reflexivity|]. split.
      - cbn [length]. rewrite length_app. cbn [length].
        rewrite Nat.add_1_r. reflexivity.
      - unfold slice. rewrite length_firstn, length_skipn. lia. }
    destruct Hex as (block & others & E & G & Hbl).
    rewrite (parse_bandpass_text_of_blocks depth _ _ _ E G). cbn [snd].
    assert (Hcases : forall e,
      (sol1 <- remove_duplicate_heders depth (remove_newline_chars block)
                 None ;;
       sol2 <- remove_duplicate_heders depth sol1 None ;;
       sections <- split_into_sections sol2 ;;
       join_sections depth sections) = Raise e ->
      e = IndexError \/ (e = RecursionError /\ ~ length lines <= depth)).
    { intros e H.
      destruct (remove_duplicate_heders depth (remove_newline_chars block)
                  None) as [r1|e1] eqn:R1; cbn [bind] in H.
      2: { injection H as <-. right.
           split; [eapply remove_duplicate_heders_raises, R1|].
           intros Hd.
           destruct (remove_duplicate_heders_depth_enough depth
                       (remove_newline_chars block)) as [r Hr];
             [unfold remove_newline_chars; rewrite length_map; lia|].
           congruence. }
      pose proof (Subseq_length _ _
                    (remove_duplicate_heders_depth_subseq _ _ _ R1)) as L1.
      unfold remove_newline_chars in L1. rewrite length_map in L1.
      destruct (remove_duplicate_heders depth r1 None) as [r2|e2] eqn:R2;
        cbn [bind] in H.
      2: { injection H as <-. right.
           split; [eapply remove_duplicate_heders_raises, R2|].
           intros Hd.
           destruct (remove_duplicate_heders_depth_enough depth r1)
             as [r Hr]; [lia|]. congruence. }
      pose proof (Subseq_length _ _
                    (remove_duplicate_heders_depth_subseq _ _ _ R2)) as L2.
      destruct (split_into_sections r2) as [secs|e'] eqn:Es; cbn [bind] in H.
      - destruct (join_sections_raises _ _ _ H) as [->| ->];
          [left; reflexivity|].
        right. split; [reflexivity|]. intros Hd.
        assert (Hsecs : length secs <= S depth).
        { destruct (time_line_count r2) as [|k] eqn:Hk.
          - apply (proj1 (proj1 (split_into_sections_count r2))) in Hk.
            congruence.
          - destruct (proj2 (split_into_sections_count r2)) as (secs' & E' & Hl');
              [lia|].
            rewrite Es in E'. injection E' as <-. rewrite Hl'.
            unfold time_line_count.
            pose proof (filter_length_le (contains "Time") r2). lia. }
        pose proof (join_sections_enough _ _ _ Hsecs H). discriminate.
      - injection H as <-. left. eapply split_into_sections_raises, Es. }
    split.
    + intros e H. right. destruct (Hcases e H) as [->|[-> _]].
      * left. split; [reflexivity | discriminate].
      * right. split; [reflexivity | lia].
    + intros Hd H. destruct (Hcases _ H) as [H'|[_ H']];
        [discriminate | exact (H' Hd)].
Qed.

Lemma parse_bandpass_text_failures_witness :
  marker_count ["Ant = A0"; "Time"] = 0 /\
  parse_bandpass_text 1000 ["Ant = A0"; "Time"] = ([], Raise IndexError).
Proof.
  split; [reflexivity|].
  apply (proj1 (parse_bandpass_text_failures 1000 ["Ant = A0"; "Time"])).
  reflexivity.
Defined.

(** ** Header Deduplicator: what is kept *)

Lemma scan_headers_skip_free sol pre : forall rest i0 last,
  Forall (fun L => contains "Time" L = false) pre ->
  scan_headers sol (pre ++ rest) i0 last
  = scan_headers sol rest (i0 + Z.of_nat (length pre)) last.
Proof.
  induction pre as [|P pre IH]; intros rest i0 last H.
  - simpl. rewrite Z.add_0_r. reflexivity.
  - inversion H as [|? ? HP Hpre]; subst. cbn [app scan_headers].
    rewrite HP, IH by exact Hpre. f_equal. cbn [length]. lia.
Qed.

Lemma remove_duplicate_heders_depth_prefix : forall d pre rest r,
  Forall (fun L => contains "Time" L = false) pre ->
  remove_duplicate_heders d (pre ++ rest) None = Ok r ->
  exists rest', r = pre ++ rest'.
Proof.
  induction d as [|d IH]; intros pre rest r Hpre H;
    rewrite remove_duplicate_heders_depth_eq in H;
    rewrite (scan_headers_skip_free _ pre rest 0 None Hpre) in H;
    destruct (scan_headers (pre ++ rest) rest (0 + Z.of_nat (length pre)) None)
      as [[i|]|e] eqn:Hs; cbn [bind] in H; try discriminate;
    try (injection H as <-; exists rest; reflexivity).
  destruct (scan_headers_bounds _ _ _ _ _ Hs) as [Hb Hn].
  specialize (Hn eq_refl).
  assert (Hi : 1 <= Z.to_nat i < length (pre ++ rest))
    by (rewrite length_app; lia).
  replace i with (Z.of_nat (Z.to_nat i)) in H by lia.
  rewrite (excise_inner _ _ Hi) in H.
  rewrite firstn_app, firstn_all2 in H by lia.
  rewrite <- app_assoc in H. eapply IH; [exact Hpre | exact H].
Qed.

(** X22.  The deduplicator, started without a header, never touches the
    lines that stand before the first "Time" line of the block: whatever
    block it returns starts with them. *)
Theorem remove_duplicate_heders_keeps_prefix
  (depth : nat) (pre rest r : list string) :
  Forall (fun L => contains "Time" L = false) pre ->
  remove_duplicate_heders depth (pre ++ rest) None = Ok r ->
  exists rest', r = pre ++ rest'.
Proof.
  intros Hpre Hr.
  exact (remove_duplicate_heders_depth_prefix _ pre rest r Hpre Hr).
Qed.

Lemma remove_duplicate_heders_keeps_prefix_witness :
  Forall (fun L => contains "Time" L = false) ["SpwID = 0"; "|Ant = A0"] /\
  exists rest',
    ["SpwID = 0"; "|Ant = A0"; "Time|"; "---|"]
    = ["SpwID = 0"; "|Ant = A0"] ++ rest'.
Proof.
  assert (H : Forall (fun L => contains "Time" L = false)
                     ["SpwID = 0"; "|Ant = A0"])
    by (repeat constructor).
  split; [exact H|].
  destruct (remove_duplicate_heders_keeps_prefix 1
              ["SpwID = 0"; "|Ant = A0"]
              ["Time|"; "---|"; "|Ant = A0"; "Time|"]
              ["SpwID = 0"; "|Ant = A0"; "Time|"; "---|"] H eq_refl)
    as (rest' & E).
  exists rest'. exact E.
Defined.

(** ** Record Parser: the order of the data lines *)

(** A list ordered strictly by a key is the only ordering of its items
    that is. *)
Lemma sorted_perm_unique {X : Type} (key : X -> N) : forall l1 l2 : list X,
  StronglySorted N.lt (map key l1) -> StronglySorted N.lt (map key l2) ->
  Permutation l1 l2 -> l1 = l2.
Proof.
  induction l1 as [|a l1 IH]; intros l2 S1 S2 Hp.
  - apply Permutation_nil in Hp. congruence.
  - destruct l2 as [|b l2];
      [apply Permutation_sym, Permutation_nil in Hp; discriminate|].
    simpl in S1, S2.
    inversion S1 as [|? ? S1' F1]; subst. inversion S2 as [|? ? S2' F2]; subst.
    rewrite Forall_map, Forall_forall in F1, F2.
    assert (Hab : a = b).
    { assert (Ha : In a (b :: l2))
        by (eapply Permutation_in; [exact Hp | left; reflexivity]).
      assert (Hb : In b (a :: l1))
        by (eapply Permutation_in;
            [apply Permutation_sym, Hp | left; reflexivity]).
      destruct Ha as [Ha|Ha]; [congruence|].
      destruct Hb as [Hb|Hb]; [congruence|].
      specialize (F1 b Hb). specialize (F2 a Ha). lia. }
    subst b. f_equal. apply IH; try assumption.
    eapply Permutation_cons_inv, Hp.
Qed.

Section LineOrder.
Variables F C : Type.
Variable pyfloat : string -> option F.
Variable polar : F -> F -> C.

Local Abbreviation parse := (parse_lines F pyfloat).
Local Abbreviation to_dict := (caltable_to_dict F C pyfloat polar).
Local Abbreviation block_of r := (gain_block F C polar (rec_amp r) (rec_phs r)).
Local Abbreviation entry :=
  (fun r : data_record F => (rec_channel r, block_of r)).

Local Abbreviation recorded nants npol :=
  (fun (g : string * string * string * string) (r : data_record F) =>
     rec_channel r = int_of_digits (snd (fst g)) /\
     exists values,
       floats F pyfloat (numeric_tokens (snd g)) = Ok values /\
       length values = nants * 2 * npol /\
       rec_amp r = map (map fst) (rows nants npol (unpair values)) /\
       rec_phs r = map (map snd) (rows nants npol (unpair values))).

(** The channel and the gain block recorded for a data line are a
    function of the line's match. *)
Lemma recorded_entries nants npol : forall gs recs,
  Forall2 (recorded nants npol) gs recs ->
  map entry recs
  = map (fun g =>
           (int_of_digits (snd (fst g)),
            match floats F pyfloat (numeric_tokens (snd g)) with
            | Ok values =>
                gain_block F C polar
                  (map (map fst) (rows nants npol (unpair values)))
                  (map (map snd) (rows nants npol (unpair values)))
            | Raise _ => []
            end)) gs.
Proof.
  induction 1 as [|g r gs recs Hr _ IH]; simpl; [reflexivity|].
  destruct Hr as (Hc & values & Hf & _ & Ha & Hp).
  rewrite Hc, Hf, Ha, Hp, IH. reflexivity.
Qed.

(** The blocks and channels of a dataset, in terms of the entries sorted
    by channel. *)
Lemma assemble_entries nants npol names recs :
  np_array_int (map rec_channel recs) = map rec_channel recs ->
  NoDup (map rec_channel recs) ->
  Forall (fun r => length (block_of r) = nants /\
                   Forall (fun row => length row = npol) (block_of r)) recs ->
  exists w d sorted,
    assemble F C polar nants npol names recs = (w, Ok d) /\
    antennas d = names /\
    channels d = map fst sorted /\
    gains d = swapaxes01 nants (map snd sorted) /\
    Permutation sorted (map entry recs) /\
    StronglySorted N.lt (map fst sorted).
Proof.
  intros Hnp Hnd Hshape.
  assert (Hnd' : NoDup (np_array_int (map rec_channel recs)))
    by (rewrite Hnp; exact Hnd).
  destruct (assemble_gains F C polar nants npol names recs Hnd' Hshape)
    as (w & d & Ha & Hant & _ & Hch & blocks & Hg & Hs).
  rewrite Hnp in Hch, Hs. clear Hnd'.
  set (keys := map rec_channel recs) in *.
  set (idx := argsort N.leb 0%N keys) in *.
  assert (Hidx : forall i, In i idx -> i < length recs).
  { intros i Hi. apply argsort_in_range in Hi. subst keys.
    rewrite length_map in Hi. exact Hi. }
  set (dflt := (0%N, @nil (list C))).
  exists w, d, (map (fun i => nth i (map entry recs) dflt) idx).
  split; [exact Ha|]. split; [exact Hant|].
  assert (Hfst : map fst (map (fun i => nth i (map entry recs) dflt) idx)
                 = map (fun i => nth i keys 0%N) idx).
  { rewrite map_map. apply map_ext_in. intros i Hi.
    destruct (nth_error_defined recs i (Hidx i Hi)) as [r Hr].
    subst keys.
    rewrite (nth_map_some _ _ _ _ _ Hr), (nth_map_some _ _ _ _ _ Hr).
    reflexivity. }
  split; [rewrite Hfst; exact Hch|]. split.
  { rewrite Hg. f_equal. rewrite map_map. clear -Hs.
    induction Hs as [|i blk idx blocks (r & Hr & ->) _ IH]; [reflexivity|].
    simpl. rewrite (nth_map_some _ _ _ _ _ Hr), IH. reflexivity. }
  split.
  { assert (Hseq : map (fun i => nth i (map entry recs) dflt)
                       (seq 0 (length recs)) = map entry recs).
    { rewrite <- (length_map entry recs).
      generalize (map entry recs). clear.
      induction l as [|x l IH]; simpl; [reflexivity|].
      f_equal. rewrite <- seq_shift, map_map. exact IH. }
    apply perm_trans
      with (map (fun i => nth i (map entry recs) dflt) (seq 0 (length recs))).
    - apply Permutation_map. subst idx.
      replace (length recs) with (length keys)
        by (subst keys; apply length_map).
      apply argsort_perm.
    - rewrite Hseq. apply Permutation_refl. }
  rewrite Hfst. apply sorted_nodup_strict.
  - apply sorted_by_key_map, argsort_sorted.
  - eapply Permutation_NoDup;
      [apply Permutation_sym, argsort_keys_perm | exact Hnd].
Qed.

Lemma data_lines_In_inv table g :
  In g (data_lines table) ->
  exists L, In L table /\ data_re_match L = Some g.
Proof.
  unfold data_lines. intros H. apply in_flat_map in H.
  destruct H as (L & HL & Hg). exists L. split; [exact HL|].
  destruct (data_re_match L) as [g'|]; [|contradiction].
  destruct Hg as [->|[]]. reflexivity.
Qed.

(** X23.  The order of the data lines does not matter: two tables with
    the same antenna names whose data lines match alike up to their
    order, all with the expected number of values and convertible, and
    with distinct channels below 2^63, are both parsed and give the same
    antennas, the same channels and the same gain array. *)
Theorem caltable_to_dict_line_order
  (t1 t2 : list string) (npol : nat) (names : list string) :
  get_antenna_names t1 = Ok names ->
  get_antenna_names t2 = Ok names ->
  Permutation (data_lines t1) (data_lines t2) ->
  (forall L time field ch tail, In L t1 ->
     data_re_match L = Some (time, field, ch, tail) ->
     length (numeric_tokens tail) = length names * 2 * npol /\
     String.length ch <= int_max_str_digits /\
     forall x, In x (numeric_tokens tail) -> pyfloat x <> None) ->
  NoDup (table_channels t1) ->
  Forall (fun c => (c < two_63)%N) (table_channels t1) ->
  exists w1 w2 d1 d2,
    to_dict t1 npol = (w1, Ok (Some d1)) /\
    to_dict t2 npol = (w2, Ok (Some d2)) /\
    antennas d1 = antennas d2 /\
    channels d1 = channels d2 /\
    gains d1 = gains d2.
Proof.
  intros Hn1 Hn2 Hperm Hwf1 Hnd1 Hsm1.
  assert (Hwf2 : forall L time field ch tail, In L t2 ->
     data_re_match L = Some (time, field, ch, tail) ->
     length (numeric_tokens tail) = length names * 2 * npol /\
     String.length ch <= int_max_str_digits /\
     forall x, In x (numeric_tokens tail) -> pyfloat x <> None).
  { intros L time field ch tail HL Hm.
    assert (Hin : In (time, field, ch, tail) (data_lines t1)).
    { eapply Permutation_in; [apply Permutation_sym, Hperm|].
      eapply data_lines_In; eassumption. }
    apply data_lines_In_inv in Hin. destruct Hin as (L1 & HL1 & Hm1).
    eapply Hwf1; eassumption. }
  assert (Hpc : Permutation (table_channels t1) (table_channels t2)).
  { unfold table_channels. apply Permutation_map, Hperm. }
  assert (Hnd2 : NoDup (table_channels t2)).
  { eapply Permutation_NoDup; [exact Hpc | exact Hnd1]. }
  assert (Hsm2 : Forall (fun c => (c < two_63)%N) (table_channels t2)).
  { eapply Permutation_Forall; [exact Hpc | exact Hsm1]. }
  destruct (parse_lines_succeeds F pyfloat (length names) npol t1 Hwf1)
    as [recs1 Hp1].
  destruct (parse_lines_succeeds F pyfloat (length names) npol t2 Hwf2)
    as [recs2 Hp2].
  pose proof (parse_lines_records F pyfloat _ _ _ _ _ Hp1) as HF1.
  pose proof (parse_lines_records F pyfloat _ _ _ _ _ Hp2) as HF2.
  pose proof (recorded_channels F pyfloat _ _ _ _ HF1) as Hc1.
  pose proof (recorded_channels F pyfloat _ _ _ _ HF2) as Hc2.
  fold (table_channels t1) in Hc1. fold (table_channels t2) in Hc2.
  rewrite <- Hc1 in Hnd1, Hsm1. rewrite <- Hc2 in Hnd2, Hsm2.
  destruct (assemble_entries (length names) npol names recs1
              (proj1 (np_array_int_small _ Hsm1)) Hnd1
              (recorded_shapes F C pyfloat polar _ _ _ _ HF1))
    as (w1 & d1 & s1 & A1 & N1 & C1 & G1 & P1 & S1).
  destruct (assemble_entries (length names) npol names recs2
              (proj1 (np_array_int_small _ Hsm2)) Hnd2
              (recorded_shapes F C pyfloat polar _ _ _ _ HF2))
    as (w2 & d2 & s2 & A2 & N2 & C2 & G2 & P2 & S2).
  assert (Hs : s1 = s2).
  { apply (sorted_perm_unique fst); [exact S1 | exact S2 |].
    eapply perm_trans; [exact P1|].
    eapply perm_trans; [|apply Permutation_sym, P2].
    rewrite (recorded_entries _ _ _ _ HF1), (recorded_entries _ _ _ _ HF2).
    apply Permutation_map, Hperm. }
  exists w1, w2, d1, d2.
  assert (Hto : forall t recs w d,
            get_antenna_names t = Ok names ->
            parse (length names) npol t = ([], Ok (Some recs)) ->
            assemble F C polar (length names) npol names recs = (w, Ok d) ->
            to_dict t npol = (w, Ok (Some d))).
  { intros t recs w d Hn Hp Ha.
    rewrite (caltable_to_dict_eq F C pyfloat polar _ npol names Hn), Hp, Ha.
    reflexivity. }
  split; [apply (Hto t1 recs1); assumption|].
  split; [apply (Hto t2 recs2); assumption|].
  split; [congruence|]. split; [rewrite C1, C2, Hs; reflexivity|].
  rewrite G1, G2, Hs. reflexivity.
Qed.

End LineOrder.

Lemma caltable_to_dict_line_order_witness :
  exists w1 w2 d1 d2,
    Symbolic.caltable_to_dict two_channel_table 2 = (w1, Ok (Some d1)) /\
    Symbolic.caltable_to_dict
      ["Ant = A0 Ant = A1";
       "10:00:00 FieldX 0| 1.1 0.1 2.1 90.1 3.1 4.1 5.1 6.1";
       "10:00:00 FieldX 1| 1.0 0.0F 2.0 90.0 3.0 4.0 5.0 6.0"] 2
    = (w2, Ok (Some d2)) /\
    antennas d1 = antennas d2 /\
    channels d1 = channels d2 /\
    gains d1 = gains d2.
Proof.
  assert (E : table_channels two_channel_table = [1; 0]%N)
    by (vm_compute; reflexivity).
  apply (caltable_to_dict_line_order
           Symbolic.F Symbolic.C Symbolic.pyfloat Symbolic.polar
           two_channel_table _ 2 ["A0"; "A1"]).
  - reflexivity.
  - reflexivity.
  - vm_compute. apply perm_swap.
  - intros L time field ch tail HL Hm. simpl in HL.
    destruct HL as [<-|[<-|[<-|[<-|[]]]]]; vm_compute in Hm;
      try discriminate; injection Hm as <- <- <- <-;
      (split; [reflexivity|]);
      (split; [apply Nat.leb_le; vm_compute; reflexivity|]);
      intros x Hx; vm_compute in Hx;
      repeat (destruct Hx as [<-|Hx]; [vm_compute; discriminate|]);
      destruct Hx.
  - rewrite E. repeat constructor; simpl; intuition discriminate.
  - rewrite E. repeat constructor.
Defined.

(** ** Table Segmenter: a "Time" line in first position *)

(** X24.  When the only "Time" line of a block is its first line, the
    Section is taken to begin one line earlier, at index -1, which Python
    reads from the end: the one Section returned is the last line of the
    block alone, and every other line is lost. *)
Theorem split_into_sections_time_first (sol : list string) :
  contains "Time" (hd EmptyString sol) = true ->
  time_line_count sol = 1 ->
  split_into_sections sol = Ok [skipn (length sol - 1) sol].
Proof.
  intros Hhd Hc. destruct sol as [|L rest]; [discriminate|].
  cbn [hd] in Hhd. unfold split_into_sections, time_line_count in *.
  rewrite section_starts_marker.
  rewrite <- (marker_indices_length "Time" (L :: rest) 0) in Hc.
  cbn [marker_indices] in *. rewrite Hhd in *. cbn [length] in Hc.
  assert (E : marker_indices "Time" rest (0 + 1) = []).
  { apply length_zero_iff_nil. lia. }
  rewrite E. cbn [map spans_between app].
  change (index [(0 - 1)%Z] (-1)) with (@Ok Z (-1)%Z). cbn [bind].
  unfold slice_from, slice_bound. cbn [Z.ltb Z.compare].
  replace (Z.to_nat (Z.max 0 (-1 + Z.of_nat (length (L :: rest)))))
    with (length (L :: rest) - 1) by lia.
  reflexivity.
Qed.

Lemma split_into_sections_time_first_witness :
  contains "Time" (hd EmptyString ["Time Field Chn|"; "---|"; "t f 0| 1 2"])
  = true /\
  split_into_sections ["Time Field Chn|"; "---|"; "t f 0| 1 2"]
  = Ok [["t f 0| 1 2"]].
Proof.
  split; [reflexivity|].
  apply (split_into_sections_time_first
           ["Time Field Chn|"; "---|"; "t f 0| 1 2"]); reflexivity.
Defined.

(** ** Persistence Layer *)

Lemma byte_of_ascii_code (c : ascii) : Byte.to_N (byte_of_ascii c) = code c.
Proof.
  destruct c as [[] [] [] [] [] [] [] []]; reflexivity.
Qed.

Lemma decode_ascii : forall s,
  string_forall is_ascii s = true -> decode (list_byte_of_string s) = Ok s.
Proof.
  induction s as [|c s IH]; intros H; [reflexivity|].
  simpl in H. apply andb_true_iff in H. destruct H as [Hc Hs].
  change (list_byte_of_string (String c s))
    with (byte_of_ascii c :: list_byte_of_string s).
  cbn [decode]. cbv zeta. rewrite byte_of_ascii_code. unfold is_ascii in Hc. rewrite Hc.
  rewrite (IH Hs). cbn [bind]. rewrite ascii_of_byte_of_ascii. reflexivity.
Qed.

Lemma is_alnum_ascii (c : ascii) :
  is_alnum c = true -> is_ascii c = true /\ Ascii.eqb c Ascii.zero = false.
Proof.
  unfold is_alnum, is_ascii, in_range. intros H.
  assert (Hc : (48 <= code c <= 122)%N).
  { repeat (apply orb_true_iff in H; destruct H as [H|H]);
      apply andb_true_iff in H; destruct H as [H1 H2];
      apply N.leb_le in H1, H2; lia. }
  split; [apply N.ltb_lt; lia|].
  apply Ascii.eqb_neq. intros ->. cbv in Hc. destruct Hc as [Hc _].
  apply Hc. reflexivity.
Qed.

Lemma alnum_string_ascii : forall s,
  string_forall is_alnum s = true ->
  string_forall is_ascii s = true /\ rstrip_nul s = s.
Proof.
  induction s as [|c s IH]; intros H; [split; reflexivity|].
  simpl in H. apply andb_true_iff in H. destruct H as [Hc Hs].
  destruct (IH Hs) as [IH1 IH2]. destruct (is_alnum_ascii c Hc) as [H1 H2].
  split; [simpl; rewrite H1, IH1; reflexivity|].
  cbn [rstrip_nul]. rewrite IH2, H2. reflexivity.
Qed.

Lemma np_array_bytes_ascii (l : list string) :
  Forall (fun s => string_forall is_ascii s = true) l ->
  np_array_bytes l
  = Ok (map (fun s => list_byte_of_string (rstrip_nul s)) l).
Proof.
  intros H. unfold np_array_bytes.
  replace (forallb (string_forall is_ascii) l) with true; [reflexivity|].
  symmetry. apply forallb_forall. rewrite Forall_forall in H. exact H.
Qed.

Lemma index_nth_error {A : Type} (l : list A) (i : nat) (x : A) :
  nth_error l i = Some x -> index l (Z.of_nat i) = Ok x.
Proof.
  intros H. unfold index.
  assert (Hi : i < length l) by (apply nth_error_Some; congruence).
  destruct (Z.of_nat i <? 0)%Z eqn:E; [apply Z.ltb_lt in E; lia|].
  replace ((0 <=? Z.of_nat i) && (Z.of_nat i <? Z.of_nat (length l)))%Z
    with true.
  - rewrite Nat2Z.id, H. reflexivity.
  - symmetry. apply andb_true_iff. split;
      [apply Z.leb_le | apply Z.ltb_lt]; lia.
Qed.

Lemma nodup_length_perm (l l' : list N) :
  Permutation l l' ->
  length (nodup N.eq_dec l) = length (nodup N.eq_dec l').
Proof.
  intros Hp. apply Nat.le_antisymm; apply NoDup_incl_length;
    try apply NoDup_nodup; intros x Hx; apply nodup_In;
    apply nodup_In in Hx.
  - eapply Permutation_in; [exact Hp | exact Hx].
  - eapply Permutation_in; [apply Permutation_sym, Hp | exact Hx].
Qed.

Section PersistenceFacts.
Variables F C : Type.
Variable pyfloat : string -> option F.
Variable polar : F -> F -> C.

Local Abbreviation to_dict := (caltable_to_dict F C pyfloat polar).

Lemma assemble_channels_perm nants npol names recs w d :
  assemble F C polar nants npol names recs = (w, Ok d) ->
  Permutation (channels d) (np_array_int (map rec_channel recs)).
Proof.
  unfold assemble. intros H.
  match type of H with
  | context [reshape3 C ?n nants npol ?x] =>
      destruct (reshape3 C n nants npol x) as [g|e] eqn:Hre
  end;
    match type of H with
    | context [(?a * ?b =? 1)%nat] => destruct (a * b =? 1)%nat
    end; cbn [negb print io_ret io_bind lift app] in H;
    try discriminate; injection H as _ <-; cbn [channels];
    apply argsort_keys_perm.
Qed.

(** What the parser guarantees of a dataset it returns: alphanumeric
    antenna names, the two polarization labels, and a gain array of
    shape (antennas, distinct channels, [npol]). *)
Lemma dataset_wellformed table npol w d :
  to_dict table npol = (w, Ok (Some d)) ->
  Forall (fun n => string_forall is_alnum n = true) (antennas d) /\
  polarizations d = ["pol0"; "pol1"] /\
  length (gains d) = length (antennas d) /\
  Forall (fun row =>
            length row = length (nodup N.eq_dec (channels d)) /\
            Forall (fun item => length item = npol) row) (gains d).
Proof.
  intros H.
  destruct (caltable_to_dict_inv F C pyfloat polar _ _ _ _ H)
    as (names & recs & Hn & Hp & Ha).
  destruct (assemble_inv F C polar _ _ _ _ _ _ Ha)
    as ((x & g & Hre & Hg) & Hant & _ & _ & Hpol & _).
  pose proof (assemble_channels_perm _ _ _ _ _ _ Ha) as Hperm.
  destruct (reshape3_shape C _ _ _ _ _ Hre) as [Hgl Hgs].
  destruct (swapaxes01_shape (length names) _ npol g Hgl Hgs) as [S1 S2].
  split.
  { rewrite Hant. unfold get_antenna_names in Hn.
    destruct (index table 0) as [header|e]; [|discriminate].
    cbn [bind] in Hn. injection Hn as <-.
    apply Forall_forall. intros n Hin.
    apply (findall_ant_names _ _ _ Hin). }
  split; [exact Hpol|]. rewrite Hant, Hg. split; [exact S1|].
  rewrite (nodup_length_perm _ _ Hperm), <- unique_length_distinct.
  exact S2.
Qed.

(** C10 (as the code has it).  For a dataset returned by the record
    parser whose time and field tokens are ASCII and whose channel array
    is not an array of Python objects, [save_bandpass_hdf5] leaves under
    the file name exactly the container of the specification and prints
    the name; read back, the antenna byte strings decode to the antenna
    names, in their order, the members CHANNEL and GAIN/CPARAM are the
    channels and the gain array of the dataset, and the gain array has
    the shape (antennas, distinct channels, [npol]). *)
Theorem persistence_round_trip
  (table : list string) (npol : nat) (w : list event) (d : caldict C)
  (filename : string) :
  caltable_to_dict F C pyfloat polar table npol = (w, Ok (Some d)) ->
  Forall (fun s => string_forall is_ascii s = true) (times d) ->
  Forall (fun s => string_forall is_ascii s = true) (fields d) ->
  channel_dtype d <> Object ->
  save_bandpass_hdf5 C filename d
  = (bandpass_container d, ([Saved filename], Ok tt)) /\
  (exists items,
     bandpass_member C (bandpass_container d) "ANTENNA" = Ok (H5Strings items)
     /\ length items = length (antennas d)) /\
  (forall i name, nth_error (antennas d) i = Some name ->
     stored_antenna C (bandpass_container d) (Z.of_nat i) = Ok name) /\
  bandpass_member C (bandpass_container d) "CHANNEL"
  = Ok (H5Numbers (channel_dtype d) (channels d)) /\
  bandpass_member C (bandpass_container d) "GAIN/CPARAM"
  = Ok (H5Complex (gains d)) /\
  length (gains d) = length (antennas d) /\
  Forall (fun row =>
            length row = length (nodup N.eq_dec (channels d)) /\
            Forall (fun item => length item = npol) row) (gains d).
Proof.
  intros H Htimes Hfields Hdt.
  destruct (dataset_wellformed _ _ _ _ H) as (Hal & Hpol & S1 & S2).
  assert (Hants : Forall (fun s => string_forall is_ascii s = true)
                         (antennas d)).
  { eapply Forall_impl; [|exact Hal]. cbv beta.
    intros n Hn. apply (alnum_string_ascii n Hn). }
  split.
  { unfold save_bandpass_hdf5, bandpass_container.
    rewrite (np_array_bytes_ascii _ Hants), (np_array_bytes_ascii _ Htimes),
            (np_array_bytes_ascii _ Hfields), Hpol.
    destruct (channel_dtype d); try reflexivity. congruence. }
  split.
  { eexists. split; [reflexivity|]. apply length_map. }
  split.
  { intros i name Hi. unfold stored_antenna.
    change (bandpass_member C (bandpass_container d) "ANTENNA")
      with (@Ok (h5_object C)
              (H5Strings (map (fun s => list_byte_of_string (rstrip_nul s))
                              (antennas d)))).
    cbn [bind].
    rewrite (index_nth_error _ i (list_byte_of_string (rstrip_nul name)))
      by (rewrite nth_error_map, Hi; reflexivity).
    cbn [bind]. rewrite Forall_forall in Hal.
    destruct (alnum_string_ascii name (Hal name (nth_error_In _ _ Hi)))
      as [Ha ->].
    apply decode_ascii, Ha. }
  split; [reflexivity|]. split; [reflexivity|].
  split; [exact S1 | exact S2].
Qed.

End PersistenceFacts.

(** C10 as written fails: the parser returns a dataset for the table
    whose time token holds a letter outside ASCII, but the conversion of
    the times to byte strings raises [UnicodeEncodeError]: the function
    prints nothing, and the container it leaves has no gain array to
    read back. *)
Lemma persistence_fails_on_accented_time :
  exists d,
    Symbolic.caltable_to_dict accented_time_table 2 = ([], Ok (Some d)) /\
    snd (save_bandpass_hdf5 Symbolic.C "out.h5" d)
    = ([], Raise UnicodeEncodeError) /\
    bandpass_member Symbolic.C (fst (save_bandpass_hdf5 Symbolic.C "out.h5" d))
      "GAIN/CPARAM"
    = Raise KeyError.
Proof.
  eexists. split; [vm_compute; reflexivity|].
  split; vm_compute; reflexivity.
Qed.

Lemma persistence_round_trip_witness :
  exists d,
    Symbolic.caltable_to_dict two_channel_table 2 = ([], Ok (Some d)) /\
    save_bandpass_hdf5 Symbolic.C "bandpass.h5" d
    = (bandpass_container d, ([Saved "bandpass.h5"], Ok tt)).
Proof.
  eexists. split; [vm_compute; reflexivity|].
  refine (proj1 (persistence_round_trip
                   Symbolic.F Symbolic.C Symbolic.pyfloat Symbolic.polar
                   two_channel_table 2 [] _ "bandpass.h5" _ _ _ _)).
  - vm_compute. reflexivity.
  - repeat constructor.
  - repeat constructor.
  - discriminate.
Defined.
